(** * Draw2Diagram: the canvas interaction and geometry engine

    A shallow embedding of [utils/geometry.ts], [utils/render.ts] (the image
    cache) and the [Canvas] component (pointer handlers, hit-testing), with
    the properties of the specification stated and proved over it.

    Conventions of the embedding.
    - Plane coordinates are real numbers ([R]), where the source computes
      in binary64.  Every expression of the source is embedded as it is
      written, so that a comparison, a minimum or maximum, the branch taken
      and the shape of a result read the same in both.  The properties
      claimed below are stated in those terms, over the engine's own
      expressions: none of them asserts an identity that holds of exact
      arithmetic only (that a computed point lies exactly on a circle, that
      two translations add up).  The one that says more, the description
      of the hit boxes of the resize handles by a distance to their centre,
      holds of the source up to the rounding of a sum at the edge of a box.
      The sentinels [Infinity]/[-Infinity] that the source uses as
      the initial value of a running minimum/maximum are modelled by an
      accumulator of type [option Bounds] ([None]: still at the sentinels).
    - An element is a JavaScript object: a record whose variant-specific
      fields may be absent.  An absent [points] array is represented by the
      empty list: a read of [points] in the embedded code is guarded by a
      length test or maps over the array (the one that is not, in
      [drawElement], throws for both), so the two are indistinguishable for
      well-typed elements.  An absent or empty string
      ([pathData], [text], [imageUrl]) is the empty string, which is falsy.
    - Path data is text; its numbers are decimal fractions (module
      [PathData]). *)

From Stdlib Require Import Reals Lra Lia ZArith List String Ascii Bool.
From stdpp Require Import gmap strings list.
Import ListNotations.
Open Scope R_scope.

(** ** JavaScript number primitives over the reals *)

Module Num.

Definition eqb (a b : R) : bool := if Req_dec_T a b then true else false.
Definition ltb (a b : R) : bool := if Rlt_dec a b then true else false.
Definition gtb (a b : R) : bool := ltb b a.
Definition leb (a b : R) : bool := if Rle_dec a b then true else false.
Definition geb (a b : R) : bool := leb b a.

(** [Math.hypot(a, b)] *)
Definition hypot (a b : R) : R := sqrt (a * a + b * b).

End Num.

(** ** Data model ([types.ts]) *)

Record Point := mkPoint { px : R; py : R }.

Record Bounds := mkBounds { minX : R; minY : R; maxX : R; maxY : R }.

Record ElementStyle := mkStyle {
  strokeColor : string;
  fillColor : string;
  strokeWidth : R;
  fontSize : option R
}.

(** The [type] tag.  [Eraser] is not a variant of [types.ts]: it is the tag
    that [handleMouseDown] writes through its cast [tool as 'line'] when the
    active tool is the eraser. *)
Inductive ElementType :=
  Pen | Line | Rectangle | Circle | Path | Text | Raster | Eraser.

Inductive Tool :=
  ToolSelect | ToolPen | ToolLine | ToolRectangle | ToolCircle | ToolPan
| ToolEraser | ToolText.

Record Element := mkElement {
  eid : Z;
  style : ElementStyle;
  isMap : option bool;
  etype : ElementType;
  points : list Point;
  startElementId : option Z;
  endElementId : option Z;
  pathData : string;
  bounds : option Bounds;
  text : string;
  imageUrl : string;
  sourceStrokeColor : string
}.

Definition ElementType_eqb (a b : ElementType) : bool :=
  match a, b with
  | Pen, Pen | Line, Line | Rectangle, Rectangle | Circle, Circle
  | Path, Path | Text, Text | Raster, Raster | Eraser, Eraser => true
  | _, _ => false
  end.

(** JavaScript truthiness of a string: the empty string is falsy. *)
Definition truthy (s : string) : bool :=
  match s with EmptyString => false | _ => true end.

(** Object spread with one field replaced: [{ ...el, points: ps }] etc. *)
Definition withPoints (el : Element) (ps : list Point) : Element :=
  mkElement (eid el) (style el) (isMap el) (etype el) ps
    (startElementId el) (endElementId el) (pathData el) (bounds el)
    (text el) (imageUrl el) (sourceStrokeColor el).

Definition withPathData (el : Element) (d : string) : Element :=
  mkElement (eid el) (style el) (isMap el) (etype el) (points el)
    (startElementId el) (endElementId el) d (bounds el)
    (text el) (imageUrl el) (sourceStrokeColor el).

Definition withBounds (el : Element) (b : option Bounds) : Element :=
  mkElement (eid el) (style el) (isMap el) (etype el) (points el)
    (startElementId el) (endElementId el) (pathData el) b
    (text el) (imageUrl el) (sourceStrokeColor el).

Definition withStartElementId (el : Element) (i : option Z) : Element :=
  mkElement (eid el) (style el) (isMap el) (etype el) (points el)
    i (endElementId el) (pathData el) (bounds el)
    (text el) (imageUrl el) (sourceStrokeColor el).

(** ** Geometry engine ([utils/geometry.ts]) *)

Definition origin : Point := mkPoint 0 0.

Definition zeroBounds : Bounds := mkBounds 0 0 0 0.

(** One step of a running min/max box.  [None] stands for the initial
    [minX = minY = Infinity], [maxX = maxY = -Infinity]; since
    [Math.min(Infinity, v) = v] and [Math.max(-Infinity, v) = v], the first
    step returns the box itself. *)
Definition joinBounds (acc : option Bounds) (b : Bounds) : option Bounds :=
  Some match acc with
       | None => b
       | Some a =>
           mkBounds (Rmin (minX a) (minX b)) (Rmin (minY a) (minY b))
                    (Rmax (maxX a) (maxX b)) (Rmax (maxY a) (maxY b))
       end.

Definition pointBox (p : Point) : Bounds := mkBounds (px p) (py p) (px p) (py p).

(** [element.style.fontSize || 24]: absent and [0] are both falsy. *)
Definition fontSizeOr24 (s : ElementStyle) : R :=
  match fontSize s with
  | Some f => if Num.eqb f 0 then 24 else f
  | None => 24
  end.

Section Geometry.

(** [ctx.measureText(text).width] for the font [`${fontSize}px sans-serif`]:
    the text-measurement facility of the host canvas. *)
Variable measureText : string -> R -> R.

Definition getRawElementBounds (element : Element) : Bounds :=
  match (match etype element with
         | Path | Raster => bounds element
         | _ => None
         end) with
  | Some b => b
  | None =>
      let ps := points element in
      let acc : option Bounds :=
        if ElementType_eqb (etype element) Circle && (2 <=? length ps)%nat then
          let center := nth 0 ps origin in
          let edge := nth 1 ps origin in
          let radius :=
            sqrt ((px edge - px center) ^ 2 + (py edge - py center) ^ 2) in
          Some (mkBounds (px center - radius) (py center - radius)
                         (px center + radius) (py center + radius))
        else if ElementType_eqb (etype element) Text && truthy (text element)
                && (0 <? length ps)%nat then
          let fontSize := fontSizeOr24 (style element) in
          let width := measureText (text element) fontSize in
          let x := px (nth 0 ps origin) in
          let y := py (nth 0 ps origin) in
          Some (mkBounds x y (x + width) (y + fontSize))
        else if (0 <? length ps)%nat then
          fold_left (fun acc p => joinBounds acc (pointBox p)) ps None
        else Some zeroBounds
      in
      match acc with
      | None => zeroBounds
      | Some b => b
      end
  end.

Definition getElementCenter (element : Element) : Point :=
  let bounds := getRawElementBounds element in
  mkPoint ((minX bounds + maxX bounds) / 2) ((minY bounds + maxY bounds) / 2).

Definition getElementBounds (element : Element) : Bounds :=
  let padding := strokeWidth (style element) / 2 + 5 in
  let bounds := getRawElementBounds element in
  mkBounds (minX bounds - padding) (minY bounds - padding)
           (maxX bounds + padding) (maxY bounds + padding).

Definition getElementsBounds (elements : list Element) : Bounds :=
  match fold_left (fun acc el => joinBounds acc (getRawElementBounds el))
                  elements None with
  | None => zeroBounds
  | Some b => b
  end.

(** [getAttachmentPoint].  The reals have no infinite quotient, so the one
    division by zero that well-formed input can reach, [slope = dy / dx] with
    [dx = 0] and [dy <> 0], is written out: the slope is then [+-Infinity],
    the test [Math.abs(slope) < hSlope] is false, and
    [(y - center.y) / slope] is zero. *)
Definition getAttachmentPoint (element : Element) (targetPoint : Point) : Point :=
  let bounds := getRawElementBounds element in
  let center := getElementCenter element in
  if ElementType_eqb (etype element) Circle then
    let radius := (maxX bounds - minX bounds) / 2 in
    let dx := px targetPoint - px center in
    let dy := py targetPoint - py center in
    let dist := Num.hypot dx dy in
    if Num.eqb dist 0 then mkPoint (px center + radius) (py center)
    else mkPoint (px center + (dx / dist) * radius)
                 (py center + (dy / dist) * radius)
  else
    let dx := px targetPoint - px center in
    let dy := py targetPoint - py center in
    let w := (maxX bounds - minX bounds) / 2 in
    let h := (maxY bounds - minY bounds) / 2 in
    if Num.eqb dx 0 && Num.eqb dy 0 then mkPoint (px center + w) (py center)
    else if Num.eqb w 0 || Num.eqb h 0 then center
    else if Num.eqb dx 0 then
      mkPoint (px center)
              (if Num.gtb dy 0 then py center + h else py center - h)
    else
      let slope := dy / dx in
      let hSlope := h / w in
      if Num.ltb (Rabs slope) hSlope then
        let x := if Num.gtb dx 0 then px center + w else px center - w in
        mkPoint x (py center + (x - px center) * slope)
      else
        let y := if Num.gtb dy 0 then py center + h else py center - h in
        mkPoint (px center + (y - py center) / slope) y.

End Geometry.

(** ** Hit-testing ([Canvas]) *)

Definition isPointNearLine (p1 p2 point : Point) (threshold : R) : bool :=
  let dx := px p2 - px p1 in
  let dy := py p2 - py p1 in
  if Num.eqb dx 0 && Num.eqb dy 0 then false
  else
    let t := ((px point - px p1) * dx + (py point - py p1) * dy)
             / (dx * dx + dy * dy) in
    let closestT := Rmax 0 (Rmin 1 t) in
    let closestPoint := mkPoint (px p1 + closestT * dx) (py p1 + closestT * dy) in
    let dist := sqrt ((px closestPoint - px point) ^ 2
                      + (py closestPoint - py point) ^ 2) in
    Num.ltb dist threshold.

(** *** Completions: a call returns a value or throws *)

Inductive completion (A : Type) : Type :=
| Normal (value : A)
| Throw (error : string).

Arguments Normal {A} value.
Arguments Throw {A} error.

(** A line written by [console.error]. *)
Inductive LogEntry :=
| SelectionCheckFailed (elementId : Z) (error : string)
| ImageLoadFailed (src : string).

Section HitTest.

Variable measureText : string -> R -> R.

(** The canvas path facility: [new Path2D(d)] followed by
    [ctx.isPointInPath(path, x, y)], respectively [ctx.isPointInStroke] under
    the line width [w].  Either may throw. *)
Variable isPointInPath : string -> Point -> completion bool.
Variable isPointInStroke : string -> R -> Point -> completion bool.

(** [scale] is the zoom factor of the host, which keeps it within
    [0.1, 20], so [10 / scale] never divides by zero. *)
Definition isPointInElement (point : Point) (element : Element) (scale : R)
  : completion bool :=
  let bounds := getElementBounds measureText element in
  if Num.ltb (px point) (minX bounds) || Num.gtb (px point) (maxX bounds)
     || Num.ltb (py point) (minY bounds) || Num.gtb (py point) (maxY bounds)
  then Normal false
  else if ElementType_eqb (etype element) Raster then Normal true
  else if ElementType_eqb (etype element) Path && truthy (pathData element) then
    let lineWidth := strokeWidth (style element) + 10 / scale in
    match isPointInPath (pathData element) point with
    | Normal true => Normal true
    | Normal false => isPointInStroke (pathData element) lineWidth point
    | Throw error => Throw error
    end
  else if ElementType_eqb (etype element) Line
          && (2 <=? length (points element))%nat then
    let threshold := 10 / scale + strokeWidth (style element) / 2 in
    Normal (isPointNearLine (nth 0 (points element) origin)
                            (nth 1 (points element) origin) point threshold)
  else Normal true.

(** The loop of [getElementAtPoint] over the candidates, threading the
    console: a [try]/[catch] around each test. *)
Fixpoint scanCandidates (point : Point) (scale : R) (candidates : list Element)
  (console : list LogEntry) : option Element * list LogEntry :=
  match candidates with
  | [] => (None, console)
  | el :: rest =>
      match isPointInElement point el scale with
      | Normal true => (Some el, console)
      | Normal false => scanCandidates point scale rest console
      | Throw error =>
          scanCandidates point scale rest
            (console ++ [SelectionCheckFailed (eid el) error])
      end
  end.

Definition getElementAtPoint (elements : list Element) (scale : R)
  (point : Point) (console : list LogEntry) : option Element * list LogEntry :=
  let reversedElements := rev elements in
  scanCandidates point scale reversedElements console.

(** The console lines owed to the candidates of [l] whose test throws, in
    scan order. *)
Definition thrownEntries (point : Point) (scale : R) (l : list Element)
  : list LogEntry :=
  flat_map (fun el => match isPointInElement point el scale with
                      | Throw error => [SelectionCheckFailed (eid el) error]
                      | Normal _ => []
                      end) l.

End HitTest.

(** ** The [Canvas] component: state *)

Inductive Handle := Hn | Hs | Hw | He | Hnw | Hne | Hsw | Hse.

Inductive Side := North | South | West | East.

(** [handle.includes('n')] etc. on the handle names
    ['n','s','w','e','nw','ne','sw','se']. *)
Definition includes (handle : Handle) (c : Side) : bool :=
  match c, handle with
  | North, (Hn | Hnw | Hne) => true
  | South, (Hs | Hsw | Hse) => true
  | West, (Hw | Hnw | Hsw) => true
  | East, (He | Hne | Hse) => true
  | _, _ => false
  end.

(** [['nw','ne','sw','se'].includes(handle)] *)
Definition isCorner (handle : Handle) : bool :=
  match handle with
  | Hnw | Hne | Hsw | Hse => true
  | _ => false
  end.

Inductive DragState :=
  DragNone | Drawing | DraggingSelection | Resizing | Marquee.

Record PanZoom := mkPanZoom { scale : R; positionX : R; positionY : R }.

(** [aspectRatio] is stored by the source and never read again; it is
    [None] when the quotient is not a finite number (zero height). *)
Record ResizingState := mkResizing {
  handle : Handle;
  initialSelectionBounds : Bounds;
  initialElements : gmap Z Element;
  aspectRatio : option R
}.

(** Calls made to the host through the component's props. *)
Inductive HostCall :=
| OnElementDoubleClick (elementId : Z)
| OnTextCreate (point : Point).

(** [React.MouseEvent]; [clock] is what [Date.now()] returns while the event
    is handled. *)
Record MouseEvent := mkMouse {
  clientX : R;
  clientY : R;
  button : Z;
  shiftKey : bool;
  clock : Z
}.

(** The props and the React state/refs of the component that the pointer
    handlers read or write.  [updates] records, oldest first, the
    [overwrite] flag of every [setElements] call ([true]: coalesced,
    [false]: committed); [console] and [hostCalls] record what the handlers
    log and which callbacks of the host they invoke.  The state that only
    feeds the drawing effect ([canvasSize], [loadedBgImage],
    [imageRenderTrigger], and [snapTarget], which the handlers only ever
    reset) is left out. *)
Record Canvas := mkCanvas {
  elements : list Element;
  updates : list bool;
  tool : Tool;
  currentStyle : ElementStyle;
  selectedElementIds : gset Z;
  panZoomState : PanZoom;
  wrapperRect : option (R * R);
  drawingElement : option Element;
  lastDragPoint : option Point;
  marquee : option (Point * Point);
  lastClickTime : Z;
  hoveredHandle : option Handle;
  resizingState : option ResizingState;
  dragState : DragState;
  console : list LogEntry;
  hostCalls : list HostCall
}.

(** State setters. *)
Definition setElements (action : list Element -> list Element) (overwrite : bool)
  (c : Canvas) : Canvas :=
  mkCanvas (action (elements c)) (updates c ++ [overwrite]) (tool c)
    (currentStyle c) (selectedElementIds c) (panZoomState c) (wrapperRect c)
    (drawingElement c) (lastDragPoint c) (marquee c) (lastClickTime c)
    (hoveredHandle c) (resizingState c) (dragState c) (console c) (hostCalls c).

Definition setSelectedElementIds (ids : gset Z) (c : Canvas) : Canvas :=
  mkCanvas (elements c) (updates c) (tool c) (currentStyle c) ids
    (panZoomState c) (wrapperRect c) (drawingElement c) (lastDragPoint c)
    (marquee c) (lastClickTime c) (hoveredHandle c) (resizingState c)
    (dragState c) (console c) (hostCalls c).

Definition setDrawingElement (el : option Element) (c : Canvas) : Canvas :=
  mkCanvas (elements c) (updates c) (tool c) (currentStyle c)
    (selectedElementIds c) (panZoomState c) (wrapperRect c) el
    (lastDragPoint c) (marquee c) (lastClickTime c) (hoveredHandle c)
    (resizingState c) (dragState c) (console c) (hostCalls c).

Definition setLastDragPoint (p : option Point) (c : Canvas) : Canvas :=
  mkCanvas (elements c) (updates c) (tool c) (currentStyle c)
    (selectedElementIds c) (panZoomState c) (wrapperRect c) (drawingElement c)
    p (marquee c) (lastClickTime c) (hoveredHandle c) (resizingState c)
    (dragState c) (console c) (hostCalls c).

Definition setMarquee (m : option (Point * Point)) (c : Canvas) : Canvas :=
  mkCanvas (elements c) (updates c) (tool c) (currentStyle c)
    (selectedElementIds c) (panZoomState c) (wrapperRect c) (drawingElement c)
    (lastDragPoint c) m (lastClickTime c) (hoveredHandle c) (resizingState c)
    (dragState c) (console c) (hostCalls c).

Definition setLastClickTime (t : Z) (c : Canvas) : Canvas :=
  mkCanvas (elements c) (updates c) (tool c) (currentStyle c)
    (selectedElementIds c) (panZoomState c) (wrapperRect c) (drawingElement c)
    (lastDragPoint c) (marquee c) t (hoveredHandle c) (resizingState c)
    (dragState c) (console c) (hostCalls c).

Definition setHoveredHandle (h : option Handle) (c : Canvas) : Canvas :=
  mkCanvas (elements c) (updates c) (tool c) (currentStyle c)
    (selectedElementIds c) (panZoomState c) (wrapperRect c) (drawingElement c)
    (lastDragPoint c) (marquee c) (lastClickTime c) h (resizingState c)
    (dragState c) (console c) (hostCalls c).

Definition setResizingState (r : option ResizingState) (c : Canvas) : Canvas :=
  mkCanvas (elements c) (updates c) (tool c) (currentStyle c)
    (selectedElementIds c) (panZoomState c) (wrapperRect c) (drawingElement c)
    (lastDragPoint c) (marquee c) (lastClickTime c) (hoveredHandle c) r
    (dragState c) (console c) (hostCalls c).

Definition setDragState (d : DragState) (c : Canvas) : Canvas :=
  mkCanvas (elements c) (updates c) (tool c) (currentStyle c)
    (selectedElementIds c) (panZoomState c) (wrapperRect c) (drawingElement c)
    (lastDragPoint c) (marquee c) (lastClickTime c) (hoveredHandle c)
    (resizingState c) d (console c) (hostCalls c).

Definition setConsole (l : list LogEntry) (c : Canvas) : Canvas :=
  mkCanvas (elements c) (updates c) (tool c) (currentStyle c)
    (selectedElementIds c) (panZoomState c) (wrapperRect c) (drawingElement c)
    (lastDragPoint c) (marquee c) (lastClickTime c) (hoveredHandle c)
    (resizingState c) (dragState c) l (hostCalls c).

(** A call of a callback prop.  The component only invokes it: what the
    callback does to the state of the host is the host's. *)
Definition callHost (call : HostCall) (c : Canvas) : Canvas :=
  mkCanvas (elements c) (updates c) (tool c) (currentStyle c)
    (selectedElementIds c) (panZoomState c) (wrapperRect c) (drawingElement c)
    (lastDragPoint c) (marquee c) (lastClickTime c) (hoveredHandle c)
    (resizingState c) (dragState c) (console c) (hostCalls c ++ [call]).

(** ** [Map<number, Element>]: a map that iterates in insertion order *)

Module JSMap.

Definition t : Type := list (Z * Element).

Definition has (k : Z) (m : t) : bool := existsb (fun e => (fst e =? k)%Z) m.

Definition get (k : Z) (m : t) : option Element :=
  option_map snd (List.find (fun e => (fst e =? k)%Z) m).

(** [m.set(k, v)]: an existing key keeps its position. *)
Definition set (k : Z) (v : Element) (m : t) : t :=
  if has k m then map (fun e => if (fst e =? k)%Z then (k, v) else e) m
  else m ++ [(k, v)].

(** [new Map(entries)] *)
Definition ofEntries (entries : list (Z * Element)) : t :=
  fold_left (fun m e => set (fst e) (snd e) m) entries [].

(** [Array.from(m.values())] *)
Definition values (m : t) : list Element := map snd m.

End JSMap.

(** ** The [Canvas] component: pointer handlers *)

Definition Tool_eqb (a b : Tool) : bool :=
  match a, b with
  | ToolSelect, ToolSelect | ToolPen, ToolPen | ToolLine, ToolLine
  | ToolRectangle, ToolRectangle | ToolCircle, ToolCircle | ToolPan, ToolPan
  | ToolEraser, ToolEraser | ToolText, ToolText => true
  | _, _ => false
  end.

Definition DragState_eqb (a b : DragState) : bool :=
  match a, b with
  | DragNone, DragNone | Drawing, Drawing
  | DraggingSelection, DraggingSelection | Resizing, Resizing
  | Marquee, Marquee => true
  | _, _ => false
  end.

(** The cast [tool as 'line'] of [handleMouseDown]: the tool name becomes
    the type tag.  The tools [select], [pan] and [text] never reach it. *)
Definition toolAsType (t : Tool) : ElementType :=
  match t with
  | ToolPen => Pen
  | ToolLine => Line
  | ToolRectangle => Rectangle
  | ToolCircle => Circle
  | ToolEraser => Eraser
  | ToolSelect | ToolPan | ToolText => Line
  end.

Definition translatePoint (dx dy : R) (p : Point) : Point :=
  mkPoint (px p + dx) (py p + dy).

Definition translateBounds (dx dy : R) (b : Bounds) : Bounds :=
  mkBounds (minX b + dx) (minY b + dy) (maxX b + dx) (maxY b + dy).

(** The per-point map of a resize: [origin + (p - origin) * scale]. *)
Definition scaleAbout (origin : Point) (scaleX scaleY : R) (p : Point) : Point :=
  mkPoint (px origin + (px p - px origin) * scaleX)
          (py origin + (py p - py origin) * scaleY).

(** [if (b.minX > b.maxX) swap; if (b.minY > b.maxY) swap] *)
Definition normalizeBounds (b : Bounds) : Bounds :=
  let b := if Num.gtb (minX b) (maxX b)
           then mkBounds (maxX b) (minY b) (minX b) (maxY b) else b in
  if Num.gtb (minY b) (maxY b)
  then mkBounds (minX b) (maxY b) (maxX b) (minY b) else b.

Section Controller.

Variable measureText : string -> R -> R.
Variable isPointInPath : string -> Point -> completion bool.
Variable isPointInStroke : string -> R -> Point -> completion bool.

(** [transformPathData] of the geometry engine, at real-valued factors.  The
    controller only stores the string it returns; module [PathData] embeds
    the function itself. *)
Variable transformPathData : string -> R -> R -> Point -> string.

Definition translatePathData (pathData : string) (dx dy : R) : string :=
  if truthy pathData then transformPathData pathData 1 1 (mkPoint dx dy)
  else EmptyString.

Definition getHandles (c : Canvas) (bounds : Bounds) : list (Handle * Bounds) :=
  let handleSize := 8 / scale (panZoomState c) in
  let halfHandle := handleSize / 2 in
  let midX := (minX bounds + maxX bounds) / 2 in
  let midY := (minY bounds + maxY bounds) / 2 in
  let box x y := mkBounds (x - halfHandle) (y - halfHandle)
                          (x + halfHandle) (y + halfHandle) in
  [ (Hnw, box (minX bounds) (minY bounds));
    (Hn, box midX (minY bounds));
    (Hne, box (maxX bounds) (minY bounds));
    (He, box (maxX bounds) midY);
    (Hse, box (maxX bounds) (maxY bounds));
    (Hs, box midX (maxY bounds));
    (Hsw, box (minX bounds) (maxY bounds));
    (Hw, box (minX bounds) midY) ].

Definition getPointInCanvas (c : Canvas) (clientX clientY : R) : Point :=
  match wrapperRect c with
  | None => mkPoint 0 0
  | Some (rectLeft, rectTop) =>
      mkPoint ((clientX - rectLeft - positionX (panZoomState c)) / scale (panZoomState c))
              ((clientY - rectTop - positionY (panZoomState c)) / scale (panZoomState c))
  end.

(** [elements.filter(el => selectedElementIds.has(el.id))] *)
Definition selectedElements (c : Canvas) : list Element :=
  List.filter (fun el => bool_decide (eid el ∈ selectedElementIds c)) (elements c).

Definition getHandleAtPoint (c : Canvas) (point : Point) : option Handle :=
  if bool_decide (selectedElementIds c = ∅) then None
  else
    let bounds := getElementsBounds measureText (selectedElements c) in
    let handles := getHandles c bounds in
    option_map fst
      (List.find (fun h => Num.geb (px point) (minX (snd h))
                           && Num.leb (px point) (maxX (snd h))
                           && Num.geb (py point) (minY (snd h))
                           && Num.leb (py point) (maxY (snd h))) handles).

Definition isTextElement (o : option Element) : bool :=
  match o with
  | Some el => ElementType_eqb (etype el) Text
  | None => false
  end.

Definition handleMouseDown (e : MouseEvent) (c : Canvas) : Canvas :=
  if Tool_eqb (tool c) ToolPan || negb (button e =? 0)%Z then c
  else
    let clickTime := clock e in
    let isDoubleClick := (clickTime - lastClickTime c <? 300)%Z in
    let c := setLastClickTime clickTime c in
    let startPoint := getPointInCanvas c (clientX e) (clientY e) in
    match getHandleAtPoint c startPoint with
    | Some handle =>
        let selected := selectedElements c in
        let bounds := getElementsBounds measureText selected in
        let c := setResizingState
                   (Some (mkResizing handle bounds
                            (fold_left (fun m el => <[eid el := el]> m) selected ∅)
                            (if Num.eqb (maxY bounds - minY bounds) 0 then None
                             else Some ((maxX bounds - minX bounds)
                                        / (maxY bounds - minY bounds))))) c in
        setDragState Resizing c
    | None =>
        let (clickedElement, console') :=
          getElementAtPoint measureText isPointInPath isPointInStroke
            (elements c) (scale (panZoomState c)) startPoint (console c) in
        let c := setConsole console' c in
        match clickedElement with
        | Some el =>
            if isDoubleClick && ElementType_eqb (etype el) Text
            then callHost (OnElementDoubleClick (eid el)) c
            else if Tool_eqb (tool c) ToolText
            then callHost (OnTextCreate startPoint) c
            else if Tool_eqb (tool c) ToolSelect then
              let c :=
                if bool_decide (eid el ∈ selectedElementIds c) then c
                else
                  let newSelection : gset Z :=
                    if shiftKey e then selectedElementIds c else ∅ in
                  setSelectedElementIds (newSelection ∪ {[eid el]}) c in
              setLastDragPoint (Some startPoint) (setDragState DraggingSelection c)
            else
              let c := setDragState Drawing c in
              let newElement :=
                mkElement (clock e) (currentStyle c) None (toolAsType (tool c))
                  [startPoint; startPoint] None None EmptyString None
                  EmptyString EmptyString EmptyString in
              let newElement :=
                if Tool_eqb (tool c) ToolLine then
                  withPoints (withStartElementId newElement (Some (eid el)))
                    (<[0%nat := getAttachmentPoint measureText el startPoint]>
                       (points newElement))
                else newElement in
              setDrawingElement (Some newElement) c
        | None =>
            if Tool_eqb (tool c) ToolText
            then callHost (OnTextCreate startPoint) c
            else if Tool_eqb (tool c) ToolSelect then
              let c := if shiftKey e then c else setSelectedElementIds ∅ c in
              setDragState Marquee (setMarquee (Some (startPoint, startPoint)) c)
            else
              let c := setDragState Drawing c in
              let newElement :=
                mkElement (clock e) (currentStyle c) None (toolAsType (tool c))
                  [startPoint; startPoint] None None EmptyString None
                  EmptyString EmptyString EmptyString in
              setDrawingElement (Some newElement) c
        end
    end.

(** The group bounds of a resize tick: the grabbed edges follow the cursor,
    min/max are swapped when inverted, and with the modifier held on a corner
    handle the other dimension is recomputed from the original aspect ratio.
    Quotients by zero are written out: [isFinite(w0 / h0)] fails when
    [h0 = 0], and [newWidth / newHeight] with [newHeight = 0] is [Infinity]
    (the test succeeds) for a positive width and [NaN] (the test fails) for a
    zero width. *)
Definition resizedBounds (handle : Handle) (initialSelectionBounds : Bounds)
  (currentPoint : Point) (shift : bool) : Bounds :=
  let nb := initialSelectionBounds in
  let nb := if includes handle East
            then mkBounds (minX nb) (minY nb) (px currentPoint) (maxY nb) else nb in
  let nb := if includes handle West
            then mkBounds (px currentPoint) (minY nb) (maxX nb) (maxY nb) else nb in
  let nb := if includes handle South
            then mkBounds (minX nb) (minY nb) (maxX nb) (py currentPoint) else nb in
  let nb := if includes handle North
            then mkBounds (minX nb) (py currentPoint) (maxX nb) (maxY nb) else nb in
  let nb := normalizeBounds nb in
  if shift && isCorner handle then
    let w0 := maxX initialSelectionBounds - minX initialSelectionBounds in
    let h0 := maxY initialSelectionBounds - minY initialSelectionBounds in
    let originalAspectRatio := w0 / h0 in
    if negb (Num.eqb h0 0) && Num.gtb originalAspectRatio 0 then
      let newWidth := maxX nb - minX nb in
      let newHeight := maxY nb - minY nb in
      if (if Num.eqb newHeight 0 then negb (Num.eqb newWidth 0)
          else Num.gtb (Rabs (newWidth / newHeight - originalAspectRatio)) (1 / 100))
      then
        if includes handle West || includes handle East then
          let aspectHeight := newWidth / originalAspectRatio in
          if includes handle North
          then mkBounds (minX nb) (maxY nb - aspectHeight) (maxX nb) (maxY nb)
          else mkBounds (minX nb) (minY nb) (maxX nb) (minY nb + aspectHeight)
        else
          let aspectWidth := newHeight * originalAspectRatio in
          if includes handle West
          then mkBounds (maxX nb - aspectWidth) (minY nb) (maxX nb) (maxY nb)
          else mkBounds (minX nb) (minY nb) (minX nb + aspectWidth) (maxY nb)
      else nb
    else nb
  else nb.

(** The callback of [prev.map(...)] in the resize branch. *)
Definition resizeElement (initialElements : gmap Z Element) (origin : Point)
  (scaleX scaleY : R) (el : Element) : Element :=
  match initialElements !! eid el with
  | None => el
  | Some initialEl =>
      if ElementType_eqb (etype initialEl) Raster then el
      else
        let newPoints := map (scaleAbout origin scaleX scaleY) (points initialEl) in
        let updatedEl := withPoints el newPoints in
        match bounds initialEl with
        | Some b =>
            if ElementType_eqb (etype initialEl) Path && truthy (pathData initialEl)
            then
              let translation := mkPoint (px origin * (1 - scaleX))
                                         (py origin * (1 - scaleY)) in
              let newPathData :=
                transformPathData (pathData initialEl) scaleX scaleY translation in
              let lo := scaleAbout origin scaleX scaleY (mkPoint (minX b) (minY b)) in
              let hi := scaleAbout origin scaleX scaleY (mkPoint (maxX b) (maxY b)) in
              let newBoundsForEl :=
                normalizeBounds (mkBounds (px lo) (py lo) (px hi) (py hi)) in
              withBounds (withPathData updatedEl newPathData) (Some newBoundsForEl)
            else updatedEl
        | None => updatedEl
        end
  end.

Definition resizeElements (rs : ResizingState) (currentPoint : Point)
  (shift : bool) (prev : list Element) : list Element :=
  let newBounds :=
    resizedBounds (handle rs) (initialSelectionBounds rs) currentPoint shift in
  let isb := initialSelectionBounds rs in
  let initialWidth := maxX isb - minX isb in
  let initialHeight := maxY isb - minY isb in
  let finalWidth := maxX newBounds - minX newBounds in
  let finalHeight := maxY newBounds - minY newBounds in
  let scaleX := if Num.eqb initialWidth 0 then 1 else finalWidth / initialWidth in
  let scaleY := if Num.eqb initialHeight 0 then 1 else finalHeight / initialHeight in
  let origin :=
    mkPoint (if includes (handle rs) West then maxX isb else minX isb)
            (if includes (handle rs) North then maxY isb else minY isb) in
  map (resizeElement (initialElements rs) origin scaleX scaleY) prev.

(** The [switch (el.type)] of the drag branch.  [el.bounds] is read without
    a guard there; for an element without bounds (outside [types.ts]) the
    embedding leaves them absent. *)
Definition translateElement (dx dy : R) (el : Element) : Element :=
  match etype el with
  | Path =>
      withBounds
        (withPathData (withPoints el (map (translatePoint dx dy) (points el)))
                      (translatePathData (pathData el) dx dy))
        (option_map (translateBounds dx dy) (bounds el))
  | Raster => withBounds el (option_map (translateBounds dx dy) (bounds el))
  | _ => withPoints el (map (translatePoint dx dy) (points el))
  end.

(** The updater of the drag branch.  The ids of the selection are visited
    in the order [base.elements] lists them; each visit reads and writes its
    own key only. *)
Definition dragElements (dx dy : R) (selected : gset Z)
  (prevElements : list Element) : list Element :=
  let updatedElements :=
    JSMap.ofEntries (map (fun el => (eid el, el)) prevElements) in
  let updatedElements :=
    fold_left (fun m id =>
                 match JSMap.get id m with
                 | Some el => JSMap.set id (translateElement dx dy el) m
                 | None => m
                 end) (base.elements selected) updatedElements in
  JSMap.values updatedElements.

Definition handleMouseMove (e : MouseEvent) (c : Canvas) : Canvas :=
  let currentPoint := getPointInCanvas c (clientX e) (clientY e) in
  if Tool_eqb (tool c) ToolPan && DragState_eqb (dragState c) DragNone then c
  else
    match dragState c, resizingState c, lastDragPoint c, marquee c,
          drawingElement c with
    | Resizing, Some rs, _, _, _ =>
        setElements (resizeElements rs currentPoint (shiftKey e)) true c
    | DraggingSelection, _, Some last, _, _ =>
        if bool_decide (selectedElementIds c = ∅)
        then setHoveredHandle (getHandleAtPoint c currentPoint) c
        else
          let dx := px currentPoint - px last in
          let dy := py currentPoint - py last in
          setLastDragPoint (Some currentPoint)
            (setElements (dragElements dx dy (selectedElementIds c)) true c)
    | Marquee, _, _, Some (start, _), _ =>
        setMarquee (Some (start, currentPoint)) c
    | Drawing, _, _, _, Some prevElement =>
        let newPoints := points prevElement in
        let newPoints :=
          if ElementType_eqb (etype prevElement) Pen
          then newPoints ++ [currentPoint]
          else if (0 <? length newPoints)%nat
          then <[(length newPoints - 1)%nat := currentPoint]> newPoints
          else newPoints in
        setDrawingElement (Some (withPoints prevElement newPoints)) c
    | _, _, _, _, _ => setHoveredHandle (getHandleAtPoint c currentPoint) c
    end.

(** [drawingElement.points.filter((_, i) => i % 4 === 0 || i === n - 1)] *)
Definition simplifyStroke {A : Type} (pts : list A) : list A :=
  map snd
    (List.filter (fun ip => (fst ip mod 4 =? 0)%nat
                            || (fst ip =? length pts - 1)%nat)
                 (combine (seq 0 (length pts)) pts)).

(** The element committed when a drawing gesture ends. *)
Definition finishedElement (drawingElement : Element) : Element :=
  if ElementType_eqb (etype drawingElement) Pen
     && (20 <? length (points drawingElement))%nat
  then withPoints drawingElement (simplifyStroke (points drawingElement))
  else drawingElement.

(** [elCenter.x > minX && elCenter.x < maxX && elCenter.y > minY && ...] *)
Definition centerInside (bounds : Bounds) (el : Element) : bool :=
  let elCenter := getElementCenter measureText el in
  Num.gtb (px elCenter) (minX bounds) && Num.ltb (px elCenter) (maxX bounds)
  && Num.gtb (py elCenter) (minY bounds) && Num.ltb (py elCenter) (maxY bounds).

Definition marqueeBounds (m : Point * Point) : Bounds :=
  mkBounds (Rmin (px (fst m)) (px (snd m))) (Rmin (py (fst m)) (py (snd m)))
           (Rmax (px (fst m)) (px (snd m))) (Rmax (py (fst m)) (py (snd m))).

Definition idsInMarquee (m : Point * Point) (elements : list Element) : list Z :=
  map eid (List.filter (centerInside (marqueeBounds m)) elements).

(** The updater passed to [setSelectedElementIds] when a marquee ends. *)
Definition marqueeSelection (shift : bool) (ids : list Z) (prev : gset Z) : gset Z :=
  let newSelection : gset Z := if shift then prev else ∅ in
  fold_left (fun sel id => sel ∪ {[id]}) ids newSelection.

Definition handleMouseUp (e : MouseEvent) (c : Canvas) : Canvas :=
  match dragState c with
  | DragNone => c
  | ds =>
      let c :=
        match ds, marquee c, drawingElement c with
        | Resizing, _, _ =>
            setElements (fun currentElements => currentElements) false
              (setResizingState None c)
        | DraggingSelection, _, _ =>
            setElements (fun currentElements => currentElements) false
              (setLastDragPoint None c)
        | Marquee, Some m, _ =>
            let ids := idsInMarquee m (elements c) in
            setMarquee None
              (setSelectedElementIds
                 (marqueeSelection (shiftKey e) ids (selectedElementIds c)) c)
        | Drawing, _, Some drawingElement =>
            setDrawingElement None
              (setElements
                 (fun prevElements => prevElements ++ [finishedElement drawingElement])
                 false c)
        | _, _, _ => c
        end in
      setDragState DragNone c
  end.

End Controller.

(** ** Renderer: the image cache ([utils/render.ts]) *)

Module Render.

Inductive Status := Loading | Loaded | Error.

(** The identity of a function passed as [onLoadCallback]. *)
Definition Callback : Type := nat.

(** A cache entry.  [image] is the [HTMLImageElement], identified by its
    [src]; [onLoadCallback] is the callback captured by the closure that
    [getImageFromCache] installs as [image.onload]. *)
Record CacheEntry := mkEntry {
  image : string;
  status : Status;
  onLoadCallback : option Callback
}.

(** The module state: the cache, the callback invocations made so far (with
    the key whose image they report), and the console. *)
Record Renderer := mkRenderer {
  imageCache : gmap string CacheEntry;
  invoked : list (string * Callback);
  console : list LogEntry
}.

Definition initial : Renderer := mkRenderer ∅ [] [].

Definition getImageFromCache (src : string) (onLoadCallback : option Callback)
  (r : Renderer) : option string * Renderer :=
  match imageCache r !! src with
  | None =>
      let newEntry := mkEntry src Loading onLoadCallback in
      (None, mkRenderer (<[src := newEntry]> (imageCache r)) (invoked r) (console r))
  | Some entry =>
      match status entry with
      | Loaded => (Some (image entry), r)
      | Loading | Error => (None, r)
      end
  end.

(** The handler installed as [image.onload] for the image of key [src]:
    [newEntry.status = 'loaded'; onLoadCallback?.()]. *)
Definition onload (src : string) (r : Renderer) : Renderer :=
  match imageCache r !! src with
  | Some entry =>
      mkRenderer
        (<[src := mkEntry (image entry) Loaded (onLoadCallback entry)]> (imageCache r))
        (invoked r ++ match onLoadCallback entry with
                      | Some callback => [(src, callback)]
                      | None => []
                      end)
        (console r)
  | None => r
  end.

(** The handler installed as [image.onerror]:
    [newEntry.status = 'error'; console.error(...)]. *)
Definition onerror (src : string) (r : Renderer) : Renderer :=
  match imageCache r !! src with
  | Some entry =>
      mkRenderer
        (<[src := mkEntry (image entry) Error (onLoadCallback entry)]> (imageCache r))
        (invoked r)
        (console r ++ [ImageLoadFailed src])
  | None => r
  end.

(** What happens to the renderer: a draw call asks for an image, or the
    browser reports the end of a load by firing one of the two handlers. *)
Inductive Event :=
| Request (src : string) (onLoadCallback : option Callback)
| LoadSucceeded (src : string)
| LoadFailed (src : string).

Definition step (ev : Event) (r : Renderer) : Renderer :=
  match ev with
  | Request src callback => snd (getImageFromCache src callback r)
  | LoadSucceeded src => onload src r
  | LoadFailed src => onerror src r
  end.

Definition run (trace : list Event) (r : Renderer) : Renderer :=
  fold_left (fun r ev => step ev r) trace r.

(** The browser fires [onload] or [onerror] for an image whose load is in
    progress, and only once: afterwards the entry is no longer loading. *)
Definition enabled (r : Renderer) (ev : Event) : Prop :=
  match ev with
  | Request _ _ => True
  | LoadSucceeded src | LoadFailed src =>
      status <$> (imageCache r !! src) = Some Loading
  end.

Fixpoint admissible (r : Renderer) (trace : list Event) : Prop :=
  match trace with
  | [] => True
  | ev :: rest => enabled r ev /\ admissible (step ev r) rest
  end.

(** How many times a callback was invoked for the key [src]. *)
Definition callbackCount (src : string) (r : Renderer) : nat :=
  length (List.filter (fun call => String.eqb (fst call) src) (invoked r)).

(** The number of invocations owed for an entry: one once it is loaded, if
    a callback was supplied with the first request. *)
Definition owed (entry : option CacheEntry) : nat :=
  match entry with
  | Some (mkEntry _ Loaded (Some _)) => 1
  | _ => 0
  end.

(** The invariant of the cache: every key has been called back as often as
    its entry owes. *)
Definition settled (r : Renderer) : Prop :=
  forall src, callbackCount src r = owed (imageCache r !! src).

(** A failing load: the image is requested with callback [0] and the
    browser reports an error. *)
Definition failingTrace : list Event :=
  [Request "a.png" (Some 0%nat); LoadFailed "a.png"].

Definition loadingTrace : list Event :=
  [Request "a.png" (Some 0%nat); LoadSucceeded "a.png"].

End Render.

(** ** Sample data used by the examples below *)

Definition plainStyle : ElementStyle := mkStyle "#000000" "transparent" 2 None.

(** The text-measurement facility of the examples: every text is empty-wide. *)
Definition noMeasure : string -> R -> R := fun _ _ => 0.

Definition shape (i : Z) (t : ElementType) (ps : list Point) : Element :=
  mkElement i plainStyle None t ps None None EmptyString None
    EmptyString EmptyString EmptyString.



(** The indices that the stroke simplification keeps, for a stroke of [n]
    samples: the multiples of four and the last index. *)
Definition keptIndices (n : nat) : list nat :=
  List.filter (fun i => (i mod 4 =? 0)%nat || (i =? n - 1)%nat) (seq 0 n).

(** A pen stroke of 21 samples, in the middle of a drawing gesture. *)
Definition stroke21 : list Point :=
  map (fun i => mkPoint (INR i) 0) (seq 0 21).

Definition emptyCanvas : Canvas :=
  mkCanvas [] [] ToolSelect plainStyle ∅ (mkPanZoom 1 0 0) (Some (0, 0))
    None None None 0 None None DragNone [] [].

Definition penCanvas : Canvas :=
  mkCanvas [] [] ToolPen plainStyle ∅ (mkPanZoom 1 0 0) (Some (0, 0))
    (Some (shape 7 Pen stroke21)) None None 0 None None Drawing [] [].

Definition mouseAt (x y : R) (shift : bool) : MouseEvent := mkMouse x y 0 shift 1000.

(** [p] lies strictly inside the marquee dragged from [fst m] to [snd m],
    whichever way it was dragged. *)
Definition strictlyInside (m : Point * Point) (p : Point) : Prop :=
  Rmin (px (fst m)) (px (snd m)) < px p < Rmax (px (fst m)) (px (snd m))
  /\ Rmin (py (fst m)) (py (snd m)) < py p < Rmax (py (fst m)) (py (snd m)).

(** The marquee example: a rectangle with corners [(10,10)]-[(20,20)], one
    with corners [(200,200)]-[(210,210)], and a marquee from [(0,0)] to
    [(100,100)]. *)
Definition nearRect : Element := shape 1 Rectangle [mkPoint 10 10; mkPoint 20 20].
Definition farRect : Element := shape 2 Rectangle [mkPoint 200 200; mkPoint 210 210].

Definition marqueeCanvas : Canvas :=
  mkCanvas [nearRect; farRect] [] ToolSelect plainStyle ∅ (mkPanZoom 1 0 0)
    (Some (0, 0)) None None (Some (mkPoint 0 0, mkPoint 100 100)) 0 None None
    Marquee [] [].

(** A canvas path facility that contains nothing and never throws. *)
Definition neverInPath : string -> Point -> completion bool :=
  fun _ _ => Normal false.
Definition neverInStroke : string -> R -> Point -> completion bool :=
  fun _ _ _ => Normal false.

(** A canvas path facility that rejects the path data ["garbage"], and an
    asset carrying that path data, drawn over the square below. *)
Definition pickyInPath : string -> Point -> completion bool :=
  fun d _ => if String.eqb d "garbage" then Throw "SyntaxError" else Normal false.

Definition brokenAsset : Element :=
  mkElement 9 plainStyle None Path [] None None "garbage"
    (Some (mkBounds 0 0 100 100)) EmptyString EmptyString EmptyString.

(** A square from [(0,0)] to [(100,100)], selected, under the select tool at
    zoom 1. *)
Definition square : Element := shape 1 Rectangle [mkPoint 0 0; mkPoint 100 100].

Definition selectedSquareCanvas : Canvas :=
  mkCanvas [square] [] ToolSelect plainStyle {[ 1%Z ]} (mkPanZoom 1 0 0)
    (Some (0, 0)) None None None 0 None None DragNone [] [].

(** A bitmap and an asset path occupying the same box [(0,0)]-[(10,10)],
    and a resize gesture on the pair from the south-east handle. *)
Definition bitmap : Element :=
  mkElement 5 plainStyle None Raster [] None None EmptyString
    (Some (mkBounds 0 0 10 10)) EmptyString "data:image/png;base64,AAAA" "#000000".

Definition asset : Element :=
  mkElement 6 plainStyle None Path [] None None "M 0 0 L 10 10"
    (Some (mkBounds 0 0 10 10)) EmptyString EmptyString EmptyString.

(** A path transform that returns its input: the examples do not look at
    path data. *)
Definition keepPathData : string -> R -> R -> Point -> string :=
  fun d _ _ _ => d.

Definition pairResizing : ResizingState :=
  mkResizing Hse (mkBounds 0 0 10 10)
    (<[5%Z := bitmap]> (<[6%Z := asset]> ∅)) (Some 1).

Definition resizingCanvas : Canvas :=
  mkCanvas [bitmap; asset] [] ToolSelect plainStyle {[ 5%Z; 6%Z ]}
    (mkPanZoom 1 0 0) (Some (0, 0)) None None None 0 None (Some pairResizing)
    Resizing [] [].

(** [new] differs from [old] at most in its geometric fields ([points],
    [pathData], [bounds]): the identity, the style record, the type tag and
    every other field are those of [old]. *)
Definition sameFrame (old new : Element) : Prop :=
  eid new = eid old
  /\ style new = style old
  /\ etype new = etype old
  /\ isMap new = isMap old
  /\ startElementId new = startElementId old
  /\ endElementId new = endElementId old
  /\ text new = text old
  /\ imageUrl new = imageUrl old
  /\ sourceStrokeColor new = sourceStrokeColor old.

(** One visit of the loop of [dragElements]. *)
Definition dragVisit (transformPathData : string -> R -> R -> Point -> string)
  (dx dy : R) (m : JSMap.t) (id : Z) : JSMap.t :=
  match JSMap.get id m with
  | Some el => JSMap.set id (translateElement transformPathData dx dy el) m
  | None => m
  end.

(** Entry [kv] of the working map of a drag sits where [old] sat in the
    collection. *)
Definition tracks (old : Element) (kv : Z * Element) : Prop :=
  fst kv = eid old /\ sameFrame old (snd kv).

(** A drag gesture on the near rectangle, last seen at [(0,0)]. *)
Definition draggingCanvas : Canvas :=
  mkCanvas [nearRect; farRect] [] ToolSelect plainStyle {[ 1%Z ]}
    (mkPanZoom 1 0 0) (Some (0, 0)) None (Some (mkPoint 0 0)) None 0 None None
    DraggingSelection [] [].

(** ** Path data ([transformPathData] of [utils/geometry.ts])

    Path data is text, so this part of the geometry engine is embedded on
    strings.  Its numbers are what [Number] reads off a match of
    [/-?\d*\.?\d+/]: finite decimal fractions.  They are represented as
    [mant / 10 ^ frac] and multiplied and added as decimals, without the
    rounding of the binary64 numbers of the source: a product or a sum here
    is the number the source computes wherever that operation is exact in
    binary64, and the properties below do not rest on the value of any
    other.  Number-to-string conversion follows ECMAScript
    [Number::toString], including its switch to exponent notation below
    [1e-6] and from [1e21] on. *)

Module PathData.

Local Open Scope Z_scope.

(** *** Numbers *)

(** A number [mant / 10 ^ frac].  The values the engine computes with are
    kept canonical ([frac] least), so that equal numbers are equal terms. *)
Record dec := mkDec { mant : Z; frac : nat }.

(** A JavaScript value that ends up in [newArgs]: a number, [NaN], or the
    [undefined] read past the end of [args]. *)
Inductive jsval :=
| Num (d : dec)
| NaN
| Undefined.

(** Drop the zeros at the end of the fraction: [m / 10^f] with the least
    [f]. *)
Fixpoint trimFraction (m : Z) (f : nat) : Z * nat :=
  match f with
  | O => (m, O)
  | S f' => if m mod 10 =? 0 then trimFraction (m / 10) f' else (m, f)
  end.

Definition canon (d : dec) : dec :=
  let (m, f) := trimFraction (mant d) (frac d) in mkDec m f.

Definition ofZ (z : Z) : dec := mkDec z 0.

Definition mul (a b : dec) : dec :=
  canon (mkDec (mant a * mant b) (frac a + frac b)).

Definition add (a b : dec) : dec :=
  canon (mkDec (mant a * 10 ^ Z.of_nat (frac b) + mant b * 10 ^ Z.of_nat (frac a))
               (frac a + frac b)).

(** [Math.abs] *)
Definition abs (a : dec) : dec := canon (mkDec (Z.abs (mant a)) (frac a)).

(** [v * k] and [v + k] for a value read from [args]: [undefined] and [NaN]
    both give [NaN]. *)
Definition times (v : jsval) (k : dec) : jsval :=
  match v with
  | Num d => Num (mul d k)
  | NaN | Undefined => NaN
  end.

Definition plus (v : jsval) (k : dec) : jsval :=
  match v with
  | Num d => Num (add d k)
  | NaN | Undefined => NaN
  end.

(** *** Characters *)

Definition isUpper (c : ascii) : bool :=
  (65 <=? nat_of_ascii c)%nat && (nat_of_ascii c <=? 90)%nat.

Definition isLower (c : ascii) : bool :=
  (97 <=? nat_of_ascii c)%nat && (nat_of_ascii c <=? 122)%nat.

(** [[A-Za-z]] *)
Definition isLetter (c : ascii) : bool := isUpper c || isLower c.

(** [\d] *)
Definition isDigit (c : ascii) : bool :=
  (48 <=? nat_of_ascii c)%nat && (nat_of_ascii c <=? 57)%nat.

(** [c.toUpperCase()] and [c.toLowerCase()] on a command letter. *)
Definition toUpperCase (c : ascii) : ascii :=
  if isLower c then ascii_of_nat (nat_of_ascii c - 32) else c.

Definition toLowerCase (c : ascii) : ascii :=
  if isUpper c then ascii_of_nat (nat_of_ascii c + 32) else c.

(** The white space that [trim] removes, among the characters below 128. *)
Definition isWhiteSpace (c : ascii) : bool :=
  (nat_of_ascii c =? 32)%nat
  || ((9 <=? nat_of_ascii c)%nat && (nat_of_ascii c <=? 13)%nat).

Definition digitChar (d : Z) : ascii := ascii_of_nat (48 + Z.to_nat d).

Definition digitValue (c : ascii) : Z := Z.of_nat (nat_of_ascii c - 48).

(** *** Reading: the two regular expressions *)

(** [pathData.replace(re, callback)], where the global pattern [re] is one
    letter [[A-Za-z]] followed by as many non-letters as follow, visits from
    left to right every letter together with the letter-free text after it;
    the text before the first letter is not matched and stays.  [segments]
    returns that text and the matches. *)
Fixpoint segments (s : list ascii) : list ascii * list (ascii * list ascii) :=
  match s with
  | [] => ([], [])
  | c :: rest =>
      let (text, matches) := segments rest in
      if isLetter c then ([], (c, text) :: matches) else (c :: text, matches)
  end.

(** The longest run of digits at the head of a text, and what follows. *)
Fixpoint spanDigits (s : list ascii) : list ascii * list ascii :=
  match s with
  | c :: rest =>
      if isDigit c then let (ds, tl) := spanDigits rest in (c :: ds, tl)
      else ([], s)
  | [] => ([], [])
  end.

(** A match of [/-?\d*\.?\d+/]: sign, digits before the point, digits after
    the point (empty when the match has no point). *)
Record numberToken := mkToken {
  negative : bool;
  intDigits : list ascii;
  fracDigits : list ascii
}.

(** [s] without its first character, if that character is [x]. *)
Definition stripChar (x : ascii) (s : list ascii) : option (list ascii) :=
  match s with
  | c :: rest => if Ascii.eqb c x then Some rest else None
  | [] => None
  end.

(** The match of [/-?\d*\.?\d+/] that starts at the head of [s], if any,
    and the text after it.  The quantifiers are greedy: all the digits, then
    a point only if a digit follows it, then all the digits. *)
Definition matchNumber (s : list ascii) : option (numberToken * list ascii) :=
  let (neg, s1) := match stripChar "-"%char s with
                   | Some r => (true, r)
                   | None => (false, s)
                   end in
  let (d1, s2) := spanDigits s1 in
  let (d2, s3) := match stripChar "."%char s2 with
                  | Some r => spanDigits r
                  | None => ([], s2)
                  end in
  match d2, d1 with
  | _ :: _, _ => Some (mkToken neg d1 d2, s3)
  | [], _ :: _ => Some (mkToken neg d1 [], s2)
  | [], [] => None
  end.

(** [text.match(/-?\d*\.?\d+/g)]: the matches from left to right, each
    search resuming after the previous match.  A match is never empty, so
    [length s] rounds suffice. *)
Fixpoint scanNumbers (fuel : nat) (s : list ascii) : list numberToken :=
  match fuel, s with
  | S fuel', _ :: rest =>
      match matchNumber s with
      | Some (token, after) => token :: scanNumbers fuel' after
      | None => scanNumbers fuel' rest
      end
  | _, _ => []
  end.

Definition matchNumbers (s : list ascii) : list numberToken :=
  scanNumbers (length s) s.

Fixpoint trimStart (s : list ascii) : list ascii :=
  match s with
  | c :: rest => if isWhiteSpace c then trimStart rest else s
  | [] => []
  end.

Definition trim (s : list ascii) : list ascii :=
  rev (trimStart (rev (trimStart s))).

(** The number that a run of digits denotes. *)
Definition digitsValue (ds : list ascii) : Z :=
  fold_left (fun acc c => 10 * acc + digitValue c) ds 0.

(** [Number(text)] on a match of the number pattern. *)
Definition Number (t : numberToken) : dec :=
  let m := digitsValue (intDigits t ++ fracDigits t) in
  canon (mkDec (if negative t then - m else m) (length (fracDigits t))).

(** [argsStr.trim().match(/-?\d*\.?\d+/g)?.map(Number) || []] *)
Definition parseArgs (argsStr : list ascii) : list dec :=
  map Number (matchNumbers (trim argsStr)).

(** *** Writing: [Number::toString] *)

(** Decimal digits of a natural number, most significant first. *)
Fixpoint digitsFuel (fuel : nat) (n : Z) (acc : list ascii) : list ascii :=
  match fuel with
  | O => acc
  | S fuel' =>
      let acc' := digitChar (n mod 10) :: acc in
      if n <? 10 then acc' else digitsFuel fuel' (n / 10) acc'
  end.

Definition digits (n : Z) : list ascii :=
  digitsFuel (S (Z.to_nat (Z.log2 n))) n [].

Fixpoint dropZeros (s : list ascii) : list ascii :=
  match s with
  | "0"%char :: rest => dropZeros rest
  | _ => s
  end.

Definition stripTrailingZeros (s : list ascii) : list ascii :=
  rev (dropZeros (rev s)).

(** Exponent notation for the significant digits [s] of a number whose
    decimal point sits [n] digits after the first one of [s]:
    [d.ddde+x]. *)
Definition exponential (s : list ascii) (n : Z) : list ascii :=
  let e := n - 1 in
  match s with
  | [] => []
  | d :: [] => [d]
  | d :: more => d :: "."%char :: more
  end ++ "e"%char :: (if e <? 0 then "-"%char else "+"%char) :: digits (Z.abs e).

(** [Number::toString] for a finite number.  With [k] significant digits
    and the point after [n] of them: plain digits when [k <= n <= 21], a
    point inside when [0 < n <= 21], leading ["0."] and zeros when
    [-6 < n <= 0], exponent notation otherwise. *)
Definition toString (d : dec) : list ascii :=
  let (m, f) := trimFraction (mant d) (frac d) in
  if m =? 0 then ["0"%char]
  else
    let sign := if m <? 0 then ["-"%char] else [] in
    let ds := digits (Z.abs m) in
    let n := Z.of_nat (length ds) - Z.of_nat f in
    sign ++
    match f with
    | O =>
        if n <=? 21 then ds else exponential (stripTrailingZeros ds) n
    | S _ =>
        if (0 <? n) && (n <=? 21)
        then firstn (Z.to_nat n) ds ++ "."%char :: skipn (Z.to_nat n) ds
        else if (-6 <? n) && (n <=? 0)
        then "0"%char :: "."%char :: repeat "0"%char (Z.to_nat (- n)) ++ ds
        else exponential ds n
    end.

(** How [Array.prototype.join] writes an element. *)
Definition showValue (v : jsval) : list ascii :=
  match v with
  | Num d => toString d
  | NaN => ["N"%char; "a"%char; "N"%char]
  | Undefined => []
  end.

(** [items.join(' ')] *)
Fixpoint join (items : list (list ascii)) : list ascii :=
  match items with
  | [] => []
  | [item] => item
  | item :: more => item ++ " "%char :: join more
  end.

(** *** The transform *)

Section Transform.

Variables scaleX scaleY : dec.
Variable translate : dec * dec.

(** [args[i]] *)
Definition arg (args : list dec) (i : nat) : jsval :=
  match nth_error args i with
  | Some d => Num d
  | None => Undefined
  end.

(** [v * scale + (isRelative ? 0 : t)] *)
Definition affine (isRelative : bool) (scale t : dec) (v : jsval) : jsval :=
  plus (times v scale) (if isRelative then ofZ 0 else t).

(** The loop of the default case: [for (i = 0; i < args.length; i += 2)]. *)
Fixpoint pairLoop (isRelative : bool) (args : list dec) : list jsval :=
  match args with
  | [] => []
  | x :: [] =>
      [affine isRelative scaleX (fst translate) (Num x);
       affine isRelative scaleY (snd translate) Undefined]
  | x :: y :: rest =>
      affine isRelative scaleX (fst translate) (Num x)
      :: affine isRelative scaleY (snd translate) (Num y)
      :: pairLoop isRelative rest
  end.

(** The loop of the arc case: [for (i = 0; i < args.length; i += 7)]. *)
Fixpoint arcLoop (fuel : nat) (isRelative : bool) (args : list dec) : list jsval :=
  match fuel, args with
  | S fuel', _ :: _ =>
      [times (arg args 0) (abs scaleX);
       times (arg args 1) (abs scaleY);
       arg args 2;
       arg args 3;
       arg args 4;
       affine isRelative scaleX (fst translate) (arg args 5);
       affine isRelative scaleY (snd translate) (arg args 6)]
      ++ arcLoop fuel' isRelative (skipn 7 args)
  | _, _ => []
  end.

(** The values that the callback computes for one match, before they are
    written: [None] when it returns early (the bare command letter, or ['Z']
    for a closepath). *)
Definition newArgsOf (command : ascii) (args : list dec) : option (list jsval) :=
  let isRelative := Ascii.eqb (toLowerCase command) command in
  if (length args =? 0)%nat && negb (Ascii.eqb (toUpperCase command) "Z"%char)
  then None
  else if Ascii.eqb (toUpperCase command) "Z"%char then None
  else if Ascii.eqb (toUpperCase command) "H"%char
  then Some (map (fun x => affine isRelative scaleX (fst translate) (Num x)) args)
  else if Ascii.eqb (toUpperCase command) "V"%char
  then Some (map (fun y => affine isRelative scaleY (snd translate) (Num y)) args)
  else if Ascii.eqb (toUpperCase command) "A"%char
  then Some (arcLoop (length args) isRelative args)
  else Some (pairLoop isRelative args).

(** The replacement callback. *)
Definition replacement (m : ascii * list ascii) : list ascii :=
  let (command, argsStr) := m in
  let args := parseArgs argsStr in
  match newArgsOf command args with
  | Some newArgs => command :: " "%char :: join (map showValue newArgs)
  | None =>
      if Ascii.eqb (toUpperCase command) "Z"%char then ["Z"%char] else [command]
  end.

Definition transformChars (pathData : list ascii) : list ascii :=
  let (text, matches) := segments pathData in
  text ++ concat (map replacement matches).

Definition transformPathData (pathData : string) : string :=
  match pathData with
  | EmptyString => EmptyString
  | _ => string_of_list_ascii (transformChars (list_ascii_of_string pathData))
  end.

End Transform.

(** [translatePathData] *)
Definition translatePathData (pathData : string) (dx dy : dec) : string :=
  match pathData with
  | EmptyString => EmptyString
  | _ => transformPathData (ofZ 1) (ofZ 1) (dx, dy) pathData
  end.

(** *** Vocabulary of the properties *)

Definition isClosepath (command : ascii) : bool :=
  Ascii.eqb (toUpperCase command) "Z"%char.

(** The entry of [pathArgs] for a match of the command pattern. *)
Definition entry (m : ascii * list ascii) : ascii * list dec :=
  if isClosepath (fst m) then ("Z"%char, []) else (fst m, parseArgs (snd m)).

(** The commands of a path and the numbers each one carries, as the engine
    reads them.  A closepath carries none. *)
Definition pathArgs (pathData : string) : list (ascii * list dec) :=
  map entry (snd (segments (list_ascii_of_string pathData))).

(** [x * scale + (isRelative ? 0 : t)] on a number. *)
Definition aff (isRelative : bool) (scale t : dec) (x : dec) : dec :=
  add (mul x scale) (if isRelative then ofZ 0 else t).

(** The factor [0.5]. *)
Definition half : dec := mkDec 5 1.

(** Text without a letter: what the command pattern passes over. *)
Definition letterFree (s : list ascii) : Prop :=
  Forall (fun c => isLetter c = false) s.


(** Sample paths: a well-formed one, and a tiny relative move. *)
Definition samplePath : string := "M 10 20 L 30.5 -40 h 5 a 1 1.25 0 0 1 2 2 z".

Definition tinyMove : string := "m 0.0000001 0".

(** A line-to with a single coordinate. *)
Definition loneCoordinate : string := "M 1 2 L 5".

(** The point [(100, 3)], its first coordinate written with an exponent. *)
Definition hundredAndThree : string := "M 1e2 3".

End PathData.

(** * The rest of the engine

    The functions of [utils/render.ts] and the [Canvas] component that the
    definitions above leave out, together with the state hook and the [App]
    handlers they are wired to, and the vocabulary in which their
    properties are stated. *)

(** ** Vocabulary: boxes *)

(** [outer] contains [inner]. *)
Definition encloses (outer inner : Bounds) : Prop :=
  minX outer <= minX inner /\ minY outer <= minY inner
  /\ maxX inner <= maxX outer /\ maxY inner <= maxY outer.

(** [p] lies in the closed box [b]. *)
Definition insideBox (b : Bounds) (p : Point) : Prop :=
  minX b <= px p <= maxX b /\ minY b <= py p <= maxY b.

(** A stroke through three points. *)
Definition zigzag : Element :=
  shape 4 Pen [mkPoint 3 1; mkPoint 0 5; mkPoint 7 2].

(** ** Vocabulary: resize handles *)




(** The square of the examples above on a canvas with nothing selected. *)
Definition idleSquareCanvas : Canvas :=
  mkCanvas [square] [] ToolSelect plainStyle ∅ (mkPanZoom 1 0 0)
    (Some (0, 0)) None None None 0 None None DragNone [] [].

(** The same square with the line tool active, and an empty canvas with
    the rectangle tool active. *)
Definition lineToolCanvas : Canvas :=
  mkCanvas [square] [] ToolLine plainStyle ∅ (mkPanZoom 1 0 0)
    (Some (0, 0)) None None None 0 None None DragNone [] [].

Definition rectangleToolCanvas : Canvas :=
  mkCanvas [] [] ToolRectangle plainStyle ∅ (mkPanZoom 1 0 0)
    (Some (0, 0)) None None None 0 None None DragNone [] [].

(** ** Vocabulary: gestures *)

(** A run of pointer events through one handler, oldest first. *)
Definition replay (handler : MouseEvent -> Canvas -> Canvas)
  (events : list MouseEvent) (c : Canvas) : Canvas :=
  fold_left (fun c e => handler e c) events c.

(** The canvas point under the pointer of an event. *)
Definition cursorOf (c : Canvas) (e : MouseEvent) : Point :=
  getPointInCanvas c (clientX e) (clientY e).


(** The factor by which a resize scales one axis: [lo] and [hi] are the
    edges of the selection box when the gesture began, [grabLo] and [grabHi]
    tell which of them the handle moves, [cursor] is where the pointer is. *)
Definition resizeFactor (grabLo grabHi : bool) (lo hi cursor : R) : R :=
  if Num.eqb (hi - lo) 0 then 1
  else Rabs ((if grabHi then cursor else hi) - (if grabLo then cursor else lo))
       / (hi - lo).

(** The corner of the selection box that stays put under a handle. *)
Definition resizeAnchor (h : Handle) (b : Bounds) : Point :=
  mkPoint (if includes h West then maxX b else minX b)
          (if includes h North then maxY b else minY b).

(** Whether a pointer-up in state [c] ends a gesture that edited the
    collection: a resize, a drag, or a drawing with an element under
    construction. *)
Definition commitsOnRelease (c : Canvas) : bool :=
  match dragState c, drawingElement c with
  | Resizing, _ | DraggingSelection, _ | Drawing, Some _ => true
  | _, _ => false
  end.

(** ** The host: the [App] handlers behind the callbacks of the canvas *)

Module App.

(** The state of [App] that a pointer-down can reach: the props it hands to
    the canvas, which the record of the component holds, and the id of the
    text being edited. *)
Record State := mkApp {
  canvas : Canvas;
  editingElementId : option Z
}.

(** [setTool(tool)] *)
Definition setTool (t : Tool) (c : Canvas) : Canvas :=
  mkCanvas (elements c) (updates c) t (currentStyle c)
    (selectedElementIds c) (panZoomState c) (wrapperRect c) (drawingElement c)
    (lastDragPoint c) (marquee c) (lastClickTime c) (hoveredHandle c)
    (resizingState c) (dragState c) (console c) (hostCalls c).

(** [updateElements(updater, overwrite = false)], which is what the canvas
    receives as [setElements]. *)
Definition updateElements (updater : list Element -> list Element)
  (overwrite : bool) (c : Canvas) : Canvas :=
  setElements updater overwrite c.

(** The element that [handleTextCreate] builds:
    [{ id, type: 'text', points: [point],
       style: { ...style, fillColor: style.strokeColor }, text: 'Text' }]. *)
Definition newTextElement (id : Z) (style : ElementStyle) (point : Point)
  : Element :=
  mkElement id
    (mkStyle (strokeColor style) (strokeColor style) (strokeWidth style)
             (fontSize style))
    None Text [point] None None EmptyString None "Text" EmptyString
    EmptyString.

(** [handleTextCreate(point)]; [now] is what [Date.now()] returns. *)
Definition handleTextCreate (now : Z) (point : Point) (a : State) : State :=
  let id := now in
  let c := updateElements
             (fun prev => prev ++ [newTextElement id (currentStyle (canvas a)) point])
             false (canvas a) in
  mkApp (setTool ToolSelect c) (Some id).

(** [handleElementDoubleClick(elementId)] *)
Definition handleElementDoubleClick (elementId : Z) (a : State) : State :=
  match List.find (fun el => (eid el =? elementId)%Z) (elements (canvas a)) with
  | Some element =>
      if ElementType_eqb (etype element) Text
      then mkApp (canvas a) (Some elementId)
      else a
  | None => a
  end.

(** The callbacks as [App] passes them to the canvas:
    [onTextCreate={handleTextCreate}] and
    [onElementDoubleClick={handleElementDoubleClick}]. *)
Definition deliver (now : Z) (call : HostCall) (a : State) : State :=
  match call with
  | OnTextCreate point => handleTextCreate now point a
  | OnElementDoubleClick elementId => handleElementDoubleClick elementId a
  end.

Section Wiring.

Variable measureText : string -> R -> R.
Variable isPointInPath : string -> Point -> completion bool.
Variable isPointInStroke : string -> R -> Point -> completion bool.

(** A pointer-down as the application goes through it: the handler of the
    canvas, with the callbacks it invokes run by [App]. *)
Definition pointerDown (e : MouseEvent) (a : State) : State :=
  let c := handleMouseDown measureText isPointInPath isPointInStroke e (canvas a) in
  let calls := skipn (length (hostCalls (canvas a))) (hostCalls c) in
  fold_left (fun a call => deliver (clock e) call a) calls
            (mkApp c (editingElementId a)).

End Wiring.

End App.

(** ** Renderer: drawing an element ([drawElement] of [utils/render.ts]) *)

Module Draw.

Import Render.

(** What [drawElement] does to the 2D context, call by call: assignments
    to its properties and invocations of its methods.  [FillPath] and
    [StrokePath] are [ctx.fill(path)] and [ctx.stroke(path)] for
    [path = new Path2D(d)]; [SetFont size] assigns
    [`${size}px sans-serif`]. *)
Inductive CanvasOp :=
| SetStrokeStyle (color : string)
| SetFillStyle (color : string)
| SetLineWidth (width : R)
| SetLineCap (cap : string)
| SetLineJoin (join : string)
| SetLineDash (segments : list R)
| BeginPath
| DrawImage (image : string) (x y w h : R)
| FillPath (d : string)
| StrokePath (d : string)
| MoveTo (x y : R)
| LineTo (x y : R)
| Rect (x y w h : R)
| Arc (x y radius startAngle endAngle : R)
| Fill
| Stroke
| SetFont (size : R)
| SetTextBaseline (baseline : string)
| FillText (text : string) (x y : R).

(** The outcome of a call: the operations issued on the context, the image
    cache afterwards, and the exception that ended the call, if any. *)
Record Drawn := mkDrawn {
  issued : list CanvasOp;
  cache : Renderer;
  thrown : option string
}.

(** The assignments and the [beginPath] that open every call. *)
Definition prologue (element : Element) : list CanvasOp :=
  [SetStrokeStyle (strokeColor (style element));
   SetFillStyle (fillColor (style element));
   SetLineWidth (strokeWidth (style element));
   SetLineCap "round";
   SetLineJoin "round";
   SetLineDash [];
   BeginPath].

(** [if (element.style.fillColor !== 'transparent') fill] *)
Definition fillUnlessTransparent (element : Element) (fill : CanvasOp)
  : list CanvasOp :=
  if String.eqb (fillColor (style element)) "transparent" then [] else [fill].

(** [points.forEach((p, i) => i === 0 ? ctx.moveTo(p.x, p.y)
                                        : ctx.lineTo(p.x, p.y))] *)
Definition tracePoints (ps : list Point) : list CanvasOp :=
  match ps with
  | [] => []
  | p :: rest =>
      MoveTo (px p) (py p) :: map (fun q => LineTo (px q) (py q)) rest
  end.

Section Context2D.

(** [new Path2D(d)], the path constructor of the host canvas.  As in the
    hit-test it is a call that may throw. *)
Variable newPath2D : string -> completion unit.

(** [drawElement(ctx, element, forceRender)].  The [path] case builds the
    path object before it fills or strokes: when the constructor throws,
    nothing has been drawn.  The [text] case reads [element.points[0].x]
    without a test on the length: with no point that read is a read of a
    property of [undefined], which throws a [TypeError] after the three
    assignments before it.  A type tag with no [case] (the eraser tag)
    draws nothing. *)
Definition drawElement (element : Element) (forceRender : option Callback)
  (r : Renderer) : Drawn :=
  let ps := points element in
  let plain ops := mkDrawn (prologue element ++ ops) r None in
  match etype element with
  | Raster =>
      if truthy (imageUrl element) then
        let (img, r') := getImageFromCache (imageUrl element) forceRender r in
        match img, bounds element with
        | Some img, Some b =>
            mkDrawn (prologue element
                     ++ [DrawImage img (minX b) (minY b)
                           (maxX b - minX b) (maxY b - minY b)]) r' None
        | _, _ => mkDrawn (prologue element) r' None
        end
      else plain []
  | Path =>
      if truthy (pathData element) then
        match newPath2D (pathData element) with
        | Normal _ =>
            plain (fillUnlessTransparent element (FillPath (pathData element))
                   ++ [StrokePath (pathData element)])
        | Throw error => mkDrawn (prologue element) r (Some error)
        end
      else plain []
  | Pen =>
      if (1 <? length ps)%nat then plain (tracePoints ps ++ [Stroke])
      else plain []
  | Line =>
      if (1 <? length ps)%nat then
        plain [MoveTo (px (nth 0 ps origin)) (py (nth 0 ps origin));
               LineTo (px (nth 1 ps origin)) (py (nth 1 ps origin));
               Stroke]
      else plain []
  | Rectangle =>
      if (1 <? length ps)%nat then
        let s := nth 0 ps origin in
        let e := nth 1 ps origin in
        plain (Rect (px s) (py s) (px e - px s) (py e - py s)
               :: fillUnlessTransparent element Fill ++ [Stroke])
      else plain []
  | Circle =>
      if (1 <? length ps)%nat then
        let c := nth 0 ps origin in
        let e := nth 1 ps origin in
        let radius := Num.hypot (px e - px c) (py e - py c) in
        if Num.gtb radius 0 then
          plain (Arc (px c) (py c) radius 0 (2 * PI)
                 :: fillUnlessTransparent element Fill ++ [Stroke])
        else plain []
      else plain []
  | Text =>
      if truthy (text element) then
        let setup := [SetFont (fontSizeOr24 (style element));
                      SetFillStyle (strokeColor (style element));
                      SetTextBaseline "top"] in
        match ps with
        | p :: _ => plain (setup ++ [FillText (text element) (px p) (py p)])
        | [] => mkDrawn (prologue element ++ setup) r (Some "TypeError")
        end
      else plain []
  | Eraser => plain []
  end.

End Context2D.

(** An operation that fills the current path or a path object. *)
Definition isFill (op : CanvasOp) : bool :=
  match op with
  | Fill | FillPath _ => true
  | _ => false
  end.

(** The callback handed over with the first request for a key in a run of
    the renderer, if the key was requested at all. *)
Fixpoint firstRequest (src : string) (trace : list Event)
  : option (option Callback) :=
  match trace with
  | [] => None
  | Request key callback :: rest =>
      if String.eqb key src then Some callback else firstRequest src rest
  | _ :: rest => firstRequest src rest
  end.

(** What the cache remembers of the run so far: an entry for exactly the
    keys requested, each with the callback of the first request for it; and
    every invocation made is one of an entry's callback. *)
Definition remembers (trace : list Event) (r : Renderer) : Prop :=
  (forall src,
      onLoadCallback <$> (imageCache r !! src) = firstRequest src trace)
  /\ (forall src callback,
         In (src, callback) (invoked r) ->
         onLoadCallback <$> (imageCache r !! src) = Some (Some callback)).

(** A host whose path constructor accepts every string. *)
Definition acceptsAll : string -> completion unit := fun _ => Normal tt.

(** A run in which the same image is requested with two callbacks before
    it has loaded. *)
Definition twoRequests : list Event :=
  [Request "a.png" (Some 0%nat); Request "a.png" (Some 1%nat);
   LoadSucceeded "a.png"].

End Draw.

(** ** Undo history ([useHistoryState]), the hook that receives the
       collection updates *)

Module History.

Section Hook.

Variable S : Type.

(** [undefined], as a value the state may take: what reading an array past
    its end gives. *)
Variable undefined : S.

Record State := mkState { history : list S; index : nat }.

Inductive SetStateAction :=
| Value (newState : S)
| Updater (action : S -> S).

(** The value the hook starts from. *)
Definition useHistoryState (initialState : S) : State :=
  mkState [initialState] 0.

(** [l[i] = v] on an array: in range the element is replaced, past the end
    the array is extended, the gap reading as [undefined]. *)
Definition assign (i : nat) (v : S) (l : list S) : list S :=
  if (i <? length l)%nat then <[i := v]> l
  else l ++ repeat undefined (i - length l) ++ [v].

(** [state.history[state.index]] *)
Definition currentState (st : State) : S := nth (index st) (history st) undefined.

Definition setState (action : SetStateAction) (overwrite : bool) (prevState : State)
  : State :=
  let currentState := nth (index prevState) (history prevState) undefined in
  let newState := match action with
                  | Updater f => f currentState
                  | Value s => s
                  end in
  if overwrite then
    let newHistory := assign (index prevState) newState (history prevState) in
    mkState newHistory (index prevState)
  else
    let newHistory := firstn (index prevState + 1) (history prevState) ++ [newState] in
    mkState newHistory (length newHistory - 1).

Definition undo (prevState : State) : State :=
  if (0 <? index prevState)%nat
  then mkState (history prevState) (index prevState - 1)
  else prevState.

Definition redo (prevState : State) : State :=
  if (index prevState <? length (history prevState) - 1)%nat
  then mkState (history prevState) (index prevState + 1)
  else prevState.

Definition canUndo (st : State) : bool := (0 <? index st)%nat.

Definition canRedo (st : State) : bool :=
  (index st <? length (history st) - 1)%nat.

(** What can happen to the hook, and a run of it. *)
Inductive Op :=
| SetState (action : SetStateAction) (overwrite : bool)
| Undo
| Redo.

Definition apply (op : Op) (st : State) : State :=
  match op with
  | SetState action overwrite => setState action overwrite st
  | Undo => undo st
  | Redo => redo st
  end.

Definition run (ops : list Op) (st : State) : State :=
  fold_left (fun st op => apply op st) ops st.

(** The index points into the history. *)
Definition inRange (st : State) : Prop := (index st < length (history st))%nat.

End Hook.

Arguments mkState {S} history index.
Arguments history {S} _.
Arguments index {S} _.
Arguments Value {S} newState.
Arguments Updater {S} action.
Arguments useHistoryState {S} initialState.
Arguments assign {S} undefined i v l.
Arguments currentState {S} undefined st.
Arguments setState {S} undefined action overwrite prevState.
Arguments undo {S} prevState.
Arguments redo {S} prevState.
Arguments canUndo {S} st.
Arguments canRedo {S} st.
Arguments SetState {S} action overwrite.
Arguments Undo {S}.
Arguments Redo {S}.
Arguments apply {S} undefined op st.
Arguments run {S} undefined ops st.
Arguments inRange {S} st.

(** A history of numbers: three committed values, the middle one current. *)
Definition sample : State Z := mkState [10%Z; 20%Z; 30%Z] 1.

End History.

(** ** Vocabulary: path data *)

Module PathLaws.

Import PathData.

(** Every command of the path is one that the transform treats as
    relative (its letter is not an upper-case one) or a closepath. *)
Definition relativeOnly (pathData : string) : Prop :=
  Forall (fun c => isUpper c = false \/ c = "Z"%char)
         (list_ascii_of_string pathData).

(** A command whose arguments come in pairs: any letter but those of the
    closepath, the horizontal and vertical lines and the arc. *)
Definition takesPairs (command : ascii) : Prop :=
  Ascii.eqb (toUpperCase command) "Z"%char = false
  /\ Ascii.eqb (toUpperCase command) "H"%char = false
  /\ Ascii.eqb (toUpperCase command) "V"%char = false
  /\ Ascii.eqb (toUpperCase command) "A"%char = false.

(** A path of relative commands only, and one without any command. *)
Definition relativePath : string := "m 1 2 l 3 4 h 5 z".

Definition bareNumbers : string := "10 20".

End PathLaws.

(** * Properties *)

(** ** Facts about the number primitives *)

Module NumFacts.

Lemma eqb_true a b : Num.eqb a b = true <-> a = b.
Proof. unfold Num.eqb. destruct (Req_dec_T a b); split; congruence. Qed.

Lemma eqb_false a b : Num.eqb a b = false <-> a <> b.
Proof. unfold Num.eqb. destruct (Req_dec_T a b); split; congruence. Qed.

Lemma eqb_refl a : Num.eqb a a = true.
Proof. now apply eqb_true. Qed.

Lemma ltb_true a b : Num.ltb a b = true <-> a < b.
Proof. unfold Num.ltb. destruct (Rlt_dec a b); split; (congruence || tauto). Qed.

Lemma ltb_false a b : Num.ltb a b = false <-> ~ a < b.
Proof. unfold Num.ltb. destruct (Rlt_dec a b); split; (congruence || tauto). Qed.

Lemma gtb_true a b : Num.gtb a b = true <-> b < a.
Proof. apply ltb_true. Qed.

Lemma gtb_false a b : Num.gtb a b = false <-> ~ b < a.
Proof. apply ltb_false. Qed.

Lemma leb_true a b : Num.leb a b = true <-> a <= b.
Proof. unfold Num.leb. destruct (Rle_dec a b); split; (congruence || tauto). Qed.

Lemma leb_false a b : Num.leb a b = false <-> ~ a <= b.
Proof. unfold Num.leb. destruct (Rle_dec a b); split; (congruence || tauto). Qed.

Lemma geb_true a b : Num.geb a b = true <-> b <= a.
Proof. apply leb_true. Qed.

Lemma geb_false a b : Num.geb a b = false <-> ~ b <= a.
Proof. apply leb_false. Qed.




End NumFacts.

(** Decide the comparisons of a goal or hypothesis at concrete reals. *)
Ltac num_decide :=
  repeat match goal with
    | |- context [Num.eqb ?a ?b] =>
        first [ rewrite (proj2 (NumFacts.eqb_true a b)) by lra
              | rewrite (proj2 (NumFacts.eqb_false a b)) by lra ]
    | |- context [Num.ltb ?a ?b] =>
        first [ rewrite (proj2 (NumFacts.ltb_true a b)) by lra
              | rewrite (proj2 (NumFacts.ltb_false a b)) by lra ]
    | |- context [Num.gtb ?a ?b] =>
        first [ rewrite (proj2 (NumFacts.gtb_true a b)) by lra
              | rewrite (proj2 (NumFacts.gtb_false a b)) by lra ]
    | |- context [Num.leb ?a ?b] =>
        first [ rewrite (proj2 (NumFacts.leb_true a b)) by lra
              | rewrite (proj2 (NumFacts.leb_false a b)) by lra ]
    | |- context [Num.geb ?a ?b] =>
        first [ rewrite (proj2 (NumFacts.geb_true a b)) by lra
              | rewrite (proj2 (NumFacts.geb_false a b)) by lra ]
    | |- context [Rmin ?a ?b] =>
        first [ rewrite (Rmin_left a b) by lra | rewrite (Rmin_right a b) by lra ]
    | |- context [Rmax ?a ?b] =>
        first [ rewrite (Rmax_left a b) by lra | rewrite (Rmax_right a b) by lra ]
    end.

Lemma ElementType_eqb_eq a b : ElementType_eqb a b = true <-> a = b.
Proof. destruct a, b; simpl; split; congruence. Qed.


(** ** Geometry engine: attachment points *)

Section GeometryFacts.

Variable measureText : string -> R -> R.






End GeometryFacts.

(** ** Attachment points: the examples *)







(** ** Hit-testing a degenerate line *)

(** C10.  For a segment whose two endpoints coincide, [isPointNearLine]
    returns [false] for every query point and every threshold. *)
Theorem isPointNearLine_zero_length (p point : Point) (threshold : R) :
  isPointNearLine p p point threshold = false.
Proof.
  unfold isPointNearLine.
  rewrite (proj2 (NumFacts.eqb_true (px p - px p) 0)) by lra.
  rewrite (proj2 (NumFacts.eqb_true (py p - py p) 0)) by lra.
  reflexivity.
Qed.

(** ** Hit-testing with failing candidates *)

Section HitTestFacts.

Variable measureText : string -> R -> R.
Variable isPointInPath : string -> Point -> completion bool.
Variable isPointInStroke : string -> R -> Point -> completion bool.

Local Abbreviation test := (isPointInElement measureText isPointInPath isPointInStroke).
Local Abbreviation thrown := (thrownEntries measureText isPointInPath isPointInStroke).

Lemma thrownEntries_cons point scale el l :
  thrown point scale (el :: l) =
  match test point el scale with
  | Throw error => [SelectionCheckFailed (eid el) error]
  | Normal _ => []
  end ++ thrown point scale l.
Proof. reflexivity. Qed.

Lemma scanCandidates_spec point scale candidates console :
  match scanCandidates measureText isPointInPath isPointInStroke
          point scale candidates console with
  | (Some el, console') =>
      exists before after,
        candidates = before ++ el :: after
        /\ test point el scale = Normal true
        /\ Forall (fun e => test point e scale <> Normal true) before
        /\ console' = console ++ thrown point scale before
  | (None, console') =>
      Forall (fun e => test point e scale <> Normal true) candidates
      /\ console' = console ++ thrown point scale candidates
  end.
Proof.
  revert console. induction candidates as [|el rest IH]; intros console.
  - cbn [scanCandidates]. split; [constructor|].
    change (thrown point scale []) with (@nil LogEntry). now rewrite app_nil_r.
  - cbn [scanCandidates]. rewrite thrownEntries_cons.
    destruct (test point el scale) as [[|]|err] eqn:Hel.
    + exists [], rest. split; [reflexivity|]. split; [assumption|].
      split; [constructor|].
      change (thrown point scale []) with (@nil LogEntry). now rewrite app_nil_r.
    + specialize (IH console).
      destruct (scanCandidates _ _ _ point scale rest console) as [[hit|] console'].
      * destruct IH as (before & after & -> & Hhit & Hbefore & ->).
        exists (el :: before), after. split; [reflexivity|]. split; [assumption|].
        split; [constructor; [congruence|assumption]|].
        rewrite thrownEntries_cons, Hel. reflexivity.
      * destruct IH as [Hall ->]. split; [|reflexivity].
        constructor; [congruence|assumption].
    + specialize (IH (console ++ [SelectionCheckFailed (eid el) err])).
      destruct (scanCandidates _ _ _ point scale rest _) as [[hit|] console'].
      * destruct IH as (before & after & -> & Hhit & Hbefore & ->).
        exists (el :: before), after. split; [reflexivity|]. split; [assumption|].
        split; [constructor; [congruence|assumption]|].
        rewrite thrownEntries_cons, Hel. now rewrite <- app_assoc.
      * destruct IH as [Hall ->]. split.
        -- constructor; [congruence|assumption].
        -- now rewrite <- app_assoc.
Qed.

(** C7.  [getElementAtPoint] scans the elements topmost first (reverse draw
    order).  A candidate whose containment test throws is logged and skipped:
    the result is the first candidate whose test returns [true], every
    candidate before it was tested (none returned [true]) and each one that
    threw left exactly one console line, in scan order; when no candidate
    returns [true] the result is [null] and every throwing candidate of the
    whole collection was logged. *)
Theorem getElementAtPoint_continues_after_throw
  (elements : list Element) (scale : R) (point : Point) (console : list LogEntry) :
  match getElementAtPoint measureText isPointInPath isPointInStroke
          elements scale point console with
  | (Some el, console') =>
      exists before after,
        rev elements = before ++ el :: after
        /\ test point el scale = Normal true
        /\ Forall (fun e => test point e scale <> Normal true) before
        /\ console' = console ++ thrown point scale before
  | (None, console') =>
      Forall (fun e => test point e scale <> Normal true) (rev elements)
      /\ console' = console ++ thrown point scale (rev elements)
  end.
Proof. unfold getElementAtPoint. apply scanCandidates_spec. Qed.

End HitTestFacts.

(** A failing candidate on top of a hit: the asset's test throws, is logged,
    and the square below it is returned. *)
Example getElementAtPoint_skips_broken_asset :
  getElementAtPoint noMeasure pickyInPath neverInStroke [square; brokenAsset] 1
    (mkPoint 50 50) []
  = (Some square, [SelectionCheckFailed 9 "SyntaxError"]).
Proof.
  unfold getElementAtPoint. cbn [rev app scanCandidates].
  assert (Hbroken : isPointInElement noMeasure pickyInPath neverInStroke
                      (mkPoint 50 50) brokenAsset 1 = Throw "SyntaxError").
  { unfold isPointInElement, getElementBounds, getRawElementBounds.
    cbn [brokenAsset etype bounds style plainStyle strokeWidth px py
         minX minY maxX maxY].
    num_decide. reflexivity. }
  assert (Hsquare : isPointInElement noMeasure pickyInPath neverInStroke
                      (mkPoint 50 50) square 1 = Normal true).
  { unfold isPointInElement, getElementBounds, getRawElementBounds, joinBounds,
      pointBox.
    cbn [square shape etype points bounds style plainStyle strokeWidth
         ElementType_eqb andb length Nat.leb Nat.ltb fold_left
         px py minX minY maxX maxY].
    num_decide. cbn [minX minY maxX maxY]. num_decide. reflexivity. }
  rewrite Hbroken, Hsquare. reflexivity.
Qed.

(** ** Stroke simplification on pointer-up *)

Lemma filter_combine_seq {A : Type} (f : nat -> bool) (l : list A) (d : A) (a : nat) :
  map snd (List.filter (fun ip => f (fst ip)) (combine (seq a (length l)) l))
  = map (fun i => nth (i - a) l d) (List.filter f (seq a (length l))).
Proof.
  revert a. induction l as [|x l IH]; intros a; [reflexivity|].
  cbn [length seq combine List.filter fst].
  assert (Hrest :
    map (fun i => nth (i - S a) l d) (List.filter f (seq (S a) (length l)))
    = map (fun i => nth (i - a) (x :: l) d) (List.filter f (seq (S a) (length l)))).
  { apply map_ext_in. intros i Hi. apply filter_In in Hi as [Hi _].
    apply in_seq in Hi. replace (i - a)%nat with (S (i - S a)) by lia.
    reflexivity. }
  destruct (f a); cbn [map snd]; rewrite IH, Hrest; [|reflexivity].
  f_equal. now rewrite Nat.sub_diag.
Qed.

Lemma simplifyStroke_nth {A : Type} (pts : list A) (d : A) :
  simplifyStroke pts = map (fun i => nth i pts d) (keptIndices (length pts)).
Proof.
  unfold simplifyStroke, keptIndices.
  rewrite (filter_combine_seq
             (fun i => (i mod 4 =? 0)%nat || (i =? length pts - 1)%nat) pts d 0).
  apply map_ext. intros i. now rewrite Nat.sub_0_r.
Qed.

Lemma keptIndices_spec n i :
  In i (keptIndices n) <-> (i < n)%nat /\ ((i mod 4 = 0)%nat \/ i = (n - 1)%nat).
Proof.
  unfold keptIndices. rewrite filter_In, in_seq, orb_true_iff.
  rewrite !Nat.eqb_eq. lia.
Qed.

Lemma keptIndices_NoDup n : List.NoDup (keptIndices n).
Proof. unfold keptIndices. apply List.NoDup_filter, List.seq_NoDup. Qed.

Lemma keptIndices_21 : keptIndices 21 = [0; 4; 8; 12; 16; 20]%nat.
Proof. reflexivity. Qed.

Section StrokeFacts.

Variable measureText : string -> R -> R.

(** C4.  When pointer-up ends a [pen] drawing gesture, one element is
    appended to the collection.  A stroke of at most 20 samples is committed
    unchanged.  A longer stroke keeps, in order and each once, exactly the
    samples whose index is a multiple of four or the last index; with 21
    samples these are the samples 0, 4, 8, 12, 16, 20. *)
Theorem handleMouseUp_pen_stroke (e : MouseEvent) (c : Canvas) (el : Element) :
  dragState c = Drawing ->
  drawingElement c = Some el ->
  etype el = Pen ->
  let n := length (points el) in
  exists committed,
    elements (handleMouseUp measureText e c) = elements c ++ [committed]
    /\ ((n <= 20)%nat -> committed = el)
    /\ ((20 < n)%nat ->
        committed
        = withPoints el (map (fun i => nth i (points el) origin) (keptIndices n))
        /\ List.NoDup (keptIndices n)
        /\ forall i, In i (keptIndices n)
                     <-> (i < n)%nat /\ ((i mod 4 = 0)%nat \/ i = (n - 1)%nat))
    /\ (n = 21%nat ->
        points committed
        = map (fun i => nth i (points el) origin) [0; 4; 8; 12; 16; 20]%nat).
Proof.
  intros Hd Hel Hpen n. exists (finishedElement el). split.
  - unfold handleMouseUp. rewrite Hd, Hel. reflexivity.
  - unfold finishedElement. rewrite Hpen. cbn [ElementType_eqb andb]. fold n.
    split; [|split].
    + intros Hn. apply Nat.ltb_ge in Hn. now rewrite Hn.
    + intros Hn. pose proof Hn as Hlt. apply Nat.ltb_lt in Hn. rewrite Hn.
      split; [|split].
      * now rewrite (simplifyStroke_nth (points el) origin).
      * apply keptIndices_NoDup.
      * apply keptIndices_spec.
    + intros Hn. rewrite Hn. cbn [Nat.ltb Nat.leb withPoints points].
      rewrite (simplifyStroke_nth (points el) origin). fold n. rewrite Hn.
      now rewrite keptIndices_21.
Qed.

End StrokeFacts.

Lemma handleMouseUp_pen_stroke_witness :
  exists committed,
    elements (handleMouseUp noMeasure (mouseAt 0 0 false) penCanvas) = [committed]
    /\ points committed
       = map (fun i => nth i stroke21 origin) [0; 4; 8; 12; 16; 20]%nat.
Proof.
  destruct (handleMouseUp_pen_stroke noMeasure (mouseAt 0 0 false) penCanvas
              (shape 7 Pen stroke21) eq_refl eq_refl eq_refl)
    as (committed & Hels & _ & _ & H21).
  exists committed. split; [exact Hels|]. apply H21. reflexivity.
Defined.

(** ** Marquee selection on pointer-up *)

Lemma marqueeSelection_spec shift ids (prev : gset Z) id :
  id ∈ marqueeSelection shift ids prev
  <-> (shift = true /\ id ∈ prev) \/ In id ids.
Proof.
  unfold marqueeSelection.
  assert (Hfold : forall (acc : gset Z),
             id ∈ fold_left (fun sel i => sel ∪ {[i]}) ids acc
             <-> id ∈ acc \/ In id ids).
  { induction ids as [|i ids IH]; intros acc; cbn [fold_left In].
    - tauto.
    - rewrite IH. rewrite elem_of_union, elem_of_singleton. intuition congruence. }
  rewrite Hfold. destruct shift.
  - intuition congruence.
  - split.
    + intros [H|H]; [|now right]. exfalso. revert H. apply not_elem_of_empty.
    + intros [[H _]|H]; [discriminate|now right].
Qed.

Section MarqueeFacts.

Variable measureText : string -> R -> R.

Lemma centerInside_spec m el :
  centerInside measureText (marqueeBounds m) el = true
  <-> strictlyInside m (getElementCenter measureText el).
Proof.
  unfold centerInside, strictlyInside, marqueeBounds. cbn [minX minY maxX maxY].
  rewrite !andb_true_iff, !NumFacts.gtb_true, !NumFacts.ltb_true. tauto.
Qed.

Lemma idsInMarquee_spec m els id :
  In id (idsInMarquee measureText m els)
  <-> exists el, In el els /\ eid el = id
                 /\ strictlyInside m (getElementCenter measureText el).
Proof.
  unfold idsInMarquee. rewrite in_map_iff. split.
  - intros (el & Hid & Hin). apply filter_In in Hin as [Hin Hc].
    exists el. rewrite <- centerInside_spec. auto.
  - intros (el & Hin & Hid & Hc). exists el. split; [assumption|].
    apply filter_In. rewrite centerInside_spec. auto.
Qed.

(** C5.  When pointer-up ends a marquee gesture, an id belongs to the new
    selection exactly when it is the id of an element whose centre lies
    strictly inside the normalized marquee rectangle, or when the modifier
    key is held and the id was selected before. *)
Theorem handleMouseUp_marquee (e : MouseEvent) (c : Canvas) (m : Point * Point) :
  dragState c = Marquee ->
  marquee c = Some m ->
  forall id,
    id ∈ selectedElementIds (handleMouseUp measureText e c)
    <-> (shiftKey e = true /\ id ∈ selectedElementIds c)
        \/ exists el, In el (elements c) /\ eid el = id
                      /\ strictlyInside m (getElementCenter measureText el).
Proof.
  intros Hd Hm id. unfold handleMouseUp. rewrite Hd, Hm.
  cbn [setDragState setMarquee setSelectedElementIds selectedElementIds].
  rewrite marqueeSelection_spec, idsInMarquee_spec. reflexivity.
Qed.

End MarqueeFacts.

Lemma nearRect_center : getElementCenter noMeasure nearRect = mkPoint 15 15.
Proof.
  unfold getElementCenter, getRawElementBounds, nearRect, shape, joinBounds, pointBox.
  cbn [etype points bounds ElementType_eqb andb length Nat.leb Nat.ltb
       fold_left px py minX minY maxX maxY].
  num_decide. cbn [minX minY maxX maxY]. f_equal; lra.
Qed.

Lemma farRect_center : getElementCenter noMeasure farRect = mkPoint 205 205.
Proof.
  unfold getElementCenter, getRawElementBounds, farRect, shape, joinBounds, pointBox.
  cbn [etype points bounds ElementType_eqb andb length Nat.leb Nat.ltb
       fold_left px py minX minY maxX maxY].
  num_decide. cbn [minX minY maxX maxY]. f_equal; lra.
Qed.

(** The marquee from [(0,0)] to [(100,100)] selects the near rectangle and
    not the far one. *)
Lemma handleMouseUp_marquee_witness :
  let sel := selectedElementIds
               (handleMouseUp noMeasure (mouseAt 100 100 false) marqueeCanvas) in
  1%Z ∈ sel /\ 2%Z ∉ sel.
Proof.
  pose proof (handleMouseUp_marquee noMeasure (mouseAt 100 100 false) marqueeCanvas
                (mkPoint 0 0, mkPoint 100 100) eq_refl eq_refl) as H.
  cbv zeta. split.
  - apply H. right. exists nearRect. split; [now left|]. split; [reflexivity|].
    rewrite nearRect_center. unfold strictlyInside. cbn [fst snd px py].
    num_decide. lra.
  - intros Hin. apply H in Hin as [[Hs _]|(el & Hel & Hid & Hc)]; [discriminate|].
    destruct Hel as [<-|[<-|[]]]; [discriminate|].
    rewrite farRect_center in Hc. unfold strictlyInside in Hc.
    cbn [fst snd px py] in Hc. revert Hc. num_decide. lra.
Defined.

(** ** Pointer-down on an element of the selection *)

Section PointerDownFacts.

Variable measureText : string -> R -> R.
Variable isPointInPath : string -> Point -> completion bool.
Variable isPointInStroke : string -> R -> Point -> completion bool.

Local Abbreviation mouseDown :=
  (handleMouseDown measureText isPointInPath isPointInStroke).
Local Abbreviation elementAt :=
  (getElementAtPoint measureText isPointInPath isPointInStroke).

(** C9 (as amended).  Pointer-down with the select tool over an element
    that is already selected leaves the selection unchanged, with or without
    the modifier key.  The drag gesture begins (with that selection) when
    the primary button is pressed, the point is on no resize handle of the
    selection, and the press is not a double-click on a text element. *)
Theorem handleMouseDown_on_selected_element
  (e : MouseEvent) (c : Canvas) (el : Element) (console' : list LogEntry) :
  let startPoint := getPointInCanvas c (clientX e) (clientY e) in
  tool c = ToolSelect ->
  elementAt (elements c) (scale (panZoomState c)) startPoint (console c)
  = (Some el, console') ->
  eid el ∈ selectedElementIds c ->
  selectedElementIds (mouseDown e c) = selectedElementIds c
  /\ elements (mouseDown e c) = elements c
  /\ (button e = 0%Z ->
      getHandleAtPoint measureText c startPoint = None ->
      (clock e - lastClickTime c <? 300)%Z && ElementType_eqb (etype el) Text
      = false ->
      dragState (mouseDown e c) = DraggingSelection
      /\ lastDragPoint (mouseDown e c) = Some startPoint).
Proof.
  intros startPoint Htool Hhit Hsel. unfold handleMouseDown.
  rewrite Htool. cbn [Tool_eqb orb].
  destruct (button e =? 0)%Z eqn:Hb; cbn [negb].
  2:{ split; [reflexivity|]. split; [reflexivity|].
      intros Hb0. rewrite Hb0 in Hb. discriminate. }
  change (getPointInCanvas (setLastClickTime (clock e) c) (clientX e) (clientY e))
    with startPoint.
  change (getHandleAtPoint measureText (setLastClickTime (clock e) c) startPoint)
    with (getHandleAtPoint measureText c startPoint).
  destruct (getHandleAtPoint measureText c startPoint) as [h|] eqn:Hh.
  { split; [reflexivity|]. split; [reflexivity|]. intros _ Hnone. discriminate. }
  cbn [elements panZoomState console setLastClickTime].
  rewrite Hhit. cbn [setConsole tool setLastClickTime selectedElementIds].
  rewrite Htool. cbn [Tool_eqb].
  destruct ((clock e - lastClickTime c <? 300)%Z && ElementType_eqb (etype el) Text)
    eqn:Hdbl.
  { split; [reflexivity|]. split; [reflexivity|]. intros _ _ Hf. discriminate. }
  rewrite (bool_decide_eq_true_2 _ Hsel).
  split; [reflexivity|]. split; [reflexivity|]. intros _ _ _. split; reflexivity.
Qed.

End PointerDownFacts.

Lemma square_bounds : getRawElementBounds noMeasure square = mkBounds 0 0 100 100.
Proof.
  unfold getRawElementBounds, square, shape, joinBounds, pointBox.
  cbn [etype points bounds ElementType_eqb andb length Nat.leb Nat.ltb
       fold_left px py minX minY maxX maxY].
  num_decide. reflexivity.
Qed.

Lemma square_selected : selectedElements selectedSquareCanvas = [square].
Proof.
  unfold selectedElements.
  change (elements selectedSquareCanvas) with [square].
  change (selectedElementIds selectedSquareCanvas) with ({[ 1%Z ]} : gset Z).
  unfold List.filter. rewrite bool_decide_eq_true_2; [reflexivity|].
  change (eid square) with 1%Z. now apply elem_of_singleton.
Qed.

Lemma square_group_bounds :
  getElementsBounds noMeasure (selectedElements selectedSquareCanvas)
  = mkBounds 0 0 100 100.
Proof.
  rewrite square_selected. unfold getElementsBounds. cbn [fold_left joinBounds].
  apply square_bounds.
Qed.

Lemma selection_nonempty :
  bool_decide (selectedElementIds selectedSquareCanvas = ∅) = false.
Proof.
  apply bool_decide_eq_false_2.
  change (selectedElementIds selectedSquareCanvas) with ({[ 1%Z ]} : gset Z).
  intros H. assert (Hin : (1%Z : Z) ∈ (∅ : gset Z)).
  { rewrite <- H. now apply elem_of_singleton. }
  revert Hin. apply not_elem_of_empty.
Qed.

Lemma square_hit x y :
  -6 <= x <= 106 -> -6 <= y <= 106 ->
  getElementAtPoint noMeasure neverInPath neverInStroke [square] 1 (mkPoint x y) []
  = (Some square, []).
Proof.
  intros Hx Hy. unfold getElementAtPoint. cbn [rev app scanCandidates].
  unfold isPointInElement, getElementBounds. rewrite square_bounds.
  cbn [square shape style plainStyle strokeWidth etype ElementType_eqb andb
       px py minX minY maxX maxY].
  num_decide. reflexivity.
Qed.

Lemma square_handle_corner :
  getHandleAtPoint noMeasure selectedSquareCanvas (mkPoint 0 0) = Some Hnw.
Proof.
  unfold getHandleAtPoint. rewrite selection_nonempty, square_group_bounds.
  unfold getHandles.
  cbn [selectedSquareCanvas panZoomState scale minX minY maxX maxY List.find
       snd fst px py].
  num_decide. reflexivity.
Qed.

Lemma square_handle_middle :
  getHandleAtPoint noMeasure selectedSquareCanvas (mkPoint 50 50) = None.
Proof.
  unfold getHandleAtPoint. rewrite selection_nonempty, square_group_bounds.
  unfold getHandles.
  cbn [selectedSquareCanvas panZoomState scale minX minY maxX maxY List.find
       snd fst px py].
  num_decide. reflexivity.
Qed.

Lemma selectedSquare_point x y :
  getPointInCanvas selectedSquareCanvas x y = mkPoint x y.
Proof.
  unfold getPointInCanvas.
  cbn [selectedSquareCanvas wrapperRect panZoomState positionX positionY scale].
  f_equal; field.
Qed.

Lemma handleMouseDown_on_selected_element_witness :
  let c' := handleMouseDown noMeasure neverInPath neverInStroke
              (mouseAt 50 50 true) selectedSquareCanvas in
  selectedElementIds c' = {[ 1%Z ]}
  /\ dragState c' = DraggingSelection
  /\ lastDragPoint c' = Some (mkPoint 50 50).
Proof.
  destruct (handleMouseDown_on_selected_element noMeasure neverInPath neverInStroke
              (mouseAt 50 50 true) selectedSquareCanvas square [])
    as (Hsel & _ & Hdrag).
  - reflexivity.
  - cbn [mouseAt clientX clientY]. rewrite selectedSquare_point.
    apply square_hit; lra.
  - change (eid square ∈ ({[ 1%Z ]} : gset Z)). now apply elem_of_singleton.
  - destruct Hdrag as [Hd Hl].
    + reflexivity.
    + cbn [mouseAt clientX clientY]. rewrite selectedSquare_point.
      apply square_handle_middle.
    + reflexivity.
    + cbv zeta. split; [exact Hsel|]. split; [exact Hd|].
      rewrite Hl. cbn [mouseAt clientX clientY]. now rewrite selectedSquare_point.
Defined.

(** C9, as stated, fails: the press at [(0,0)] is over the selected square
    (the hit test returns it), yet it lands on the north-west resize handle
    of the selection and starts a resize, not a drag. *)
Lemma handleMouseDown_on_handle_counterexample :
  let e := mouseAt 0 0 false in
  let c := selectedSquareCanvas in
  let startPoint := getPointInCanvas c (clientX e) (clientY e) in
  tool c = ToolSelect
  /\ getElementAtPoint noMeasure neverInPath neverInStroke (elements c)
       (scale (panZoomState c)) startPoint (console c) = (Some square, [])
  /\ eid square ∈ selectedElementIds c
  /\ dragState (handleMouseDown noMeasure neverInPath neverInStroke e c) = Resizing
  /\ dragState (handleMouseDown noMeasure neverInPath neverInStroke e c)
     <> DraggingSelection.
Proof.
  cbv zeta.
  change (clientX (mouseAt 0 0 false)) with 0.
  change (clientY (mouseAt 0 0 false)) with 0.
  rewrite selectedSquare_point.
  assert (Hr : dragState (handleMouseDown noMeasure neverInPath neverInStroke
                            (mouseAt 0 0 false) selectedSquareCanvas)
               = Resizing).
  { unfold handleMouseDown, mouseAt.
    cbn [selectedSquareCanvas tool Tool_eqb orb button Z.eqb negb clientX clientY].
    change (getPointInCanvas (setLastClickTime _ _) 0 0)
      with (getPointInCanvas selectedSquareCanvas 0 0).
    rewrite selectedSquare_point.
    change (getHandleAtPoint noMeasure (setLastClickTime _ _) (mkPoint 0 0))
      with (getHandleAtPoint noMeasure selectedSquareCanvas (mkPoint 0 0)).
    rewrite square_handle_corner. reflexivity. }
  split; [reflexivity|]. split; [apply square_hit; lra|].
  split; [change (eid square ∈ ({[ 1%Z ]} : gset Z)); now apply elem_of_singleton|].
  split; [exact Hr|]. rewrite Hr. discriminate.
Qed.

(** ** Resizing: raster elements *)

Section ResizeFacts.

Variable measureText : string -> R -> R.
Variable transformPathData : string -> R -> R -> Point -> string.

Lemma handleMouseMove_resizing e c rs :
  dragState c = Resizing -> resizingState c = Some rs ->
  handleMouseMove measureText transformPathData e c
  = setElements
      (resizeElements transformPathData rs
         (getPointInCanvas c (clientX e) (clientY e)) (shiftKey e)) true c.
Proof.
  intros Hd Hr. unfold handleMouseMove. rewrite Hd, Hr.
  cbn [DragState_eqb]. now rewrite andb_false_r.
Qed.

Lemma resizeElement_raster initialElements origin scaleX scaleY el initialEl :
  initialElements !! eid el = Some initialEl ->
  etype initialEl = Raster ->
  resizeElement transformPathData initialElements origin scaleX scaleY el = el.
Proof.
  intros Hget Ht. unfold resizeElement. rewrite Hget, Ht. reflexivity.
Qed.

(** C1 (as amended).  During a resize gesture, the update made on a pointer
    move returns unchanged every element whose snapshot taken at the start
    of the gesture is a [raster]: its bounds are not remapped, and its bitmap
    reference (like every other field) stays as it was. *)
Theorem handleMouseMove_resize_keeps_raster
  (e : MouseEvent) (c : Canvas) (rs : ResizingState)
  (i : nat) (el initialEl : Element) :
  dragState c = Resizing ->
  resizingState c = Some rs ->
  nth_error (elements c) i = Some el ->
  initialElements rs !! eid el = Some initialEl ->
  etype initialEl = Raster ->
  nth_error (elements (handleMouseMove measureText transformPathData e c)) i
  = Some el.
Proof.
  intros Hd Hr Hi Hget Ht.
  rewrite (handleMouseMove_resizing e c rs Hd Hr).
  cbn [setElements elements]. unfold resizeElements.
  rewrite nth_error_map, Hi. cbn [option_map]. f_equal.
  now apply (resizeElement_raster _ _ _ _ el initialEl).
Qed.

End ResizeFacts.

Lemma pairResizing_bitmap : initialElements pairResizing !! 5%Z = Some bitmap.
Proof. unfold pairResizing. cbn [initialElements]. apply lookup_insert_eq. Qed.

Lemma pairResizing_asset : initialElements pairResizing !! 6%Z = Some asset.
Proof.
  unfold pairResizing. cbn [initialElements].
  rewrite lookup_insert_ne by discriminate. apply lookup_insert_eq.
Qed.

Lemma handleMouseMove_resize_keeps_raster_witness :
  nth_error (elements (handleMouseMove noMeasure keepPathData
                         (mouseAt 20 20 false) resizingCanvas)) 0
  = Some bitmap.
Proof.
  apply (handleMouseMove_resize_keeps_raster noMeasure keepPathData
           (mouseAt 20 20 false) resizingCanvas pairResizing 0 bitmap bitmap).
  - reflexivity.
  - reflexivity.
  - reflexivity.
  - apply pairResizing_bitmap.
  - reflexivity.
Defined.

Lemma normalizeBounds_ordered b :
  minX b <= maxX b -> minY b <= maxY b -> normalizeBounds b = b.
Proof.
  intros Hx Hy. unfold normalizeBounds.
  rewrite (proj2 (NumFacts.gtb_false (minX b) (maxX b))) by lra.
  rewrite (proj2 (NumFacts.gtb_false (minY b) (maxY b))) by lra.
  reflexivity.
Qed.

Lemma resizedBounds_pair :
  resizedBounds Hse (mkBounds 0 0 10 10) (mkPoint 20 20) false
  = mkBounds 0 0 20 20.
Proof.
  unfold resizedBounds. cbn [includes isCorner andb px py minX minY maxX maxY].
  apply normalizeBounds_ordered; cbn [minX minY maxX maxY]; lra.
Qed.

(** C1, as stated, fails: dragging the south-east handle of the pair from
    [(10,10)] to [(20,20)] doubles the group bounds about [(0,0)]; the stored
    bounds of the path follow that map, those of the bitmap do not. *)
Lemma handleMouseMove_resize_raster_counterexample :
  let c' := handleMouseMove noMeasure keepPathData (mouseAt 20 20 false)
              resizingCanvas in
  map bounds (elements resizingCanvas)
  = [Some (mkBounds 0 0 10 10); Some (mkBounds 0 0 10 10)]
  /\ map bounds (elements c')
     = [Some (mkBounds 0 0 10 10); Some (mkBounds 0 0 20 20)].
Proof.
  cbv zeta. split; [reflexivity|].
  rewrite (handleMouseMove_resizing noMeasure keepPathData (mouseAt 20 20 false)
             resizingCanvas pairResizing eq_refl eq_refl).
  cbn [setElements elements resizingCanvas].
  assert (Hp : getPointInCanvas resizingCanvas 20 20 = mkPoint 20 20).
  { unfold getPointInCanvas.
    cbn [resizingCanvas wrapperRect panZoomState positionX positionY scale].
    f_equal; field. }
  change (clientX (mouseAt 20 20 false)) with 20.
  change (clientY (mouseAt 20 20 false)) with 20.
  change (shiftKey (mouseAt 20 20 false)) with false.
  rewrite Hp. unfold resizeElements.
  change (handle pairResizing) with Hse.
  change (initialSelectionBounds pairResizing) with (mkBounds 0 0 10 10).
  rewrite resizedBounds_pair.
  cbn [includes px py minX minY maxX maxY map].
  rewrite (proj2 (NumFacts.eqb_false (10 - 0) 0)) by lra.
  replace ((20 - 0) / (10 - 0)) with 2 by field.
  rewrite (resizeElement_raster keepPathData _ _ _ _ bitmap bitmap
             pairResizing_bitmap eq_refl).
  unfold resizeElement. change (eid asset) with 6%Z. rewrite pairResizing_asset.
  cbn [asset etype bounds pathData truthy ElementType_eqb andb].
  unfold scaleAbout. cbn [px py minX minY maxX maxY].
  rewrite normalizeBounds_ordered by (cbn [minX minY maxX maxY]; lra).
  cbn [withBounds withPathData withPoints bounds map].
  repeat f_equal; ring.
Qed.

(** ** Drag and resize preserve identity and style *)

Lemma sameFrame_refl el : sameFrame el el.
Proof. unfold sameFrame. tauto. Qed.

Lemma sameFrame_trans a b c : sameFrame a b -> sameFrame b c -> sameFrame a c.
Proof. unfold sameFrame. intuition congruence. Qed.

Lemma sameFrame_withPoints el ps : sameFrame el (withPoints el ps).
Proof. unfold sameFrame. cbn. tauto. Qed.

Lemma sameFrame_withPathData el d : sameFrame el (withPathData el d).
Proof. unfold sameFrame. cbn. tauto. Qed.

Lemma sameFrame_withBounds el b : sameFrame el (withBounds el b).
Proof. unfold sameFrame. cbn. tauto. Qed.

Create HintDb frame.

#[local] Hint Resolve sameFrame_refl sameFrame_withPoints sameFrame_withPathData
  sameFrame_withBounds : frame.

Module JSMapFacts.

Lemma get_In k m el : JSMap.get k m = Some el -> In (k, el) m.
Proof.
  unfold JSMap.get. intros H.
  destruct (List.find (fun e => (fst e =? k)%Z) m) as [[k' v]|] eqn:Hf;
    [|discriminate].
  cbn in H. injection H as ->. apply find_some in Hf as [Hin Hk].
  cbn in Hk. apply Z.eqb_eq in Hk. now subst k'.
Qed.

(** Every entry of [set k v m] is an entry of [m] or the new entry. *)
Lemma set_In k v m e : In e (JSMap.set k v m) -> In e m \/ e = (k, v).
Proof.
  unfold JSMap.set. destruct (JSMap.has k m).
  - intros H. apply in_map_iff in H as (e0 & He & Hin).
    destruct (fst e0 =? k)%Z; subst e; auto.
  - intros H. apply in_app_or in H as [H|[H|[]]]; auto.
Qed.

Lemma ofEntries_In_acc entries acc e :
  In e (fold_left (fun m e => JSMap.set (fst e) (snd e) m) entries acc) ->
  In e acc \/ In e entries.
Proof.
  revert acc. induction entries as [|[k v] entries IH]; intros acc H; cbn in *.
  - now left.
  - apply IH in H as [H|H]; [|now right; right].
    apply set_In in H as [H|H]; [now left|right; left; now symmetry].
Qed.

Lemma ofEntries_In entries e : In e (JSMap.ofEntries entries) -> In e entries.
Proof.
  intros H. apply ofEntries_In_acc in H as [[]|H]. exact H.
Qed.

Lemma has_false_iff k m : JSMap.has k m = false <-> ~ In k (map fst m).
Proof.
  unfold JSMap.has. split.
  - intros H Hin. apply in_map_iff in Hin as (e & He & Hin).
    assert (Ht : existsb (fun e => (fst e =? k)%Z) m = true).
    { apply existsb_exists. exists e. split; [assumption|]. now apply Z.eqb_eq. }
    congruence.
  - intros H. destruct (existsb _ m) eqn:Hex; [|reflexivity].
    apply existsb_exists in Hex as (e & Hin & He). apply Z.eqb_eq in He.
    exfalso. apply H. apply in_map_iff. now exists e.
Qed.

(** Entries with pairwise distinct fresh keys are appended in order. *)
Lemma ofEntries_fresh entries acc :
  List.NoDup (map fst entries) ->
  (forall k, In k (map fst entries) -> ~ In k (map fst acc)) ->
  fold_left (fun m e => JSMap.set (fst e) (snd e) m) entries acc = acc ++ entries.
Proof.
  revert acc. induction entries as [|[k v] entries IH]; intros acc Hnd Hfresh.
  - cbn. now rewrite app_nil_r.
  - cbn [fold_left fst snd]. cbn [map fst] in Hnd, Hfresh.
    apply List.NoDup_cons_iff in Hnd as [Hk Hnd].
    assert (Hhas : JSMap.has k acc = false).
    { apply has_false_iff. apply Hfresh. now left. }
    unfold JSMap.set at 2. rewrite Hhas. rewrite IH.
    + now rewrite <- app_assoc.
    + exact Hnd.
    + intros k' Hk' Hin. rewrite map_app in Hin. apply in_app_or in Hin as [Hin|Hin].
      * apply (Hfresh k'); [now right|assumption].
      * cbn in Hin. destruct Hin as [<-|[]]. contradiction.
Qed.

Lemma ofEntries_NoDup entries :
  List.NoDup (map fst entries) -> JSMap.ofEntries entries = entries.
Proof.
  intros Hnd. unfold JSMap.ofEntries. rewrite ofEntries_fresh; auto.
Qed.

End JSMapFacts.

Lemma Forall2_In_r {A B : Type} (R : A -> B -> Prop) l m e :
  Forall2 R l m -> In e m -> exists x, In x l /\ R x e.
Proof.
  induction 1 as [|x y l m Hxy _ IH]; intros Hin; [contradiction|].
  destruct Hin as [<-|Hin].
  - exists x. split; [now left|assumption].
  - destruct (IH Hin) as (x' & Hx' & Hr). exists x'. split; [now right|assumption].
Qed.

Lemma Forall2_map_r_In {A B : Type} (R : A -> B -> Prop) (g : B -> B) l m :
  Forall2 R l m ->
  (forall x e, In x l -> R x e -> R x (g e)) ->
  Forall2 R l (map g m).
Proof.
  induction 1 as [|x y l m Hxy _ IH]; intros Hg; cbn [map]; constructor.
  - apply Hg; [now left|assumption].
  - apply IH. intros x' e Hin. apply Hg. now right.
Qed.

Lemma NoDup_map_inj_In {A B : Type} (f : A -> B) (l : list A) x y :
  List.NoDup (map f l) -> In x l -> In y l -> f x = f y -> x = y.
Proof.
  induction l as [|a l IH]; intros Hnd Hx Hy Hf; [contradiction|].
  cbn [map] in Hnd. apply List.NoDup_cons_iff in Hnd as [Ha Hnd].
  destruct Hx as [->|Hx], Hy as [->|Hy].
  - reflexivity.
  - exfalso. apply Ha. rewrite Hf. now apply in_map.
  - exfalso. apply Ha. rewrite <- Hf. now apply in_map.
  - now apply IH.
Qed.

Section FrameFacts.

Variable measureText : string -> R -> R.
Variable transformPathData : string -> R -> R -> Point -> string.

Local Abbreviation translateEl := (translateElement transformPathData).
Local Abbreviation dragStep := (dragVisit transformPathData).

Lemma translateElement_sameFrame dx dy el : sameFrame el (translateEl dx dy el).
Proof.
  unfold translateElement.
  destruct (etype el); eauto using sameFrame_trans with frame.
Qed.

Lemma resizeElement_sameFrame initialElements origin scaleX scaleY el :
  sameFrame el
    (resizeElement transformPathData initialElements origin scaleX scaleY el).
Proof.
  unfold resizeElement.
  destruct (initialElements !! eid el) as [initialEl|]; [|auto with frame].
  destruct (ElementType_eqb (etype initialEl) Raster); [auto with frame|].
  destruct (bounds initialEl); [|auto with frame].
  destruct (ElementType_eqb (etype initialEl) Path && truthy (pathData initialEl));
    eauto using sameFrame_trans with frame.
Qed.

Lemma resizeElements_sameFrame rs currentPoint shift prev :
  Forall2 sameFrame prev (resizeElements transformPathData rs currentPoint shift prev).
Proof.
  unfold resizeElements. induction prev as [|el prev IH]; cbn [map]; constructor.
  - apply resizeElement_sameFrame.
  - exact IH.
Qed.

Lemma dragElements_fold dx dy selected prev :
  dragElements transformPathData dx dy selected prev
  = JSMap.values
      (fold_left (dragStep dx dy) (base.elements selected)
         (JSMap.ofEntries (map (fun el => (eid el, el)) prev))).
Proof. reflexivity. Qed.

Lemma dragStep_derived dx dy prev m id :
  (forall e, In e m -> exists old, In old prev /\ sameFrame old (snd e)) ->
  forall e, In e (dragStep dx dy m id) ->
            exists old, In old prev /\ sameFrame old (snd e).
Proof.
  intros Hm e He. unfold dragVisit in He.
  destruct (JSMap.get id m) as [el|] eqn:Hget; [|now apply Hm].
  apply JSMapFacts.set_In in He as [He| ->]; [now apply Hm|].
  apply JSMapFacts.get_In in Hget. destruct (Hm _ Hget) as (old & Hold & Hf).
  exists old. split; [assumption|]. cbn [snd] in *.
  eapply sameFrame_trans; [exact Hf|apply translateElement_sameFrame].
Qed.

Lemma dragElements_derived dx dy selected prev new :
  In new (dragElements transformPathData dx dy selected prev) ->
  exists old, In old prev /\ sameFrame old new.
Proof.
  rewrite dragElements_fold. unfold JSMap.values. intros Hin.
  apply in_map_iff in Hin as (e & <- & Hin). revert e Hin.
  generalize (base.elements selected) as ids.
  assert (Hinit : forall e,
             In e (JSMap.ofEntries (map (fun el => (eid el, el)) prev)) ->
             exists old, In old prev /\ sameFrame old (snd e)).
  { intros e He. apply JSMapFacts.ofEntries_In in He.
    apply in_map_iff in He as (el & <- & Hel). exists el.
    split; [assumption|apply sameFrame_refl]. }
  revert Hinit. generalize (JSMap.ofEntries (map (fun el => (eid el, el)) prev)) as m.
  intros m Hm ids. revert m Hm. induction ids as [|id ids IH]; intros m Hm.
  - exact Hm.
  - cbn [fold_left]. apply IH. now apply dragStep_derived.
Qed.

Lemma dragStep_tracks dx dy prev m id :
  List.NoDup (map eid prev) ->
  Forall2 tracks prev m -> Forall2 tracks prev (dragStep dx dy m id).
Proof.
  intros Hnd Hm. unfold dragVisit.
  destruct (JSMap.get id m) as [el|] eqn:Hget; [|exact Hm].
  apply JSMapFacts.get_In in Hget.
  assert (Hhas : JSMap.has id m = true).
  { destruct (JSMap.has id m) eqn:Hh; [reflexivity|].
    apply JSMapFacts.has_false_iff in Hh. exfalso. apply Hh.
    apply in_map_iff. now exists (id, el). }
  unfold JSMap.set. rewrite Hhas.
  destruct (Forall2_In_r _ _ _ _ Hm Hget) as (oldj & Hj & Hkj & Hfj).
  cbn [fst snd] in Hkj, Hfj.
  apply Forall2_map_r_In; [exact Hm|].
  intros old [k v] Hold [Hk Hf]. cbn [fst snd] in *.
  destruct (k =? id)%Z eqn:Hkid; [|now split].
  apply Z.eqb_eq in Hkid. split; [cbn [fst]; congruence|]. cbn [snd].
  assert (old = oldj) as ->.
  { apply (NoDup_map_inj_In eid prev); auto. congruence. }
  eapply sameFrame_trans; [exact Hfj|apply translateElement_sameFrame].
Qed.

Lemma dragElements_sameFrame dx dy selected prev :
  List.NoDup (map eid prev) ->
  Forall2 sameFrame prev (dragElements transformPathData dx dy selected prev).
Proof.
  intros Hnd. rewrite dragElements_fold.
  assert (Hfinal : Forall2 tracks prev
            (fold_left (dragStep dx dy) (base.elements selected)
               (JSMap.ofEntries (map (fun el => (eid el, el)) prev)))).
  { generalize (base.elements selected) as ids.
    assert (Hinit : Forall2 tracks prev
              (JSMap.ofEntries (map (fun el => (eid el, el)) prev))).
    { rewrite JSMapFacts.ofEntries_NoDup.
      - clear Hnd. induction prev as [|el prev IH]; cbn [map]; constructor.
        + split; [reflexivity|apply sameFrame_refl].
        + exact IH.
      - rewrite map_map. cbn [fst]. exact Hnd. }
    revert Hinit.
    generalize (JSMap.ofEntries (map (fun el => (eid el, el)) prev)) as m.
    intros m Hm ids. revert m Hm. induction ids as [|id ids IH]; intros m Hm.
    - exact Hm.
    - cbn [fold_left]. apply IH. now apply dragStep_tracks. }
  unfold JSMap.values. revert Hfinal.
  generalize (fold_left (dragStep dx dy) (base.elements selected)
                (JSMap.ofEntries (map (fun el => (eid el, el)) prev))) as m.
  intros m Hm. clear Hnd.
  induction Hm as [|old kv prev' m' Hkv _ IH]; cbn [map].
  - constructor.
  - constructor; [exact (proj2 Hkv)|exact IH].
Qed.

(** What a pointer move does to the collection. *)
Lemma handleMouseMove_elements e c :
  elements (handleMouseMove measureText transformPathData e c) = elements c
  \/ (exists rs currentPoint shift,
        elements (handleMouseMove measureText transformPathData e c)
        = resizeElements transformPathData rs currentPoint shift (elements c))
  \/ (exists dx dy,
        elements (handleMouseMove measureText transformPathData e c)
        = dragElements transformPathData dx dy (selectedElementIds c) (elements c)).
Proof.
  unfold handleMouseMove.
  destruct (Tool_eqb (tool c) ToolPan && DragState_eqb (dragState c) DragNone);
    [now left|].
  destruct (dragState c), (resizingState c) as [rs|], (lastDragPoint c) as [last|],
    (marquee c) as [[ms me]|], (drawingElement c) as [d|];
    try (now left);
    try (right; left; eexists _, _, _; reflexivity);
    try (destruct (bool_decide (selectedElementIds c = ∅));
         [now left|right; right; eexists _, _; reflexivity]).
Qed.

(** C8.  Whatever a pointer move does to the collection (a drag translation,
    a resize remapping, or nothing), every element of the new collection
    keeps the identity, the whole style record and every non-geometric field
    of an element of the old one; when identities are unique, this holds
    position by position.  Only [points], [pathData] and [bounds] change. *)
Theorem handleMouseMove_preserves_identity_and_style (e : MouseEvent) (c : Canvas) :
  (forall new,
      In new (elements (handleMouseMove measureText transformPathData e c)) ->
      exists old, In old (elements c) /\ sameFrame old new)
  /\ (List.NoDup (map eid (elements c)) ->
      Forall2 sameFrame (elements c)
        (elements (handleMouseMove measureText transformPathData e c))).
Proof.
  destruct (handleMouseMove_elements e c)
    as [-> | [(rs & cp & shift & ->) | (dx & dy & ->)]].
  - split.
    + intros new Hin. exists new. split; [assumption|apply sameFrame_refl].
    + intros _. induction (elements c); constructor; auto using sameFrame_refl.
  - pose proof (resizeElements_sameFrame rs cp shift (elements c)) as H.
    split; [|intros _; exact H].
    intros new Hin. apply (Forall2_In_r _ _ _ _ H Hin).
  - split.
    + intros new. apply dragElements_derived.
    + apply dragElements_sameFrame.
Qed.

End FrameFacts.

Lemma handleMouseMove_preserves_identity_and_style_witness :
  Forall2 sameFrame [nearRect; farRect]
    (elements (handleMouseMove noMeasure keepPathData (mouseAt 5 (-3) false)
                 draggingCanvas)).
Proof.
  apply (handleMouseMove_preserves_identity_and_style noMeasure keepPathData
           (mouseAt 5 (-3) false) draggingCanvas).
  cbn [draggingCanvas elements map nearRect farRect shape eid].
  constructor.
  - intros [H|[]]. discriminate.
  - constructor; [intros []|constructor].
Defined.

(** ** The image cache and the redraw callback *)

Module RenderFacts.

Import Render.

Lemma settled_initial : settled initial.
Proof. intros src. unfold initial. cbn. now rewrite lookup_empty. Qed.

Lemma settled_step ev r : settled r -> enabled r ev -> settled (step ev r).
Proof.
  intros Hs Hen src. specialize (Hs src).
  destruct ev as [key callback|key|key]; cbn [step enabled] in *.
  - unfold getImageFromCache.
    destruct (imageCache r !! key) as [entry|] eqn:Hkey.
    + destruct (status entry); exact Hs.
    + cbn [snd]. unfold callbackCount in *. cbn [imageCache invoked].
      destruct (decide (key = src)) as [->|Hne].
      * rewrite lookup_insert_eq. rewrite Hkey in Hs. exact Hs.
      * now rewrite lookup_insert_ne.
  - unfold onload.
    destruct (imageCache r !! key) as [entry|] eqn:Hkey; [|exact Hs].
    cbn in Hen. injection Hen as Hst.
    unfold callbackCount in *. cbn [imageCache invoked].
    rewrite List.filter_app, length_app.
    destruct (decide (key = src)) as [->|Hne].
    + rewrite lookup_insert_eq. rewrite Hkey in Hs.
      destruct entry as [img st cb]. cbn in *. subst st. cbn in Hs. rewrite Hs.
      destruct cb; cbn; [|reflexivity]. now rewrite String.eqb_refl.
    + rewrite lookup_insert_ne by assumption. rewrite Hs.
      destruct (onLoadCallback entry); cbn; [|lia].
      apply String.eqb_neq in Hne. rewrite Hne. cbn. lia.
  - unfold onerror.
    destruct (imageCache r !! key) as [entry|] eqn:Hkey; [|exact Hs].
    cbn in Hen. injection Hen as Hst.
    unfold callbackCount in *. cbn [imageCache invoked].
    destruct (decide (key = src)) as [->|Hne].
    + rewrite lookup_insert_eq. rewrite Hkey in Hs.
      destruct entry as [img st cb]. cbn in *. subst st. exact Hs.
    + now rewrite lookup_insert_ne.
Qed.

Lemma settled_run trace r : settled r -> admissible r trace -> settled (run trace r).
Proof.
  revert r. induction trace as [|ev trace IH]; intros r Hs Had; [exact Hs|].
  destruct Had as [Hen Had]. cbn [run fold_left]. apply IH; [|exact Had].
  now apply settled_step.
Qed.

(** C3 (as amended).  Over any run of the renderer from the empty cache in
    which the browser ends each started load at most once, and for every
    bitmap key: the callback supplied with the first request has been
    invoked exactly once if the key's entry is in the loaded state, and never
    while the entry is loading or once it is in the error state.  The
    [onload] handler itself makes that one call as it marks the entry loaded;
    the [onerror] handler marks the entry errored, writes a console line and
    calls nothing. *)
Theorem callback_once_on_load_never_on_error (trace : list Event) (src : string) :
  admissible initial trace ->
  let r := run trace initial in
  callbackCount src r
  = match imageCache r !! src with
    | Some (mkEntry _ Loaded (Some _)) => 1%nat
    | _ => 0%nat
    end
  /\ (status <$> (imageCache r !! src) = Some Loading ->
      let r1 := onload src r in
      status <$> (imageCache r1 !! src) = Some Loaded
      /\ (callbackCount src r1
          = callbackCount src r
            + match onLoadCallback <$> (imageCache r !! src) with
              | Some (Some _) => 1
              | _ => 0
              end)%nat)
  /\ (status <$> (imageCache r !! src) = Some Loading ->
      let r2 := onerror src r in
      status <$> (imageCache r2 !! src) = Some Error
      /\ invoked r2 = invoked r
      /\ console r2 = console r ++ [ImageLoadFailed src]).
Proof.
  intros Had r.
  assert (Hs : settled r) by (apply settled_run; [apply settled_initial|exact Had]).
  split; [|split].
  - rewrite (Hs src). unfold owed. reflexivity.
  - intros Hl r1. subst r1. unfold onload.
    destruct (imageCache r !! src) as [[img st cb]|] eqn:Hsrc; [|discriminate].
    cbn in Hl. injection Hl as ->. cbn [imageCache]. rewrite lookup_insert_eq.
    split; [reflexivity|]. cbn [image onLoadCallback].
    unfold callbackCount. cbn [invoked].
    rewrite List.filter_app, length_app. f_equal.
    destruct cb; cbn; [|reflexivity]. now rewrite String.eqb_refl.
  - intros Hl r2. subst r2. unfold onerror.
    destruct (imageCache r !! src) as [[img st cb]|] eqn:Hsrc; [|discriminate].
    cbn [imageCache invoked console]. rewrite lookup_insert_eq. repeat split.
Qed.

Lemma callback_once_on_load_never_on_error_witness :
  callbackCount "a.png" (run loadingTrace initial) = 1%nat
  /\ callbackCount "a.png" (run failingTrace initial) = 0%nat.
Proof.
  split.
  - destruct (callback_once_on_load_never_on_error loadingTrace "a.png")
      as [H _]; [vm_compute; auto|].
    rewrite H. reflexivity.
  - destruct (callback_once_on_load_never_on_error failingTrace "a.png")
      as [H _]; [vm_compute; auto|].
    rewrite H. reflexivity.
Defined.

(** C3, as stated, fails: after the load of ["a.png"] has failed, its entry
    is in the terminal state [Error] and the callback supplied with the
    request has not been invoked. *)
Lemma callback_on_error_counterexample :
  let r := run failingTrace initial in
  admissible initial failingTrace
  /\ status <$> (imageCache r !! "a.png") = Some Error
  /\ onLoadCallback <$> (imageCache r !! "a.png") = Some (Some 0%nat)
  /\ callbackCount "a.png" r = 0%nat
  /\ console r = [ImageLoadFailed "a.png"].
Proof. vm_compute. auto. Qed.

End RenderFacts.

(** ** Path data *)

Module PathDataFacts.

Import PathData.

Local Open Scope Z_scope.

(** *** The command pattern *)

Lemma segments_letterFree text : letterFree text -> segments text = (text, []).
Proof.
  induction 1 as [|c text Hc _ IH]; [reflexivity|].
  cbn [segments]. now rewrite IH, Hc.
Qed.

(** *** Sample runs *)

Local Open Scope string_scope.

(** A path whose numbers stay exact under both passes: scaled by 2 and
    moved by [(10, 10)], then scaled by [0.5] and moved by [(-5, -5)], it
    encodes the points it started from. *)
Example transform_samplePath :
  transformPathData (ofZ 2) (ofZ 2) (ofZ 10, ofZ 10) samplePath
  = "M 30 50L 71 -70h 10a 2 2.5 0 0 1 4 4Z".
Proof. vm_compute. reflexivity. Qed.

Example transform_back_samplePath :
  transformPathData half half (ofZ (-5), ofZ (-5))
    (transformPathData (ofZ 2) (ofZ 2) (ofZ 10, ofZ 10) samplePath)
  = "M 10 20L 30.5 -40h 5a 1 1.25 0 0 1 2 2Z".
Proof. vm_compute. reflexivity. Qed.

(** C2: the function does not read back what it writes.  Doubling the
    relative move ["m 0.0000001 0"] gives [2e-7], which number-to-string
    conversion writes in exponent notation; the second pass takes the [e]
    of ["2e-7"] for a command letter, completes the move with [NaN] and
    returns text that encodes neither the original point nor any point.
    A number that is already written with an exponent is broken up in the
    same way by the identity transform. *)
Lemma transformPathData_misreads_exponent :
  transformPathData (ofZ 2) (ofZ 2) (ofZ 10, ofZ 10) tinyMove = "m 2e-7 0"
  /\ transformPathData half half (ofZ (-5), ofZ (-5))
       (transformPathData (ofZ 2) (ofZ 2) (ofZ 10, ofZ 10) tinyMove)
     = "m 1 NaNe -3.5 0"
  /\ transformPathData (ofZ 1) (ofZ 1) (ofZ 0, ofZ 0) hundredAndThree
     = "M 1 NaNe 2 3".
Proof. repeat split; vm_compute; reflexivity. Qed.

(** An incomplete coordinate group is completed with [NaN], whose text the
    next reading takes for the commands [N], [a], [N]. *)
Example transformPathData_incomplete_group :
  transformPathData (ofZ 1) (ofZ 1) (ofZ 0, ofZ 0) loneCoordinate
  = "M 1 2L 5 NaN"
  /\ pathArgs loneCoordinate
     = [("M"%char, [mkDec 1 0; mkDec 2 0]); ("L"%char, [mkDec 5 0])]
  /\ pathArgs (transformPathData (ofZ 1) (ofZ 1) (ofZ 0, ofZ 0) loneCoordinate)
     = [("M"%char, [mkDec 1 0; mkDec 2 0]); ("L"%char, [mkDec 5 0]);
        ("N"%char, []); ("a"%char, []); ("N"%char, [])].
Proof. repeat split; vm_compute; reflexivity. Qed.

End PathDataFacts.
(** * Further properties of the engine *)

(** ** Bounding boxes *)

Lemma encloses_refl b : encloses b b.
Proof. unfold encloses. lra. Qed.

Lemma encloses_trans a b c : encloses a b -> encloses b c -> encloses a c.
Proof. unfold encloses. lra. Qed.

(** The running box of a non-empty fold: it contains the start box and
    every box joined, and each of its four edges is an edge of one of
    them. *)
Lemma fold_joinBounds_Some {A : Type} (f : A -> Bounds) (l : list A) (a : Bounds) :
  exists b,
    fold_left (fun acc x => joinBounds acc (f x)) l (Some a) = Some b
    /\ encloses b a
    /\ (forall x, In x l -> encloses b (f x))
    /\ (minX b = minX a \/ exists x, In x l /\ minX (f x) = minX b)
    /\ (minY b = minY a \/ exists x, In x l /\ minY (f x) = minY b)
    /\ (maxX b = maxX a \/ exists x, In x l /\ maxX (f x) = maxX b)
    /\ (maxY b = maxY a \/ exists x, In x l /\ maxY (f x) = maxY b).
Proof.
  revert a. induction l as [|x l IH]; intros a.
  - exists a. cbn [fold_left]. split; [reflexivity|]. split; [apply encloses_refl|].
    split; [intros x []|]. tauto.
  - cbn [fold_left joinBounds].
    set (j := mkBounds (Rmin (minX a) (minX (f x))) (Rmin (minY a) (minY (f x)))
                       (Rmax (maxX a) (maxX (f x))) (Rmax (maxY a) (maxY (f x)))).
    destruct (IH j) as (b & Hb & Hj & Hall & H1 & H2 & H3 & H4).
    assert (Hja : encloses j a).
    { unfold encloses, j. cbn [minX minY maxX maxY].
      pose proof (Rmin_l (minX a) (minX (f x))). pose proof (Rmin_l (minY a) (minY (f x))).
      pose proof (Rmax_l (maxX a) (maxX (f x))). pose proof (Rmax_l (maxY a) (maxY (f x))).
      lra. }
    assert (Hjx : encloses j (f x)).
    { unfold encloses, j. cbn [minX minY maxX maxY].
      pose proof (Rmin_r (minX a) (minX (f x))). pose proof (Rmin_r (minY a) (minY (f x))).
      pose proof (Rmax_r (maxX a) (maxX (f x))). pose proof (Rmax_r (maxY a) (maxY (f x))).
      lra. }
    exists b. split; [exact Hb|]. split; [eapply encloses_trans; eassumption|].
    split.
    { intros y [<-|Hy]; [eapply encloses_trans; eassumption|auto]. }
    assert (Hin : forall (g : Bounds -> R),
               (exists y, In y l /\ g (f y) = g b) ->
               exists y, In y (x :: l) /\ g (f y) = g b).
    { intros g (y & Hy & Hg). exists y. split; [now right|exact Hg]. }
    repeat split.
    + destruct H1 as [H1|H1]; [|right; now apply (Hin minX)].
      rewrite H1. unfold j. cbn [minX].
      destruct (Rmin_case_strong (minX a) (minX (f x))
                  (fun r => r = minX a \/ r = minX (f x))) as [E|E]; auto.
      right. exists x. split; [now left|]. now rewrite E.
    + destruct H2 as [H2|H2]; [|right; now apply (Hin minY)].
      rewrite H2. unfold j. cbn [minY].
      destruct (Rmin_case_strong (minY a) (minY (f x))
                  (fun r => r = minY a \/ r = minY (f x))) as [E|E]; auto.
      right. exists x. split; [now left|]. now rewrite E.
    + destruct H3 as [H3|H3]; [|right; now apply (Hin maxX)].
      rewrite H3. unfold j. cbn [maxX].
      destruct (Rmax_case_strong (maxX a) (maxX (f x))
                  (fun r => r = maxX a \/ r = maxX (f x))) as [E|E]; auto.
      right. exists x. split; [now left|]. now rewrite E.
    + destruct H4 as [H4|H4]; [|right; now apply (Hin maxY)].
      rewrite H4. unfold j. cbn [maxY].
      destruct (Rmax_case_strong (maxY a) (maxY (f x))
                  (fun r => r = maxY a \/ r = maxY (f x))) as [E|E]; auto.
      right. exists x. split; [now left|]. now rewrite E.
Qed.

(** The same from the sentinels: the first box starts the fold. *)
Lemma fold_joinBounds_None {A : Type} (f : A -> Bounds) (x : A) (l : list A) :
  exists b,
    fold_left (fun acc x => joinBounds acc (f x)) (x :: l) None = Some b
    /\ (forall y, In y (x :: l) -> encloses b (f y))
    /\ (exists y, In y (x :: l) /\ minX (f y) = minX b)
    /\ (exists y, In y (x :: l) /\ minY (f y) = minY b)
    /\ (exists y, In y (x :: l) /\ maxX (f y) = maxX b)
    /\ (exists y, In y (x :: l) /\ maxY (f y) = maxY b).
Proof.
  cbn [fold_left joinBounds].
  destruct (fold_joinBounds_Some f l (f x)) as (b & Hb & Hx & Hall & H1 & H2 & H3 & H4).
  exists b. split; [exact Hb|].
  split. { intros y [<-|Hy]; auto. }
  assert (Hin : forall (g : Bounds -> R),
             (g b = g (f x) \/ exists y, In y l /\ g (f y) = g b) ->
             exists y, In y (x :: l) /\ g (f y) = g b).
  { intros g [Hg|(y & Hy & Hg)].
    - exists x. split; [now left|now symmetry].
    - exists y. split; [now right|exact Hg]. }
  repeat split; [apply (Hin minX)|apply (Hin minY)|apply (Hin maxX)|apply (Hin maxY)];
    assumption.
Qed.

Section BoundsFacts.

Variable measureText : string -> R -> R.

Local Abbreviation rawBounds := (getRawElementBounds measureText).

(** The raw bounds of an element drawn from points. *)
Lemma rawBounds_points el :
  etype el = Pen \/ etype el = Line \/ etype el = Rectangle ->
  rawBounds el
  = match fold_left (fun acc p => joinBounds acc (pointBox p)) (points el) None with
    | Some b => b
    | None => zeroBounds
    end.
Proof.
  intros Ht. unfold getRawElementBounds.
  destruct Ht as [Ht|[Ht|Ht]]; rewrite Ht; cbn [ElementType_eqb andb];
    destruct (points el) as [|p ps]; reflexivity.
Qed.

(** X1.  For a pen stroke, a line or a rectangle, the raw bounding box is
    the zero box when the element has no point; otherwise it contains every
    point of the element and is the least such box: each of its four edges
    passes through a point of the element. *)
Theorem getRawElementBounds_fits_points (el : Element) :
  etype el = Pen \/ etype el = Line \/ etype el = Rectangle ->
  let b := getRawElementBounds measureText el in
  (points el = [] -> b = zeroBounds)
  /\ (points el <> [] ->
      (forall p, In p (points el) -> insideBox b p)
      /\ (exists p, In p (points el) /\ px p = minX b)
      /\ (exists p, In p (points el) /\ py p = minY b)
      /\ (exists p, In p (points el) /\ px p = maxX b)
      /\ (exists p, In p (points el) /\ py p = maxY b)).
Proof.
  intros Ht b. subst b. rewrite (rawBounds_points el Ht).
  destruct (points el) as [|p ps].
  - split; [reflexivity|congruence].
  - split; [discriminate|]. intros _.
    destruct (fold_joinBounds_None pointBox p ps)
      as (b & -> & Hall & H1 & H2 & H3 & H4).
    split; [|auto].
    intros q Hq. specialize (Hall q Hq). unfold encloses, pointBox in Hall.
    cbn [minX minY maxX maxY] in Hall. unfold insideBox. lra.
Qed.

(** X2.  The collective box of no element is the zero box; that of a
    non-empty list contains the raw box of every element and is the least
    such box: each of its edges is the edge of some element's raw box.  (In
    particular the zero box plays no part once there is an element.) *)
Theorem getElementsBounds_least_box (els : list Element) :
  (els = [] -> getElementsBounds measureText els = zeroBounds)
  /\ (els <> [] ->
      let b := getElementsBounds measureText els in
      (forall el, In el els -> encloses b (rawBounds el))
      /\ (exists el, In el els /\ minX (rawBounds el) = minX b)
      /\ (exists el, In el els /\ minY (rawBounds el) = minY b)
      /\ (exists el, In el els /\ maxX (rawBounds el) = maxX b)
      /\ (exists el, In el els /\ maxY (rawBounds el) = maxY b)).
Proof.
  split.
  - intros ->. reflexivity.
  - intros Hne. destruct els as [|el els]; [congruence|].
    unfold getElementsBounds.
    destruct (fold_joinBounds_None rawBounds el els) as (b & -> & H).
    exact H.
Qed.

End BoundsFacts.

Lemma getRawElementBounds_fits_points_witness :
  let b := getRawElementBounds noMeasure zigzag in
  (forall p, In p (points zigzag) -> insideBox b p)
  /\ (exists p, In p (points zigzag) /\ px p = minX b)
  /\ (exists p, In p (points zigzag) /\ py p = minY b)
  /\ (exists p, In p (points zigzag) /\ px p = maxX b)
  /\ (exists p, In p (points zigzag) /\ py p = maxY b).
Proof.
  apply (getRawElementBounds_fits_points noMeasure zigzag).
  - left. reflexivity.
  - discriminate.
Defined.

(** ** Hit-testing an element *)

Section HitFacts.

Variable measureText : string -> R -> R.
Variable isPointInPath : string -> Point -> completion bool.
Variable isPointInStroke : string -> R -> Point -> completion bool.

Local Abbreviation test := (isPointInElement measureText isPointInPath isPointInStroke).

(** The four comparisons that open [isPointInElement]. *)
Lemma outside_insideBox b p :
  Num.ltb (px p) (minX b) || Num.gtb (px p) (maxX b)
  || Num.ltb (py p) (minY b) || Num.gtb (py p) (maxY b) = false
  <-> insideBox b p.
Proof.
  unfold insideBox. rewrite !orb_false_iff.
  rewrite !NumFacts.ltb_false, !NumFacts.gtb_false. lra.
Qed.

(** X5.  The padded box is a gate in front of every other test: a point
    outside it is never a hit and nothing else is consulted; the test can
    only throw for a path element that carries path data, at a point inside
    the box; and for every element that is neither a path nor a line, a
    point inside the box is a hit. *)
Theorem isPointInElement_box_gate (point : Point) (el : Element) (scale : R) :
  let box := getElementBounds measureText el in
  (~ insideBox box point -> test point el scale = Normal false)
  /\ (forall error,
         test point el scale = Throw error ->
         insideBox box point /\ etype el = Path /\ truthy (pathData el) = true)
  /\ (insideBox box point -> etype el <> Path -> etype el <> Line ->
      test point el scale = Normal true).
Proof.
  intros box. unfold isPointInElement. fold box.
  destruct (Num.ltb (px point) (minX box) || Num.gtb (px point) (maxX box)
            || Num.ltb (py point) (minY box) || Num.gtb (py point) (maxY box))
    eqn:Hout.
  - assert (Hno : ~ insideBox box point).
    { intros Hin. apply outside_insideBox in Hin. congruence. }
    split; [reflexivity|]. split; [discriminate|]. intros Hin. contradiction.
  - apply outside_insideBox in Hout.
    split; [intros Hno; contradiction|].
    split.
    + intros error.
      destruct (ElementType_eqb (etype el) Raster); [discriminate|].
      destruct (ElementType_eqb (etype el) Path) eqn:Hp.
      * apply ElementType_eqb_eq in Hp.
        destruct (truthy (pathData el)); cbn [andb]; [auto|].
        destruct (ElementType_eqb (etype el) Line && _); discriminate.
      * cbn [andb]. destruct (ElementType_eqb (etype el) Line && _); discriminate.
    + intros _ Hp Hl.
      destruct (ElementType_eqb (etype el) Raster); [reflexivity|].
      destruct (ElementType_eqb (etype el) Path) eqn:Ep;
        [apply ElementType_eqb_eq in Ep; contradiction|].
      destruct (ElementType_eqb (etype el) Line) eqn:El;
        [apply ElementType_eqb_eq in El; contradiction|].
      reflexivity.
Qed.

End HitFacts.

(** ** Resize handles *)




Section HandleFacts.

Variable measureText : string -> R -> R.


End HandleFacts.

(** ** Pointer-down *)

(** The snapshot taken for a resize: what it holds under a key. *)
Lemma snapshot_absent (l : list Element) (m : gmap Z Element) (id : Z) :
  ~ In id (map eid l) ->
  fold_left (fun m el => <[eid el := el]> m) l m !! id = m !! id.
Proof.
  revert m. induction l as [|x l IH]; intros m Hid; [reflexivity|].
  cbn [fold_left]. rewrite IH by (intros H; apply Hid; now right).
  apply lookup_insert_ne. intros E. apply Hid. now left.
Qed.

Lemma snapshot_present (l : list Element) (m : gmap Z Element) (el : Element) :
  List.NoDup (map eid l) -> In el l ->
  fold_left (fun m el => <[eid el := el]> m) l m !! eid el = Some el.
Proof.
  revert m. induction l as [|x l IH]; intros m Hnd Hin; [destruct Hin|].
  cbn [map] in Hnd. apply List.NoDup_cons_iff in Hnd. destruct Hnd as [Hx Hnd].
  cbn [fold_left]. destruct Hin as [->|Hin].
  - rewrite snapshot_absent by exact Hx. apply lookup_insert_eq.
  - now apply IH.
Qed.

Lemma snapshot_keys (l : list Element) (id : Z) :
  is_Some (fold_left (fun m el => <[eid el := el]> m) l (∅ : gmap Z Element) !! id)
  <-> exists el, In el l /\ eid el = id.
Proof.
  assert (Hgen : forall m : gmap Z Element,
             is_Some (fold_left (fun m el => <[eid el := el]> m) l m !! id)
             <-> is_Some (m !! id) \/ exists el, In el l /\ eid el = id).
  { induction l as [|x l IH]; intros m.
    - cbn [fold_left]. split; [auto|]. intros [H|(el & [] & _)]. exact H.
    - cbn [fold_left]. rewrite IH. split.
      + intros [H|(el & Hin & He)].
        * destruct (Z.eq_dec (eid x) id) as [E|E].
          -- right. exists x. split; [now left|exact E].
          -- left. now rewrite lookup_insert_ne in H.
        * right. exists el. split; [now right|exact He].
      + intros [H|(el & [->|Hin] & He)].
        * left. destruct (Z.eq_dec (eid x) id) as [E|E].
          -- rewrite E, lookup_insert_eq. eauto.
          -- now rewrite lookup_insert_ne.
        * left. rewrite He, lookup_insert_eq. eauto.
        * right. eauto. }
  rewrite Hgen. rewrite lookup_empty. split; [|auto].
  intros [[x Hx]|H]; [discriminate|exact H].
Qed.

Lemma NoDup_map_filter {A B : Type} (g : A -> B) (f : A -> bool) (l : list A) :
  List.NoDup (map g l) -> List.NoDup (map g (List.filter f l)).
Proof.
  induction l as [|x l IH]; intros Hnd; [constructor|].
  cbn [map] in Hnd. apply List.NoDup_cons_iff in Hnd. destruct Hnd as [Hx Hnd].
  cbn [List.filter]. destruct (f x); [|now apply IH].
  cbn [map]. constructor; [|now apply IH].
  intros Hin. apply Hx. apply in_map_iff in Hin. destruct Hin as (y & Hy & Hin).
  apply List.filter_In in Hin. apply in_map_iff. exists y. tauto.
Qed.

Section PointerDownMore.

Variable measureText : string -> R -> R.
Variable isPointInPath : string -> Point -> completion bool.
Variable isPointInStroke : string -> R -> Point -> completion bool.

Local Abbreviation mouseDown :=
  (handleMouseDown measureText isPointInPath isPointInStroke).
Local Abbreviation elementAt :=
  (getElementAtPoint measureText isPointInPath isPointInStroke).

(** What the handler of the canvas does on its own account: it never
    touches the collection, the tool, the style or the view, and it invokes
    at most one callback of the host, [onTextCreate] only with the text
    tool and at the point of the press. *)
Lemma handleMouseDown_own_effects (e : MouseEvent) (c : Canvas) :
  let c' := mouseDown e c in
  elements c' = elements c
  /\ updates c' = updates c
  /\ tool c' = tool c
  /\ currentStyle c' = currentStyle c
  /\ panZoomState c' = panZoomState c
  /\ wrapperRect c' = wrapperRect c
  /\ (hostCalls c' = hostCalls c
      \/ (exists id, hostCalls c' = hostCalls c ++ [OnElementDoubleClick id])
      \/ (tool c = ToolText
          /\ hostCalls c'
             = hostCalls c
               ++ [OnTextCreate (getPointInCanvas c (clientX e) (clientY e))])).
Proof.
  cbv zeta. unfold handleMouseDown.
  destruct (Tool_eqb (tool c) ToolPan || negb (button e =? 0)%Z).
  { repeat (split; [reflexivity|]). now left. }
  destruct (getHandleAtPoint measureText _ _) as [h|].
  { repeat (split; [reflexivity|]). now left. }
  destruct (getElementAtPoint _ _ _ _ _ _ _) as [clicked console'].
  assert (Htext : Tool_eqb (tool c) ToolText = true -> tool c = ToolText)
    by (destruct (tool c); cbn; congruence).
  destruct clicked as [el|].
  - destruct ((clock e - lastClickTime c <? 300)%Z && ElementType_eqb (etype el) Text).
    { repeat (split; [reflexivity|]). right. left. now exists (eid el). }
    cbn [tool setConsole setLastClickTime].
    destruct (Tool_eqb (tool c) ToolText) eqn:Ht.
    { repeat (split; [reflexivity|]). right. right. split; [auto|reflexivity]. }
    destruct (Tool_eqb (tool c) ToolSelect).
    { destruct (bool_decide _); repeat (split; [reflexivity|]); now left. }
    repeat (split; [reflexivity|]). now left.
  - cbn [tool setConsole setLastClickTime].
    destruct (Tool_eqb (tool c) ToolText) eqn:Ht.
    { repeat (split; [reflexivity|]). right. right. split; [auto|reflexivity]. }
    destruct (Tool_eqb (tool c) ToolSelect).
    { destruct (shiftKey e); repeat (split; [reflexivity|]); now left. }
    repeat (split; [reflexivity|]). now left.
Qed.

(** The press that creates a text: the text tool, the primary button, no
    resize handle under the pointer, and not a double-click on a text. *)
Lemma handleMouseDown_text_tool
  (e : MouseEvent) (c : Canvas) (clicked : option Element)
  (console' : list LogEntry) :
  let startPoint := getPointInCanvas c (clientX e) (clientY e) in
  tool c = ToolText ->
  button e = 0%Z ->
  getHandleAtPoint measureText c startPoint = None ->
  elementAt (elements c) (scale (panZoomState c)) startPoint (console c)
  = (clicked, console') ->
  (clock e - lastClickTime c <? 300)%Z && isTextElement clicked = false ->
  hostCalls (mouseDown e c) = hostCalls c ++ [OnTextCreate startPoint].
Proof.
  intros startPoint Htool Hb Hh Hhit Hdbl. unfold handleMouseDown.
  rewrite Htool, Hb. cbn [Tool_eqb orb Z.eqb negb].
  change (getPointInCanvas (setLastClickTime (clock e) c) (clientX e) (clientY e))
    with startPoint.
  change (getHandleAtPoint measureText (setLastClickTime (clock e) c) startPoint)
    with (getHandleAtPoint measureText c startPoint).
  rewrite Hh.
  cbn [elements panZoomState console setLastClickTime].
  rewrite Hhit. cbn [setConsole tool setLastClickTime].
  rewrite Htool. cbn [Tool_eqb].
  destruct clicked as [el|]; cbn [isTextElement] in Hdbl; [rewrite Hdbl|];
    reflexivity.
Qed.

Lemma skipn_app_length {A : Type} (l extra : list A) :
  skipn (length l) (l ++ extra) = extra.
Proof. induction l as [|x l IH]; [reflexivity|exact IH]. Qed.

Local Abbreviation press :=
  (App.pointerDown measureText isPointInPath isPointInStroke).

(** X9.  What a pointer-down does to the document, the callbacks of the
    canvas being the handlers of [App].  The style and the view never
    change.  The collection is edited in one case only, the text tool
    creating a text: one text element, with the clock as its id, the point
    of the press as its position, the stroke colour as its fill and the
    text ['Text'], is appended by one committing update; it becomes the
    element being edited and the tool becomes the select tool.  In every
    other case the collection is unchanged, no update of it is issued and
    the tool stays.  The text is created by every press of the primary
    button with the text tool that is neither on a resize handle nor a
    double-click on a text. *)
Theorem pointerDown_edits_only_by_text_creation (e : MouseEvent) (a : App.State) :
  let c := App.canvas a in
  let a' := press e a in
  let c' := App.canvas a' in
  let startPoint := getPointInCanvas c (clientX e) (clientY e) in
  let created :=
    elements c'
    = elements c ++ [App.newTextElement (clock e) (currentStyle c) startPoint]
    /\ updates c' = updates c ++ [false]
    /\ tool c' = ToolSelect
    /\ App.editingElementId a' = Some (clock e) in
  currentStyle c' = currentStyle c
  /\ panZoomState c' = panZoomState c
  /\ wrapperRect c' = wrapperRect c
  /\ ((elements c' = elements c /\ updates c' = updates c /\ tool c' = tool c)
      \/ (tool c = ToolText /\ created))
  /\ (tool c = ToolText ->
      button e = 0%Z ->
      getHandleAtPoint measureText c startPoint = None ->
      forall clicked console',
        elementAt (elements c) (scale (panZoomState c)) startPoint (console c)
        = (clicked, console') ->
        (clock e - lastClickTime c <? 300)%Z && isTextElement clicked = false ->
        created).
Proof.
  cbv zeta. unfold App.pointerDown.
  destruct (handleMouseDown_own_effects e (App.canvas a))
    as (He & Hu & Ht & Hs & Hv & Hw & Hcalls).
  cbv zeta in He, Hu, Ht, Hs, Hv, Hw, Hcalls.
  assert (Hcreate :
            hostCalls (mouseDown e (App.canvas a))
            = hostCalls (App.canvas a)
              ++ [OnTextCreate (getPointInCanvas (App.canvas a) (clientX e) (clientY e))] ->
            let a' := press e a in
            currentStyle (App.canvas a') = currentStyle (App.canvas a)
            /\ panZoomState (App.canvas a') = panZoomState (App.canvas a)
            /\ wrapperRect (App.canvas a') = wrapperRect (App.canvas a)
            /\ elements (App.canvas a')
               = elements (App.canvas a)
                 ++ [App.newTextElement (clock e) (currentStyle (App.canvas a))
                       (getPointInCanvas (App.canvas a) (clientX e) (clientY e))]
            /\ updates (App.canvas a') = updates (App.canvas a) ++ [false]
            /\ tool (App.canvas a') = ToolSelect
            /\ App.editingElementId a' = Some (clock e)).
  { intros Hc. cbv zeta. unfold App.pointerDown. rewrite Hc, skipn_app_length.
    cbn [fold_left App.deliver]. unfold App.handleTextCreate, App.updateElements.
    cbn [App.canvas App.editingElementId App.setTool setElements elements
         updates tool currentStyle panZoomState wrapperRect].
    rewrite He, Hu, Hs, Hv, Hw. repeat split; reflexivity. }
  cbv zeta in Hcreate. unfold App.pointerDown in Hcreate.
  split; [|split; [|split; [|split]]].
  - destruct Hcalls as [Hc|[[id Hc]|[_ Hc]]].
    + rewrite Hc, skipn_all. exact Hs.
    + rewrite Hc, skipn_app_length. cbn [fold_left App.deliver].
      unfold App.handleElementDoubleClick. cbn [App.canvas].
      destruct (List.find _ _) as [el|]; [destruct (ElementType_eqb _ _)|];
        exact Hs.
    + exact (proj1 (Hcreate Hc)).
  - destruct Hcalls as [Hc|[[id Hc]|[_ Hc]]].
    + rewrite Hc, skipn_all. exact Hv.
    + rewrite Hc, skipn_app_length. cbn [fold_left App.deliver].
      unfold App.handleElementDoubleClick. cbn [App.canvas].
      destruct (List.find _ _) as [el|]; [destruct (ElementType_eqb _ _)|];
        exact Hv.
    + exact (proj1 (proj2 (Hcreate Hc))).
  - destruct Hcalls as [Hc|[[id Hc]|[_ Hc]]].
    + rewrite Hc, skipn_all. exact Hw.
    + rewrite Hc, skipn_app_length. cbn [fold_left App.deliver].
      unfold App.handleElementDoubleClick. cbn [App.canvas].
      destruct (List.find _ _) as [el|]; [destruct (ElementType_eqb _ _)|];
        exact Hw.
    + exact (proj1 (proj2 (proj2 (Hcreate Hc)))).
  - destruct Hcalls as [Hc|[[id Hc]|[Htool Hc]]].
    + left. rewrite Hc, skipn_all. cbn [fold_left App.canvas]. auto.
    + left. rewrite Hc, skipn_app_length. cbn [fold_left App.deliver].
      unfold App.handleElementDoubleClick. cbn [App.canvas].
      destruct (List.find _ _) as [el|]; [destruct (ElementType_eqb _ _)|];
        cbn [App.canvas]; auto.
    + right. split; [exact Htool|]. exact (proj2 (proj2 (proj2 (Hcreate Hc)))).
  - intros Htool Hb Hh clicked console' Hhit Hdbl.
    pose proof (handleMouseDown_text_tool e (App.canvas a) clicked console'
                  Htool Hb Hh Hhit Hdbl) as Hc.
    exact (proj2 (proj2 (proj2 (Hcreate Hc)))).
Qed.

(** X10.  Pointer-down with the select tool, away from the resize handles
    and not a double-click on a text.  Over an element that is not selected,
    the selection becomes that element, together with the previous selection
    when the modifier is held, and a drag begins at the point.  Over no
    element, the selection is emptied unless the modifier is held, and a
    marquee begins, both of its corners at the point. *)
Theorem handleMouseDown_select_tool
  (e : MouseEvent) (c : Canvas) (clicked : option Element)
  (console' : list LogEntry) :
  let startPoint := getPointInCanvas c (clientX e) (clientY e) in
  tool c = ToolSelect ->
  button e = 0%Z ->
  getHandleAtPoint measureText c startPoint = None ->
  elementAt (elements c) (scale (panZoomState c)) startPoint (console c)
  = (clicked, console') ->
  (clock e - lastClickTime c <? 300)%Z && isTextElement clicked = false ->
  let c' := mouseDown e c in
  match clicked with
  | Some el =>
      (eid el ∉ selectedElementIds c ->
       forall id, id ∈ selectedElementIds c'
                  <-> id = eid el \/ (shiftKey e = true /\ id ∈ selectedElementIds c))
      /\ dragState c' = DraggingSelection
      /\ lastDragPoint c' = Some startPoint
      /\ marquee c' = marquee c
  | None =>
      (forall id, id ∈ selectedElementIds c'
                  <-> shiftKey e = true /\ id ∈ selectedElementIds c)
      /\ marquee c' = Some (startPoint, startPoint)
      /\ dragState c' = Marquee
  end
  /\ console c' = console'
  /\ hostCalls c' = hostCalls c
  /\ lastClickTime c' = clock e.
Proof.
  intros startPoint Htool Hb Hh Hhit Hdbl. cbv zeta. unfold handleMouseDown.
  rewrite Htool, Hb. cbn [Tool_eqb orb Z.eqb negb].
  change (getPointInCanvas (setLastClickTime (clock e) c) (clientX e) (clientY e))
    with startPoint.
  change (getHandleAtPoint measureText (setLastClickTime (clock e) c) startPoint)
    with (getHandleAtPoint measureText c startPoint).
  rewrite Hh.
  cbn [elements panZoomState console setLastClickTime].
  rewrite Hhit. cbn [setConsole tool setLastClickTime selectedElementIds].
  rewrite Htool. cbn [Tool_eqb].
  destruct clicked as [el|]; cbn [isTextElement] in Hdbl.
  - rewrite Hdbl.
    destruct (bool_decide (eid el ∈ selectedElementIds c)) eqn:Hsel.
    + apply bool_decide_eq_true_1 in Hsel.
      repeat split; try reflexivity; contradiction.
    + split; [|repeat split; reflexivity].
      split; [|repeat split; reflexivity].
      intros _ id. cbn [selectedElementIds setLastDragPoint setDragState
                        setSelectedElementIds].
      rewrite elem_of_union, elem_of_singleton.
      destruct (shiftKey e).
      * tauto.
      * rewrite elem_of_empty. intuition discriminate.
  - destruct (shiftKey e).
    + split; [|repeat split; reflexivity].
      split; [|split; reflexivity].
      intros id. cbn [selectedElementIds setDragState setMarquee]. tauto.
    + split; [|repeat split; reflexivity].
      split; [|split; reflexivity].
      intros id. cbn [selectedElementIds setDragState setMarquee
                      setSelectedElementIds].
      rewrite elem_of_empty. intuition discriminate.
Qed.

(** X11.  Pointer-down on a resize handle (primary button, any tool but
    pan) starts a resize with that handle.  The state of the gesture records
    the collective box of the selected elements and a snapshot of them: its
    keys are the ids of the selected elements, and, ids being distinct, it
    holds each selected element under its id.  The selection and the
    elements are left as they are. *)
Theorem handleMouseDown_on_handle (e : MouseEvent) (c : Canvas) (h : Handle) :
  let startPoint := getPointInCanvas c (clientX e) (clientY e) in
  tool c <> ToolPan ->
  button e = 0%Z ->
  getHandleAtPoint measureText c startPoint = Some h ->
  let c' := mouseDown e c in
  exists rs,
    resizingState c' = Some rs
    /\ dragState c' = Resizing
    /\ handle rs = h
    /\ initialSelectionBounds rs
       = getElementsBounds measureText (selectedElements c)
    /\ (forall id, is_Some (initialElements rs !! id)
                   <-> exists el, In el (selectedElements c) /\ eid el = id)
    /\ (List.NoDup (map eid (elements c)) ->
        forall el, In el (selectedElements c) ->
                   initialElements rs !! eid el = Some el)
    /\ selectedElementIds c' = selectedElementIds c
    /\ elements c' = elements c.
Proof.
  intros startPoint Htool Hb Hh. cbv zeta. unfold handleMouseDown.
  assert (Hpan : Tool_eqb (tool c) ToolPan = false).
  { destruct (tool c); try reflexivity. contradiction. }
  rewrite Hpan, Hb. cbn [orb Z.eqb negb].
  change (getPointInCanvas (setLastClickTime (clock e) c) (clientX e) (clientY e))
    with startPoint.
  change (getHandleAtPoint measureText (setLastClickTime (clock e) c) startPoint)
    with (getHandleAtPoint measureText c startPoint).
  rewrite Hh.
  change (selectedElements (setLastClickTime (clock e) c)) with (selectedElements c).
  eexists. split; [reflexivity|]. split; [reflexivity|]. split; [reflexivity|].
  split; [reflexivity|]. cbn [initialElements].
  split; [apply snapshot_keys|]. split; [|split; reflexivity].
  intros Hnd el Hin. apply snapshot_present; [|exact Hin].
  unfold selectedElements. now apply NoDup_map_filter.
Qed.

(** The press that starts a drawing, as one equation. *)
Lemma handleMouseDown_starts_drawing
  (e : MouseEvent) (c : Canvas) (clicked : option Element)
  (console' : list LogEntry) :
  let startPoint := getPointInCanvas c (clientX e) (clientY e) in
  tool c <> ToolPan -> tool c <> ToolText -> tool c <> ToolSelect ->
  button e = 0%Z ->
  getHandleAtPoint measureText c startPoint = None ->
  elementAt (elements c) (scale (panZoomState c)) startPoint (console c)
  = (clicked, console') ->
  (clock e - lastClickTime c <? 300)%Z && isTextElement clicked = false ->
  let newElement :=
    mkElement (clock e) (currentStyle c) None (toolAsType (tool c))
      [startPoint; startPoint] None None EmptyString None
      EmptyString EmptyString EmptyString in
  mouseDown e c
  = setDrawingElement
      (Some match clicked with
            | Some target =>
                if Tool_eqb (tool c) ToolLine
                then withPoints
                       (withStartElementId newElement (Some (eid target)))
                       [getAttachmentPoint measureText target startPoint;
                        startPoint]
                else newElement
            | None => newElement
            end)
      (setDragState Drawing (setConsole console' (setLastClickTime (clock e) c))).
Proof.
  intros startPoint Hpan Htext Hsel Hb Hh Hhit Hdbl. cbv zeta.
  unfold handleMouseDown.
  assert (Ep : Tool_eqb (tool c) ToolPan = false)
    by (destruct (tool c); try reflexivity; contradiction).
  assert (Et : Tool_eqb (tool c) ToolText = false)
    by (destruct (tool c); try reflexivity; contradiction).
  assert (Es : Tool_eqb (tool c) ToolSelect = false)
    by (destruct (tool c); try reflexivity; contradiction).
  rewrite Ep, Hb. cbn [orb Z.eqb negb].
  change (getPointInCanvas (setLastClickTime (clock e) c) (clientX e) (clientY e))
    with startPoint.
  change (getHandleAtPoint measureText (setLastClickTime (clock e) c) startPoint)
    with (getHandleAtPoint measureText c startPoint).
  rewrite Hh.
  cbn [elements panZoomState console setLastClickTime].
  rewrite Hhit. cbn [setConsole tool setLastClickTime setDragState currentStyle].
  rewrite Et, Es.
  destruct clicked as [target|]; cbn [isTextElement] in Hdbl; [rewrite Hdbl|];
    [destruct (Tool_eqb (tool c) ToolLine)|]; reflexivity.
Qed.

(** X31.  Pointer-down with a drawing tool (any tool but pan, text and
    select), off the resize handles and not a double-click on a text, puts
    an element under construction: its id is the clock, its type the tool's,
    its style the current style, and both of its points are the point of
    the press.  With the line tool over an element the line is attached to
    it: its first point is the attachment point of that element towards the
    press and it records the element's id as its start.  The collection,
    the selection and the host are left alone. *)
Theorem handleMouseDown_drawing_tool
  (e : MouseEvent) (c : Canvas) (clicked : option Element)
  (console' : list LogEntry) :
  let startPoint := getPointInCanvas c (clientX e) (clientY e) in
  tool c <> ToolPan -> tool c <> ToolText -> tool c <> ToolSelect ->
  button e = 0%Z ->
  getHandleAtPoint measureText c startPoint = None ->
  elementAt (elements c) (scale (panZoomState c)) startPoint (console c)
  = (clicked, console') ->
  (clock e - lastClickTime c <? 300)%Z && isTextElement clicked = false ->
  let c' := mouseDown e c in
  exists el,
    drawingElement c' = Some el
    /\ dragState c' = Drawing
    /\ eid el = clock e
    /\ etype el = toolAsType (tool c)
    /\ style el = currentStyle c
    /\ match clicked with
       | Some target =>
           if Tool_eqb (tool c) ToolLine
           then points el
                = [getAttachmentPoint measureText target startPoint; startPoint]
                /\ startElementId el = Some (eid target)
           else points el = [startPoint; startPoint]
                /\ startElementId el = None
       | None => points el = [startPoint; startPoint] /\ startElementId el = None
       end
    /\ elements c' = elements c
    /\ updates c' = updates c
    /\ selectedElementIds c' = selectedElementIds c
    /\ hostCalls c' = hostCalls c.
Proof.
  intros startPoint Hpan Htext Hsel Hb Hh Hhit Hdbl. cbv zeta.
  rewrite (handleMouseDown_starts_drawing e c clicked console'
             Hpan Htext Hsel Hb Hh Hhit Hdbl).
  cbv zeta. eexists. split; [reflexivity|].
  destruct clicked as [target|]; [destruct (Tool_eqb (tool c) ToolLine)|];
    repeat split; reflexivity.
Qed.

End PointerDownMore.

Lemma idleSquare_point x y : getPointInCanvas idleSquareCanvas x y = mkPoint x y.
Proof.
  unfold getPointInCanvas.
  cbn [idleSquareCanvas wrapperRect panZoomState positionX positionY scale].
  f_equal; field.
Qed.

Lemma handleMouseDown_select_tool_witness :
  let c' := handleMouseDown noMeasure neverInPath neverInStroke
              (mouseAt 50 50 false) idleSquareCanvas in
  (1%Z : Z) ∈ selectedElementIds c'
  /\ dragState c' = DraggingSelection
  /\ lastDragPoint c' = Some (mkPoint 50 50).
Proof.
  pose proof (handleMouseDown_select_tool noMeasure neverInPath neverInStroke
                (mouseAt 50 50 false) idleSquareCanvas (Some square) []) as H.
  cbv zeta in H. cbn [mouseAt clientX clientY] in H.
  rewrite idleSquare_point in H.
  destruct H as ((Hsel & Hd & Hl & _) & _).
  - reflexivity.
  - reflexivity.
  - unfold getHandleAtPoint. rewrite bool_decide_eq_true_2 by reflexivity.
    reflexivity.
  - apply square_hit; lra.
  - reflexivity.
  - cbv zeta. split; [|split; assumption].
    apply Hsel; [|now left].
    change (selectedElementIds idleSquareCanvas) with (∅ : gset Z).
    apply not_elem_of_empty.
Defined.

Lemma handleMouseDown_on_handle_witness :
  let c' := handleMouseDown noMeasure neverInPath neverInStroke
              (mouseAt 0 0 false) selectedSquareCanvas in
  exists rs,
    resizingState c' = Some rs
    /\ dragState c' = Resizing
    /\ handle rs = Hnw
    /\ initialSelectionBounds rs = mkBounds 0 0 100 100
    /\ initialElements rs !! 1%Z = Some square.
Proof.
  pose proof (handleMouseDown_on_handle noMeasure neverInPath neverInStroke
                (mouseAt 0 0 false) selectedSquareCanvas Hnw) as H.
  cbv zeta in H. cbn [mouseAt clientX clientY] in H.
  rewrite selectedSquare_point in H.
  destruct H as (rs & Hrs & Hd & Hh & Hb & _ & Hsnap & _).
  - discriminate.
  - reflexivity.
  - apply square_handle_corner.
  - cbv zeta. exists rs. rewrite square_group_bounds in Hb.
    repeat (split; [assumption|]).
    apply (Hsnap ltac:(repeat constructor; intros []) square).
    rewrite square_selected. now left.
Defined.

Lemma lineTool_point x y : getPointInCanvas lineToolCanvas x y = mkPoint x y.
Proof.
  unfold getPointInCanvas.
  cbn [lineToolCanvas wrapperRect panZoomState positionX positionY scale].
  f_equal; field.
Qed.

(** A line started on the square is attached to it. *)
Lemma handleMouseDown_drawing_tool_witness :
  let c' := handleMouseDown noMeasure neverInPath neverInStroke
              (mouseAt 50 50 false) lineToolCanvas in
  exists el,
    drawingElement c' = Some el
    /\ etype el = Line
    /\ points el = [getAttachmentPoint noMeasure square (mkPoint 50 50);
                    mkPoint 50 50]
    /\ startElementId el = Some 1%Z.
Proof.
  pose proof (handleMouseDown_drawing_tool noMeasure neverInPath neverInStroke
                (mouseAt 50 50 false) lineToolCanvas (Some square) []) as H.
  cbv zeta in H. cbn [mouseAt clientX clientY] in H.
  rewrite lineTool_point in H.
  destruct H as (el & Hel & _ & _ & Ht & _ & (Hp & Hs) & _).
  - discriminate.
  - discriminate.
  - discriminate.
  - reflexivity.
  - unfold getHandleAtPoint. rewrite bool_decide_eq_true_2 by reflexivity.
    reflexivity.
  - apply square_hit; lra.
  - reflexivity.
  - cbv zeta. exists el. repeat split; assumption.
Defined.

(** ** Pointer moves *)

Lemma withPoints_same el : withPoints el (points el) = el.
Proof. destruct el. reflexivity. Qed.

Lemma last_cons_default {A : Type} (l : list A) (x d : A) :
  List.last (x :: l) d = List.last l x.
Proof.
  revert x d. induction l as [|y l IH]; intros x d; [reflexivity|].
  change (List.last (x :: y :: l) d) with (List.last (y :: l) d).
  now rewrite !IH.
Qed.

Section DrawingFacts.

Variable measureText : string -> R -> R.
Variable transformPathData : string -> R -> R -> Point -> string.

Local Abbreviation move := (handleMouseMove measureText transformPathData).

Lemma handleMouseMove_drawing_step e c el :
  dragState c = Drawing -> drawingElement c = Some el ->
  move e c
  = setDrawingElement
      (Some (withPoints el
               (if ElementType_eqb (etype el) Pen
                then points el ++ [cursorOf c e]
                else if (0 <? length (points el))%nat
                     then <[(length (points el) - 1)%nat := cursorOf c e]> (points el)
                     else points el))) c.
Proof.
  intros Hd He. unfold handleMouseMove. rewrite Hd, He.
  cbn [DragState_eqb]. rewrite andb_false_r.
  destruct (resizingState c), (lastDragPoint c), (marquee c) as [[? ?]|];
    reflexivity.
Qed.

(** X12.  While a shape is being drawn, pointer moves touch nothing but
    the element under construction: the collection is unchanged and no
    update of it is issued.  A pen stroke gains the pointer position of
    every move, in order; a two-point shape (line, rectangle, circle) keeps
    its first point and has the latest pointer position as its second. *)
Theorem handleMouseMove_while_drawing
  (events : list MouseEvent) (c : Canvas) (el : Element) :
  dragState c = Drawing ->
  drawingElement c = Some el ->
  let c' := replay move events c in
  elements c' = elements c
  /\ updates c' = updates c
  /\ dragState c' = Drawing
  /\ (etype el = Pen ->
      drawingElement c'
      = Some (withPoints el (points el ++ map (cursorOf c) events)))
  /\ (etype el <> Pen ->
      forall a b, points el = [a; b] ->
      drawingElement c'
      = Some (withPoints el [a; List.last (map (cursorOf c) events) b])).
Proof.
  intros Hd He. cbv zeta. revert c el Hd He.
  induction events as [|e events IH]; intros c el Hd He.
  - cbn [replay fold_left map List.last].
    repeat (split; [reflexivity || assumption|]). split.
    + intros _. now rewrite app_nil_r, withPoints_same.
    + intros _ a b Hab. now rewrite <- Hab, withPoints_same.
  - unfold replay. cbn [fold_left]. fold (replay move events (move e c)).
    rewrite (handleMouseMove_drawing_step e c el Hd He).
    set (el1 := withPoints el _).
    destruct (IH (setDrawingElement (Some el1) c) el1 Hd eq_refl)
      as (H1 & H2 & H3 & H4 & H5).
    change (cursorOf (setDrawingElement (Some el1) c)) with (cursorOf c) in *.
    split; [exact H1|]. split; [exact H2|]. split; [exact H3|]. split.
    + intros Hpen. rewrite (H4 Hpen). unfold el1. rewrite Hpen.
      cbn [ElementType_eqb withPoints points eid style isMap etype startElementId
           endElementId pathData bounds text imageUrl sourceStrokeColor map].
      now rewrite <- app_assoc.
    + intros Hpen a b Hab.
      assert (Hne : ElementType_eqb (etype el) Pen = false).
      { destruct (ElementType_eqb (etype el) Pen) eqn:E; [|reflexivity].
        apply ElementType_eqb_eq in E. contradiction. }
      assert (Hel1 : el1 = withPoints el [a; cursorOf c e]).
      { unfold el1. rewrite Hne, Hab. reflexivity. }
      rewrite (H5 Hpen a (cursorOf c e)) by (rewrite Hel1; reflexivity).
      rewrite Hel1. cbn [map]. rewrite last_cons_default. reflexivity.
Qed.

End DrawingFacts.

Lemma handleMouseMove_while_drawing_witness :
  let events := [mouseAt 1 2 false; mouseAt 3 4 false] in
  let c' := replay (handleMouseMove noMeasure keepPathData) events penCanvas in
  elements c' = elements penCanvas
  /\ dragState c' = Drawing
  /\ drawingElement c'
     = Some (withPoints (shape 7 Pen stroke21)
               (stroke21 ++ map (cursorOf penCanvas) events)).
Proof.
  destruct (handleMouseMove_while_drawing noMeasure keepPathData
              [mouseAt 1 2 false; mouseAt 3 4 false] penCanvas
              (shape 7 Pen stroke21) eq_refl eq_refl)
    as (H1 & _ & H3 & H4 & _).
  cbv zeta. split; [exact H1|]. split; [exact H3|]. exact (H4 eq_refl).
Defined.

(** ** A whole drawing gesture *)

Lemma setDrawingElement_same c : setDrawingElement (drawingElement c) c = c.
Proof. destruct c. reflexivity. Qed.

Section GestureFacts.

Variable measureText : string -> R -> R.
Variable isPointInPath : string -> Point -> completion bool.
Variable isPointInStroke : string -> R -> Point -> completion bool.
Variable transformPathData : string -> R -> R -> Point -> string.

Local Abbreviation mouseDown :=
  (handleMouseDown measureText isPointInPath isPointInStroke).
Local Abbreviation elementAt :=
  (getElementAtPoint measureText isPointInPath isPointInStroke).
Local Abbreviation move := (handleMouseMove measureText transformPathData).
Local Abbreviation release := (handleMouseUp measureText).

(** A run of moves while drawing, as one assignment to the element under
    construction. *)
Lemma replay_drawing (events : list MouseEvent) (c : Canvas) (el : Element) :
  dragState c = Drawing ->
  drawingElement c = Some el ->
  (etype el = Pen ->
   replay move events c
   = setDrawingElement
       (Some (withPoints el (points el ++ map (cursorOf c) events))) c)
  /\ (etype el <> Pen ->
      forall a b, points el = [a; b] ->
      replay move events c
      = setDrawingElement
          (Some (withPoints el [a; List.last (map (cursorOf c) events) b])) c).
Proof.
  revert c el. induction events as [|e events IH]; intros c el Hd He.
  - cbn [replay fold_left map List.last]. split.
    + intros _. rewrite app_nil_r, withPoints_same, <- He.
      symmetry. apply setDrawingElement_same.
    + intros _ a b Hab. rewrite <- Hab, withPoints_same, <- He.
      symmetry. apply setDrawingElement_same.
  - unfold replay. cbn [fold_left]. fold (replay move events (move e c)).
    rewrite (handleMouseMove_drawing_step measureText transformPathData e c el Hd He).
    set (el1 := withPoints el _).
    destruct (IH (setDrawingElement (Some el1) c) el1 Hd eq_refl) as [Hpen Hshape].
    change (cursorOf (setDrawingElement (Some el1) c)) with (cursorOf c) in *.
    split.
    + intros Ht. rewrite Hpen by exact Ht. unfold el1. rewrite Ht.
      cbn [ElementType_eqb withPoints points eid style isMap etype startElementId
           endElementId pathData bounds text imageUrl sourceStrokeColor map
           setDrawingElement elements updates tool currentStyle
           selectedElementIds panZoomState wrapperRect lastDragPoint marquee
           lastClickTime hoveredHandle resizingState dragState console
           hostCalls].
      now rewrite <- app_assoc.
    + intros Ht a b Hab.
      assert (Hne : ElementType_eqb (etype el) Pen = false).
      { destruct (ElementType_eqb (etype el) Pen) eqn:E; [|reflexivity].
        apply ElementType_eqb_eq in E. contradiction. }
      assert (Hel1 : el1 = withPoints el [a; cursorOf c e]).
      { unfold el1. rewrite Hne, Hab. reflexivity. }
      rewrite (Hshape Ht a (cursorOf c e)) by (rewrite Hel1; reflexivity).
      rewrite Hel1. cbn [map]. rewrite last_cons_default. reflexivity.
Qed.

(** X32.  A whole drawing gesture: a press with a drawing tool (any tool
    but pan, text and select; off the resize handles; not a double-click on
    a text), any run of pointer moves, and the release, each event handled
    on the state the one before it left.  It appends exactly
    one element to the collection, by one committing update and no other
    update.  The element has the clock of the press as its id, the type of
    the tool and the current style.  A pen stroke holds the point of the
    press twice and then every pointer position, thinned out by the stroke
    filter when these are more than 20 points; any other shape holds two
    points, the second being the last pointer position (the point of the
    press if the pointer never moved) and the first the point of the press,
    unless the line tool attached it to an element under the press. *)
Theorem drawing_gesture_adds_one_element
  (press up : MouseEvent) (moves : list MouseEvent) (c : Canvas)
  (clicked : option Element) (console' : list LogEntry) :
  let startPoint := cursorOf c press in
  tool c <> ToolPan -> tool c <> ToolText -> tool c <> ToolSelect ->
  button press = 0%Z ->
  getHandleAtPoint measureText c startPoint = None ->
  elementAt (elements c) (scale (panZoomState c)) startPoint (console c)
  = (clicked, console') ->
  (clock press - lastClickTime c <? 300)%Z && isTextElement clicked = false ->
  let c' := release up (replay move moves (mouseDown press c)) in
  let positions := map (cursorOf c) moves in
  exists el,
    elements c' = elements c ++ [el]
    /\ updates c' = updates c ++ [false]
    /\ drawingElement c' = None
    /\ dragState c' = DragNone
    /\ eid el = clock press
    /\ etype el = toolAsType (tool c)
    /\ style el = currentStyle c
    /\ (tool c = ToolPen ->
        points el
        = if (20 <? length (startPoint :: startPoint :: positions))%nat
          then simplifyStroke (startPoint :: startPoint :: positions)
          else startPoint :: startPoint :: positions)
    /\ (tool c <> ToolPen ->
        exists first,
          points el = [first; List.last positions startPoint]
          /\ (clicked = None \/ tool c <> ToolLine -> first = startPoint)).
Proof.
  intros startPoint Hpan Htext Hsel Hb Hh Hhit Hdbl. cbv zeta.
  unfold cursorOf in startPoint.
  rewrite (handleMouseDown_starts_drawing measureText isPointInPath
             isPointInStroke press c clicked console'
             Hpan Htext Hsel Hb Hh Hhit Hdbl).
  cbv zeta. fold startPoint.
  set (newElement := mkElement (clock press) (currentStyle c) None
                       (toolAsType (tool c)) [startPoint; startPoint]
                       None None EmptyString None EmptyString EmptyString
                       EmptyString).
  set (el0 := match clicked with
              | Some target =>
                  if Tool_eqb (tool c) ToolLine
                  then withPoints
                         (withStartElementId newElement (Some (eid target)))
                         [getAttachmentPoint measureText target startPoint;
                          startPoint]
                  else newElement
              | None => newElement
              end).
  set (c1 := setDrawingElement (Some el0)
              (setDragState Drawing
                 (setConsole console' (setLastClickTime (clock press) c)))).
  assert (Hid : eid el0 = clock press)
    by (unfold el0; destruct clicked; [destruct (Tool_eqb _ _)|]; reflexivity).
  assert (Hty : etype el0 = toolAsType (tool c))
    by (unfold el0; destruct clicked; [destruct (Tool_eqb _ _)|]; reflexivity).
  assert (Hst : style el0 = currentStyle c)
    by (unfold el0; destruct clicked; [destruct (Tool_eqb _ _)|]; reflexivity).
  assert (Hpts : exists first,
             points el0 = [first; startPoint]
             /\ (clicked = None \/ tool c <> ToolLine -> first = startPoint)).
  { unfold el0. destruct clicked as [target|].
    - destruct (Tool_eqb (tool c) ToolLine) eqn:El.
      + eexists. split; [reflexivity|]. intros [H|H]; [discriminate H|].
        exfalso. apply H. destruct (tool c); cbn in El; congruence.
      + exists startPoint. split; [reflexivity|auto].
    - exists startPoint. split; [reflexivity|auto]. }
  destruct Hpts as (first & Hpts & Hfirst).
  destruct (replay_drawing moves c1 el0 eq_refl eq_refl) as [Hpen Hshape].
  change (cursorOf c1) with (cursorOf c) in *.
  assert (Hfinish : forall pts,
            let c2 := setDrawingElement (Some (withPoints el0 pts)) c1 in
            elements (release up c2)
            = elements c ++ [finishedElement (withPoints el0 pts)]
            /\ updates (release up c2) = updates c ++ [false]
            /\ drawingElement (release up c2) = None
            /\ dragState (release up c2) = DragNone).
  { intros pts. cbv zeta. unfold handleMouseUp. repeat split. }
  destruct (ElementType_eqb (toolAsType (tool c)) Pen) eqn:Ep.
  - assert (Htool : tool c = ToolPen)
      by (destruct (tool c); cbn in Ep; congruence).
    assert (Hfirst' : first = startPoint).
    { apply Hfirst. right. rewrite Htool. discriminate. }
    subst first.
    rewrite Hpen by (rewrite Hty, Htool; reflexivity).
    destruct (Hfinish (points el0 ++ map (cursorOf c) moves))
      as (H1 & H2 & H3 & H4).
    exists (finishedElement (withPoints el0 (points el0 ++ map (cursorOf c) moves))).
    split; [exact H1|]. split; [exact H2|]. split; [exact H3|]. split; [exact H4|].
    unfold finishedElement.
    cbn [withPoints etype points eid style]. rewrite Hty, Ep, Hpts.
    cbn [andb app].
    destruct (20 <? length (startPoint :: startPoint :: map (cursorOf c) moves))%nat;
      cbn [withPoints etype points eid style];
      (split; [exact Hid|]); (split; [exact Hty|]); (split; [exact Hst|]);
      (split; [intros _; reflexivity|]); intros Hn; contradiction.
  - assert (Htool : tool c <> ToolPen)
      by (intros E; rewrite E in Ep; discriminate Ep).
    assert (Hnp : etype el0 <> Pen).
    { rewrite Hty. intros E. rewrite E in Ep. discriminate Ep. }
    rewrite (Hshape Hnp first startPoint Hpts).
    destruct (Hfinish [first; List.last (map (cursorOf c) moves) startPoint])
      as (H1 & H2 & H3 & H4).
    exists (finishedElement
              (withPoints el0 [first; List.last (map (cursorOf c) moves) startPoint])).
    split; [exact H1|]. split; [exact H2|]. split; [exact H3|]. split; [exact H4|].
    unfold finishedElement.
    cbn [withPoints etype points eid style]. rewrite Hty, Ep.
    cbn [andb withPoints etype points eid style].
    split; [exact Hid|]. split; [exact Hty|]. split; [exact Hst|].
    split; [intros E; contradiction|].
    intros _. exists first. split; [reflexivity|exact Hfirst].
Qed.

End GestureFacts.

Lemma rectangleTool_point x y :
  getPointInCanvas rectangleToolCanvas x y = mkPoint x y.
Proof.
  unfold getPointInCanvas.
  cbn [rectangleToolCanvas wrapperRect panZoomState positionX positionY scale].
  f_equal; field.
Qed.

(** A rectangle dragged out on the empty canvas, through one point on the
    way. *)
Lemma drawing_gesture_adds_one_element_witness :
  let c' := handleMouseUp noMeasure (mouseAt 30 40 false)
              (replay (handleMouseMove noMeasure keepPathData)
                 [mouseAt 20 15 false; mouseAt 30 40 false]
                 (handleMouseDown noMeasure neverInPath neverInStroke
                    (mouseAt 10 10 false) rectangleToolCanvas)) in
  exists el,
    elements c' = [el]
    /\ updates c' = [false]
    /\ etype el = Rectangle
    /\ points el = [mkPoint 10 10; mkPoint 30 40].
Proof.
  pose proof (drawing_gesture_adds_one_element noMeasure neverInPath
                neverInStroke keepPathData
                (mouseAt 10 10 false) (mouseAt 30 40 false)
                [mouseAt 20 15 false; mouseAt 30 40 false]
                rectangleToolCanvas None []) as H.
  cbv zeta in H. unfold cursorOf in H. cbn [mouseAt clientX clientY map] in H.
  rewrite !rectangleTool_point in H.
  destruct H as (el & He & Hu & _ & _ & _ & Ht & _ & _ & Hp).
  - discriminate.
  - discriminate.
  - discriminate.
  - reflexivity.
  - unfold getHandleAtPoint. rewrite bool_decide_eq_true_2 by reflexivity.
    reflexivity.
  - reflexivity.
  - reflexivity.
  - destruct Hp as (first & Hp & Hf); [discriminate|].
    rewrite (Hf (or_introl eq_refl)) in Hp.
    cbv zeta. exists el. repeat split; assumption.
Defined.

(** ** Dragging the selection *)

Section DragFacts.

Variable measureText : string -> R -> R.
Variable transformPathData : string -> R -> R -> Point -> string.

Local Abbreviation move := (handleMouseMove measureText transformPathData).
Local Abbreviation translateEl := (translateElement transformPathData).
Local Abbreviation dragStep := (dragVisit transformPathData).









End DragFacts.






(** ** Resizing the selection *)

Lemma normalizeBounds_sizes b :
  maxX (normalizeBounds b) - minX (normalizeBounds b) = Rabs (maxX b - minX b)
  /\ maxY (normalizeBounds b) - minY (normalizeBounds b) = Rabs (maxY b - minY b).
Proof.
  destruct b as [x0 y0 x1 y1]. unfold normalizeBounds, Num.gtb, Num.ltb.
  cbn [minX minY maxX maxY].
  destruct (Rlt_dec x1 x0); cbn [minX minY maxX maxY];
    destruct (Rlt_dec y1 y0); cbn [minX minY maxX maxY];
    unfold Rabs; destruct (Rcase_abs (x1 - x0)), (Rcase_abs (y1 - y0)); lra.
Qed.

(** The box from which a plain resize (no modifier) starts its
    normalisation: the grabbed edges at the pointer. *)
Lemma resizedBounds_plain h b p :
  resizedBounds h b p false
  = normalizeBounds
      (mkBounds (if includes h West then px p else minX b)
                (if includes h North then py p else minY b)
                (if includes h East then px p else maxX b)
                (if includes h South then py p else maxY b)).
Proof. destruct b as [x0 y0 x1 y1]. destruct h; reflexivity. Qed.

Section ResizeMore.

Variable measureText : string -> R -> R.
Variable transformPathData : string -> R -> R -> Point -> string.

Local Abbreviation move := (handleMouseMove measureText transformPathData).
Local Abbreviation resizeEl := (resizeElement transformPathData).

Lemma resizeElement_eid snapshot origin scaleX scaleY el :
  eid (resizeEl snapshot origin scaleX scaleY el) = eid el.
Proof.
  unfold resizeElement.
  destruct (snapshot !! eid el) as [initialEl|]; [|reflexivity].
  destruct (ElementType_eqb (etype initialEl) Raster); [reflexivity|].
  destruct (bounds initialEl); [|reflexivity].
  destruct (ElementType_eqb (etype initialEl) Path && truthy (pathData initialEl));
    reflexivity.
Qed.

(** A resize step computes from the snapshot: what an earlier step of the
    same gesture wrote is overwritten. *)
Lemma resizeElement_absorbs snapshot o1 sx1 sy1 o2 sx2 sy2 el :
  resizeEl snapshot o2 sx2 sy2 (resizeEl snapshot o1 sx1 sy1 el)
  = resizeEl snapshot o2 sx2 sy2 el.
Proof.
  unfold resizeElement at 1 3. rewrite resizeElement_eid.
  destruct (snapshot !! eid el) as [initialEl|] eqn:Hget.
  - unfold resizeElement. rewrite Hget.
    destruct (ElementType_eqb (etype initialEl) Raster); [reflexivity|].
    destruct (bounds initialEl); [|reflexivity].
    destruct (ElementType_eqb (etype initialEl) Path && truthy (pathData initialEl));
      reflexivity.
  - unfold resizeElement. rewrite Hget. reflexivity.
Qed.

Lemma resizeElements_absorbs rs p1 shift1 p2 shift2 prev :
  resizeElements transformPathData rs p2 shift2
    (resizeElements transformPathData rs p1 shift1 prev)
  = resizeElements transformPathData rs p2 shift2 prev.
Proof.
  unfold resizeElements. rewrite map_map. apply map_ext. intros el.
  apply resizeElement_absorbs.
Qed.

(** X15.  A resize gesture leaves no trace of where the pointer has been:
    after any run of pointer moves, the collection is what the last move
    alone would have made of the collection the gesture started from.  Each
    move issues one overwriting update. *)
Theorem handleMouseMove_resize_from_snapshot
  (events : list MouseEvent) (e : MouseEvent) (c : Canvas) (rs : ResizingState) :
  dragState c = Resizing ->
  resizingState c = Some rs ->
  let c' := replay move (events ++ [e]) c in
  elements c' = elements (move e c)
  /\ updates c' = updates c ++ repeat true (S (length events))
  /\ resizingState c' = Some rs
  /\ dragState c' = Resizing.
Proof.
  intros Hd Hr. cbv zeta. revert c Hd Hr.
  induction events as [|e1 events IH]; intros c Hd Hr.
  - cbn [app replay fold_left length repeat].
    rewrite (handleMouseMove_resizing measureText transformPathData e c rs Hd Hr).
    repeat split; assumption.
  - cbn [app length]. unfold replay. cbn [fold_left].
    fold (replay move (events ++ [e]) (move e1 c)).
    rewrite (handleMouseMove_resizing measureText transformPathData e1 c rs Hd Hr).
    set (c1 := setElements _ true c).
    destruct (IH c1 Hd Hr) as (He & Hu & Hrs & Hds).
    split; [|split; [|split; assumption]].
    + rewrite He.
      rewrite !(handleMouseMove_resizing measureText transformPathData e _ rs)
        by assumption.
      unfold c1. cbn [elements setElements].
      change (getPointInCanvas (setElements _ true c)) with (getPointInCanvas c).
      apply resizeElements_absorbs.
    + rewrite Hu. unfold c1. cbn [updates setElements repeat].
      now rewrite <- app_assoc.
Qed.

(** X16.  A plain resize step (no modifier) maps every element of the
    snapshot about the corner opposite the handle, by one factor per axis:
    the distance between the edges of the box after the grabbed ones moved
    to the pointer, over their distance when the gesture began (or 1 for a
    box of no extent).  For a box with its edges in order the factors are
    never negative: dragging a handle past the opposite edge does not
    mirror the elements. *)
Theorem resizeElements_plain_factors
  (rs : ResizingState) (p : Point) (prev : list Element) :
  let b := initialSelectionBounds rs in
  let h := handle rs in
  let fx := resizeFactor (includes h West) (includes h East)
              (minX b) (maxX b) (px p) in
  let fy := resizeFactor (includes h North) (includes h South)
              (minY b) (maxY b) (py p) in
  resizeElements transformPathData rs p false prev
  = map (resizeEl (initialElements rs) (resizeAnchor h b) fx fy) prev
  /\ (minX b <= maxX b -> 0 <= fx)
  /\ (minY b <= maxY b -> 0 <= fy).
Proof.
  cbv zeta. split; [|split].
  - unfold resizeElements. rewrite resizedBounds_plain.
    destruct (normalizeBounds_sizes
                (mkBounds (if includes (handle rs) West then px p
                           else minX (initialSelectionBounds rs))
                          (if includes (handle rs) North then py p
                           else minY (initialSelectionBounds rs))
                          (if includes (handle rs) East then px p
                           else maxX (initialSelectionBounds rs))
                          (if includes (handle rs) South then py p
                           else maxY (initialSelectionBounds rs))))
      as [-> ->].
    reflexivity.
  - intros Hx. unfold resizeFactor, Num.eqb.
    destruct (Req_dec_T _ 0); [lra|].
    apply Rmult_le_pos; [apply Rabs_pos|].
    apply Rlt_le, Rinv_0_lt_compat. lra.
  - intros Hy. unfold resizeFactor, Num.eqb.
    destruct (Req_dec_T _ 0); [lra|].
    apply Rmult_le_pos; [apply Rabs_pos|].
    apply Rlt_le, Rinv_0_lt_compat. lra.
Qed.

End ResizeMore.




Lemma handleMouseMove_resize_from_snapshot_witness :
  let move := handleMouseMove noMeasure keepPathData in
  let c' := replay move [mouseAt 20 20 false; mouseAt 3 4 true; mouseAt 15 30 false]
              resizingCanvas in
  elements c' = elements (move (mouseAt 15 30 false) resizingCanvas)
  /\ updates c' = [true; true; true].
Proof.
  destruct (handleMouseMove_resize_from_snapshot noMeasure keepPathData
              [mouseAt 20 20 false; mouseAt 3 4 true] (mouseAt 15 30 false)
              resizingCanvas pairResizing eq_refl eq_refl)
    as (He & Hu & _).
  cbv zeta. split; [exact He|exact Hu].
Defined.

(** ** Updates of the collection over a gesture *)

Section UpdateFacts.

Variable measureText : string -> R -> R.
Variable transformPathData : string -> R -> R -> Point -> string.

Local Abbreviation move := (handleMouseMove measureText transformPathData).
Local Abbreviation release := (handleMouseUp measureText).

(** X18.  How a gesture reaches the history.  A pointer move issues at
    most one update of the collection, and only an overwriting one.  A
    pointer-up issues one committing update exactly when it ends a resize, a
    drag, or a drawing with an element under construction, and none
    otherwise; at the end of a resize or a drag that update leaves the
    collection as the moves made it.  After a pointer-up no gesture is in
    progress. *)
Theorem gesture_updates (e : MouseEvent) (c : Canvas) :
  (updates (move e c) = updates c \/ updates (move e c) = updates c ++ [true])
  /\ updates (release e c)
     = updates c ++ (if commitsOnRelease c then [false] else [])
  /\ (dragState c = Resizing \/ dragState c = DraggingSelection ->
      elements (release e c) = elements c)
  /\ dragState (release e c) = DragNone.
Proof.
  split; [|split; [|split]].
  - unfold handleMouseMove.
    destruct (Tool_eqb (tool c) ToolPan && DragState_eqb (dragState c) DragNone);
      [now left|].
    destruct (dragState c), (resizingState c) as [rs|], (lastDragPoint c) as [last|],
      (marquee c) as [[ms me]|], (drawingElement c) as [d|];
      try (now left); try (now right);
      destruct (bool_decide (selectedElementIds c = ∅));
      (now left) || (now right).
  - unfold handleMouseUp, commitsOnRelease.
    destruct (dragState c), (marquee c) as [[ms me]|], (drawingElement c) as [d|];
      cbn [updates setDragState setElements setResizingState setLastDragPoint
           setMarquee setSelectedElementIds setDrawingElement];
      rewrite ?app_nil_r; reflexivity.
  - unfold handleMouseUp. intros [H|H]; rewrite H; reflexivity.
  - unfold handleMouseUp. destruct (dragState c) eqn:E; [exact E|..]; reflexivity.
Qed.

End UpdateFacts.

(** ** Simplifying a stroke *)

Lemma filter_or_length {A : Type} (f g : A -> bool) (l : list A) :
  (length (List.filter (fun x => f x || g x) l)
   <= length (List.filter f l) + length (List.filter g l))%nat.
Proof.
  induction l as [|x l IH]; [reflexivity|].
  cbn [List.filter]. destruct (f x), (g x); cbn [orb length]; lia.
Qed.

Lemma filter_index_length (k a n : nat) :
  (length (List.filter (fun i => i =? k)%nat (seq a n)) <= 1)%nat.
Proof.
  assert (Hzero : forall n a, (k < a)%nat ->
             List.filter (fun i => i =? k)%nat (seq a n) = []).
  { intros m. induction m as [|m IHm]; intros b Hb; [reflexivity|].
    cbn [seq List.filter]. destruct (Nat.eqb_spec b k); [lia|].
    apply IHm. lia. }
  revert a. induction n as [|n IH]; intros a; [cbn; lia|].
  cbn [seq List.filter]. destruct (Nat.eqb_spec a k) as [->|Hne].
  - rewrite Hzero by lia. cbn. lia.
  - apply IH.
Qed.

Lemma multiples_of_four (n : nat) :
  length (List.filter (fun i => i mod 4 =? 0)%nat (seq 0 n)) = ((n + 3) / 4)%nat.
Proof.
  induction n as [|n IH]; [reflexivity|].
  rewrite seq_S, List.filter_app, length_app, IH.
  change (0 + n)%nat with n. cbn [List.filter].
  pose proof (Nat.div_mod_eq n 4). pose proof (Nat.div_mod_eq (S n + 3) 4).
  pose proof (Nat.div_mod_eq (n + 3) 4).
  pose proof (Nat.mod_upper_bound n 4 ltac:(lia)).
  pose proof (Nat.mod_upper_bound (S n + 3) 4 ltac:(lia)).
  pose proof (Nat.mod_upper_bound (n + 3) 4 ltac:(lia)).
  destruct (Nat.eqb_spec (n mod 4) 0); cbn [length]; lia.
Qed.

Lemma combine_seq_snoc {A : Type} (l : list A) (z : A) (a : nat) :
  combine (seq a (length (l ++ [z]))) (l ++ [z])
  = combine (seq a (length l)) l ++ [((a + length l)%nat, z)].
Proof.
  revert a. induction l as [|x l IH]; intros a.
  - cbn. now rewrite Nat.add_0_r.
  - cbn [app length seq combine]. rewrite IH. cbn [app].
    rewrite Nat.add_succ_r. reflexivity.
Qed.

Lemma filtered_sublist {A : Type} (f : nat * A -> bool) (l : list A) (a : nat) :
  sublist (map snd (List.filter f (combine (seq a (length l)) l))) l.
Proof.
  revert a. induction l as [|x l IH]; intros a; [constructor|].
  cbn [length seq combine List.filter]. destruct (f (a, x)); cbn [map snd].
  - apply sublist_skip, IH.
  - apply sublist_cons, IH.
Qed.

(** X19.  The simplified stroke is a sub-sequence of the samples, in their
    order; it begins with the first sample and ends with the last one; and
    it has at most one sample more than a quarter of them, rounded up. *)
Theorem simplifyStroke_keeps_ends {A : Type} (pts : list A) :
  sublist (simplifyStroke pts) pts
  /\ head (simplifyStroke pts) = head pts
  /\ last (simplifyStroke pts) = last pts
  /\ (length (simplifyStroke pts) <= (length pts + 3) / 4 + 1)%nat.
Proof.
  split; [apply filtered_sublist|]. split; [|split].
  - destruct pts as [|x pts]; reflexivity.
  - induction pts as [|z l _] using rev_ind; [reflexivity|].
    unfold simplifyStroke. rewrite combine_seq_snoc, List.filter_app.
    cbn [List.filter fst Nat.add].
    replace (length l =? length (l ++ [z]) - 1)%nat with true
      by (symmetry; apply Nat.eqb_eq; rewrite length_app; cbn; lia).
    rewrite orb_true_r, map_app. cbn [map snd].
    now rewrite !last_snoc.
  - destruct pts as [|x pts]; [cbn; lia|].
    rewrite (simplifyStroke_nth (x :: pts) x), length_map. unfold keptIndices.
    etransitivity; [apply filter_or_length|].
    rewrite multiples_of_four.
    pose proof (filter_index_length (length (x :: pts) - 1) 0 (length (x :: pts))).
    lia.
Qed.

(** ** The image cache: which callback, and terminal states *)

Module DrawFacts.

Import Render Draw.

Lemma firstRequest_app src t1 t2 :
  firstRequest src (t1 ++ t2)
  = match firstRequest src t1 with
    | Some callback => Some callback
    | None => firstRequest src t2
    end.
Proof.
  induction t1 as [|[key callback|key|key] t1 IH]; cbn [app firstRequest];
    try exact IH; [reflexivity|].
  destruct (String.eqb key src); [reflexivity|exact IH].
Qed.

Lemma remembers_step trace r ev :
  remembers trace r -> remembers (trace ++ [ev]) (step ev r).
Proof.
  intros [Hc Hi]. destruct ev as [key callback|key|key]; cbn [step].
  - unfold getImageFromCache.
    destruct (imageCache r !! key) as [entry|] eqn:Hkey.
    + assert (Hsame : snd (match status entry with
                            | Loaded => (Some (image entry), r)
                            | _ => (None, r)
                            end) = r) by (destruct (status entry); reflexivity).
      rewrite Hsame. split; [|exact Hi].
      intros src. rewrite firstRequest_app, <- Hc. cbn [firstRequest].
      destruct (imageCache r !! src) as [e|] eqn:Hsrc; [reflexivity|].
      cbn [fmap option_fmap option_map].
      destruct (String.eqb_spec key src) as [->|Hne]; [congruence|reflexivity].
    + cbn [snd]. split; cbn [imageCache invoked].
      * intros src. rewrite firstRequest_app, <- Hc. cbn [firstRequest].
        destruct (String.eqb_spec key src) as [->|Hne].
        -- rewrite lookup_insert_eq, Hkey. reflexivity.
        -- rewrite lookup_insert_ne by exact Hne.
           destruct (imageCache r !! src); reflexivity.
      * intros src cb Hin. specialize (Hi src cb Hin).
        destruct (decide (key = src)) as [->|Hne].
        -- rewrite Hkey in Hi. discriminate.
        -- now rewrite lookup_insert_ne.
  - unfold onload.
    destruct (imageCache r !! key) as [entry|] eqn:Hkey.
    + split; cbn [imageCache invoked].
      * intros src. rewrite firstRequest_app, <- Hc. cbn [firstRequest].
        destruct (decide (key = src)) as [->|Hne].
        -- rewrite lookup_insert_eq, Hkey. reflexivity.
        -- rewrite lookup_insert_ne by exact Hne.
           destruct (imageCache r !! src); reflexivity.
      * intros src cb Hin. apply in_app_or in Hin.
        destruct (decide (key = src)) as [->|Hne].
        -- rewrite lookup_insert_eq. cbn.
           destruct Hin as [Hin|Hin].
           ++ specialize (Hi src cb Hin). rewrite Hkey in Hi. exact Hi.
           ++ destruct (onLoadCallback entry) as [cb0|]; [|destruct Hin].
              destruct Hin as [Hin|[]]. now injection Hin as ->.
        -- rewrite lookup_insert_ne by exact Hne.
           destruct Hin as [Hin|Hin]; [now apply Hi|].
           destruct (onLoadCallback entry) as [cb0|]; [|destruct Hin].
           destruct Hin as [Hin|[]]. injection Hin as Hk _. contradiction.
    + split; [|exact Hi].
      intros src. rewrite firstRequest_app, <- Hc. cbn [firstRequest].
      destruct (imageCache r !! src); reflexivity.
  - unfold onerror.
    destruct (imageCache r !! key) as [entry|] eqn:Hkey.
    + split; cbn [imageCache invoked].
      * intros src. rewrite firstRequest_app, <- Hc. cbn [firstRequest].
        destruct (decide (key = src)) as [->|Hne].
        -- rewrite lookup_insert_eq, Hkey. reflexivity.
        -- rewrite lookup_insert_ne by exact Hne.
           destruct (imageCache r !! src); reflexivity.
      * intros src cb Hin. specialize (Hi src cb Hin).
        destruct (decide (key = src)) as [->|Hne].
        -- rewrite lookup_insert_eq. rewrite Hkey in Hi. exact Hi.
        -- now rewrite lookup_insert_ne.
    + split; [|exact Hi].
      intros src. rewrite firstRequest_app, <- Hc. cbn [firstRequest].
      destruct (imageCache r !! src); reflexivity.
Qed.

Lemma remembers_run trace prefix r :
  remembers prefix r -> remembers (prefix ++ trace) (run trace r).
Proof.
  revert prefix r. induction trace as [|ev trace IH]; intros prefix r H.
  - now rewrite app_nil_r.
  - cbn [run fold_left].
    replace (prefix ++ ev :: trace) with ((prefix ++ [ev]) ++ trace)
      by (now rewrite <- app_assoc).
    apply IH. now apply remembers_step.
Qed.

(** X20.  Only the callback of the first request counts.  In any run of
    the renderer from the empty cache, every invocation made for a key is
    an invocation of the callback handed over with the first request for
    that key; the callbacks of later requests for it are never invoked. *)
Theorem only_first_callback_invoked
  (trace : list Event) (src : string) (callback : Callback) :
  In (src, callback) (invoked (run trace initial)) ->
  firstRequest src trace = Some (Some callback).
Proof.
  intros Hin.
  assert (H0 : remembers [] initial).
  { split; [|intros s cb []]. intros s. unfold initial. cbn [imageCache].
    now rewrite lookup_empty. }
  destruct (remembers_run trace [] initial H0) as [Hc Hi].
  cbn [app] in Hc. rewrite <- Hc. now apply Hi.
Qed.

Lemma only_first_callback_invoked_witness :
  invoked (run twoRequests initial) = [("a.png", 0%nat)]
  /\ firstRequest "a.png" twoRequests = Some (Some 0%nat).
Proof.
  split; [reflexivity|].
  apply (only_first_callback_invoked twoRequests "a.png" 0%nat).
  vm_compute. auto.
Defined.

Lemma terminal_step ev r src st :
  enabled r ev ->
  imageCache r !! src = Some st -> status st <> Loading ->
  imageCache (step ev r) !! src = Some st.
Proof.
  intros Hen Hsrc Hst. destruct ev as [key callback|key|key]; cbn [step enabled] in *.
  - unfold getImageFromCache.
    destruct (imageCache r !! key) as [entry|] eqn:Hkey.
    + destruct (status entry); exact Hsrc.
    + cbn [snd imageCache]. rewrite lookup_insert_ne; [exact Hsrc|congruence].
  - unfold onload. destruct (imageCache r !! key) as [entry|] eqn:Hkey; [|exact Hsrc].
    cbn [imageCache]. rewrite lookup_insert_ne; [exact Hsrc|].
    intros ->. rewrite Hsrc in Hkey. injection Hkey as ->. cbn in Hen. congruence.
  - unfold onerror. destruct (imageCache r !! key) as [entry|] eqn:Hkey; [|exact Hsrc].
    cbn [imageCache]. rewrite lookup_insert_ne; [exact Hsrc|].
    intros ->. rewrite Hsrc in Hkey. injection Hkey as ->. cbn in Hen. congruence.
Qed.

(** X21.  The loaded and the error state are final.  Over any run in which
    the browser ends each started load at most once, an entry that is
    loaded or in error stays as it is; from then on a request for a loaded
    image returns the image and a request for a failed one returns nothing,
    and neither changes the cache, starts a load or logs: a failed load is
    never retried. *)
Theorem terminal_entry_is_final
  (trace : list Event) (r : Renderer) (src : string) (entry : CacheEntry)
  (callback : option Callback) :
  admissible r trace ->
  imageCache r !! src = Some entry ->
  status entry <> Loading ->
  let r' := run trace r in
  imageCache r' !! src = Some entry
  /\ getImageFromCache src callback r'
     = (match status entry with Loaded => Some (image entry) | _ => None end, r').
Proof.
  intros Had Hsrc Hst. cbv zeta.
  assert (Hfinal : imageCache (run trace r) !! src = Some entry).
  { revert r Had Hsrc. induction trace as [|ev trace IH]; intros r Had Hsrc.
    - exact Hsrc.
    - destruct Had as [Hen Had]. cbn [run fold_left]. apply IH; [exact Had|].
      now apply terminal_step. }
  split; [exact Hfinal|].
  unfold getImageFromCache. rewrite Hfinal.
  destruct (status entry); [contradiction|reflexivity|reflexivity].
Qed.

Lemma terminal_entry_is_final_witness :
  let r := run failingTrace initial in
  let r' := run [Request "a.png" (Some 1%nat); Request "b.png" None] r in
  status <$> (imageCache r' !! "a.png") = Some Error
  /\ getImageFromCache "a.png" (Some 2%nat) r' = (None, r').
Proof.
  destruct (terminal_entry_is_final
              [Request "a.png" (Some 1%nat); Request "b.png" None]
              (run failingTrace initial) "a.png"
              (mkEntry "a.png" Error (Some 0%nat)) (Some 2%nat))
    as [Hc Hg].
  - vm_compute. auto.
  - vm_compute. reflexivity.
  - discriminate.
  - cbv zeta. rewrite Hc. split; [reflexivity|exact Hg].
Defined.

End DrawFacts.

(** ** Drawing an element *)

Module DrawElementFacts.

Import Render Draw.

Lemma truthy_true s : truthy s = true <-> s <> EmptyString.
Proof. destruct s; cbn; split; congruence. Qed.

Lemma truthy_false s : truthy s = false <-> s = EmptyString.
Proof. destruct s; cbn; split; congruence. Qed.

Lemma prologue_no_fill el : Forall (fun op => isFill op = false) (prologue el).
Proof. unfold prologue. repeat constructor. Qed.

Lemma tracePoints_no_fill ps : Forall (fun op => isFill op = false) (tracePoints ps).
Proof.
  destruct ps as [|p ps]; [constructor|]. cbn [tracePoints].
  constructor; [reflexivity|]. induction ps; cbn [map]; constructor; auto.
Qed.

Section Context2DFacts.

Variable newPath2D : string -> completion unit.

Local Abbreviation draw := (drawElement newPath2D).

(** X22.  An element whose fill colour is ['transparent'] is never filled:
    drawing it issues neither [fill()] nor [fill(path)], whatever its type
    and geometry. *)
Theorem drawElement_never_fills_transparent
  (el : Element) (forceRender : option Callback) (r : Renderer) :
  fillColor (style el) = "transparent" ->
  Forall (fun op => isFill op = false) (issued (draw el forceRender r)).
Proof.
  intros Hfill.
  assert (Hnone : forall op, fillUnlessTransparent el op = []).
  { intros op. unfold fillUnlessTransparent. now rewrite Hfill. }
  pose proof (prologue_no_fill el) as Hpre.
  unfold drawElement. rewrite !Hnone.
  destruct (etype el).
  - destruct (1 <? length (points el))%nat; cbn [issued].
    + apply Forall_app. split; [exact Hpre|]. apply Forall_app.
      split; [apply tracePoints_no_fill|repeat constructor].
    + now rewrite app_nil_r.
  - destruct (1 <? length (points el))%nat; cbn [issued].
    + apply Forall_app. split; [exact Hpre|repeat constructor].
    + now rewrite app_nil_r.
  - destruct (1 <? length (points el))%nat; cbn [issued].
    + apply Forall_app. split; [exact Hpre|repeat constructor].
    + now rewrite app_nil_r.
  - destruct (1 <? length (points el))%nat; [destruct (Num.gtb _ 0)|]; cbn [issued].
    + apply Forall_app. split; [exact Hpre|repeat constructor].
    + now rewrite app_nil_r.
    + now rewrite app_nil_r.
  - destruct (truthy (pathData el)); [destruct (newPath2D _)|]; cbn [issued].
    + apply Forall_app. split; [exact Hpre|repeat constructor].
    + exact Hpre.
    + now rewrite app_nil_r.
  - destruct (truthy (text el)); [destruct (points el)|]; cbn [issued].
    + apply Forall_app. split; [exact Hpre|repeat constructor].
    + apply Forall_app. split; [exact Hpre|repeat constructor].
    + now rewrite app_nil_r.
  - destruct (truthy (imageUrl el)); cbn [issued]; [|now rewrite app_nil_r].
    destruct (getImageFromCache _ _ _) as [[img|] r'];
      [destruct (bounds el)|]; cbn [issued]; try exact Hpre.
    apply Forall_app. split; [exact Hpre|repeat constructor].
  - cbn [issued]. now rewrite app_nil_r.
Qed.

(** Every case but the text and the path case returns normally. *)
Lemma drawElement_other_cases
  (el : Element) (forceRender : option Callback) (r : Renderer) :
  etype el <> Text -> etype el <> Path ->
  thrown (draw el forceRender r) = None.
Proof.
  intros Ht Hp. unfold drawElement.
  destruct (etype el); try contradiction;
    repeat match goal with
           | |- context [if ?b then _ else _] => destruct b
           | |- context [let (_, _) := ?x in _] => destruct x
           | |- context [match ?x with _ => _ end] => destruct x
           end; reflexivity.
Qed.

(** X23.  The call throws in exactly two situations.  One is a text
    element with a non-empty text and no point: by then the font, the fill
    style and the baseline have been assigned and no text has been drawn.
    The other is a path element with path data that the path constructor
    of the host rejects: the exception is the constructor's, and nothing
    has been issued beyond the assignments that open every call.  In both
    the image cache is left as it was. *)
Theorem drawElement_throws_iff
  (el : Element) (forceRender : option Callback) (r : Renderer) :
  let outcome := draw el forceRender r in
  (thrown outcome <> None
   <-> (etype el = Text /\ text el <> EmptyString /\ points el = [])
       \/ (etype el = Path /\ pathData el <> EmptyString
           /\ exists error, newPath2D (pathData el) = Throw error))
  /\ (etype el = Text -> thrown outcome <> None ->
      issued outcome
      = prologue el ++ [SetFont (fontSizeOr24 (style el));
                        SetFillStyle (strokeColor (style el));
                        SetTextBaseline "top"]
      /\ cache outcome = r)
  /\ (etype el = Path -> thrown outcome <> None ->
      issued outcome = prologue el
      /\ cache outcome = r
      /\ exists error,
          thrown outcome = Some error
          /\ newPath2D (pathData el) = Throw error).
Proof.
  cbv zeta.
  destruct (ElementType_eqb (etype el) Text) eqn:Ht;
    [apply ElementType_eqb_eq in Ht|];
    [|destruct (ElementType_eqb (etype el) Path) eqn:Hp;
      [apply ElementType_eqb_eq in Hp|]].
  - (* text *)
    unfold drawElement. rewrite Ht.
    split; [|split; [|intros H; discriminate H]].
    + destruct (truthy (text el)) eqn:Htext.
      * apply truthy_true in Htext.
        destruct (points el) as [|p ps]; cbn [thrown].
        -- split; [intros _; left; auto|discriminate].
        -- split; [congruence|].
           intros [(_ & _ & H)|(H & _)]; discriminate H.
      * apply truthy_false in Htext. cbn [thrown]. split; [congruence|].
        intros [(_ & H & _)|(H & _)]; [contradiction|discriminate H].
    + intros _. destruct (truthy (text el)); [destruct (points el)|];
        cbn [thrown issued cache]; intros H; try congruence.
      split; reflexivity.
  - (* path *)
    unfold drawElement. rewrite Hp.
    split; [|split; [intros H; discriminate H|]].
    + destruct (truthy (pathData el)) eqn:Hd.
      * apply truthy_true in Hd.
        destruct (newPath2D (pathData el)) as [u|error] eqn:Hn; cbn [thrown].
        -- split; [congruence|].
           intros [(H & _)|(_ & _ & error & H)]; discriminate H.
        -- split; [intros _; right; eauto|discriminate].
      * apply truthy_false in Hd. cbn [thrown]. split; [congruence|].
        intros [(H & _)|(_ & H & _)]; [discriminate H|contradiction].
    + intros _. destruct (truthy (pathData el));
        [destruct (newPath2D (pathData el)) as [u|error]|];
        cbn [thrown issued cache]; intros H; try congruence.
      split; [reflexivity|]. split; [reflexivity|]. now exists error.
  - (* every other case returns normally *)
    assert (Hnt : etype el <> Text).
    { intros E. apply ElementType_eqb_eq in E. congruence. }
    assert (Hnp : etype el <> Path).
    { intros E. apply ElementType_eqb_eq in E. congruence. }
    pose proof (drawElement_other_cases el forceRender r Hnt Hnp) as Hnone.
    split; [|split]; [|intros E; contradiction|intros E; contradiction].
    split; [intros H; contradiction|].
    intros [(E & _)|(E & _)]; contradiction.
Qed.

(** X24.  The life of a bitmap on the canvas.  Drawing a bitmap element
    whose image is not in the cache draws nothing and starts its load,
    keeping the redraw callback.  Once the load has succeeded, which
    invokes that callback, drawing the element draws the image at the
    position and with the size of the element's box and leaves the cache
    alone.  If the load failed instead, drawing it draws nothing. *)
Theorem drawElement_raster_lifecycle
  (el : Element) (b : Bounds) (forceRender again : option Callback) (r : Renderer) :
  etype el = Raster ->
  imageUrl el <> EmptyString ->
  bounds el = Some b ->
  imageCache r !! imageUrl el = None ->
  let url := imageUrl el in
  let first := draw el forceRender r in
  issued first = prologue el
  /\ thrown first = None
  /\ imageCache (cache first) !! url = Some (mkEntry url Loading forceRender)
  /\ (let loaded := onload url (cache first) in
      invoked loaded
      = invoked r ++ match forceRender with
                     | Some callback => [(url, callback)]
                     | None => []
                     end
      /\ draw el again loaded
         = mkDrawn (prologue el
                    ++ [DrawImage url (minX b) (minY b)
                          (maxX b - minX b) (maxY b - minY b)])
                   loaded None)
  /\ (let failed := onerror url (cache first) in
      draw el again failed = mkDrawn (prologue el) failed None).
Proof.
  intros Ht Hurl Hb Hnew. cbv zeta.
  apply truthy_true in Hurl.
  assert (Hfirst : draw el forceRender r
                   = mkDrawn (prologue el)
                       (mkRenderer
                          (<[imageUrl el := mkEntry (imageUrl el) Loading forceRender]>
                             (imageCache r))
                          (invoked r) (console r)) None).
  { unfold drawElement. rewrite Ht, Hurl. unfold getImageFromCache.
    rewrite Hnew. reflexivity. }
  rewrite Hfirst. cbn [issued thrown cache imageCache].
  split; [reflexivity|]. split; [reflexivity|].
  split; [apply lookup_insert_eq|]. split.
  - unfold onload. cbn [imageCache invoked console]. rewrite lookup_insert_eq.
    cbn [image onLoadCallback]. split; [reflexivity|].
    unfold drawElement. rewrite Ht, Hurl, Hb. unfold getImageFromCache.
    cbn [imageCache]. rewrite lookup_insert_eq. reflexivity.
  - unfold onerror. cbn [imageCache invoked console]. rewrite lookup_insert_eq.
    unfold drawElement. rewrite Ht, Hurl, Hb. unfold getImageFromCache.
    cbn [imageCache]. rewrite lookup_insert_eq. reflexivity.
Qed.

End Context2DFacts.

Lemma drawElement_never_fills_transparent_witness :
  Forall (fun op => isFill op = false)
         (issued (drawElement acceptsAll square None initial)).
Proof.
  apply (drawElement_never_fills_transparent acceptsAll square None initial).
  reflexivity.
Defined.

Lemma drawElement_raster_lifecycle_witness :
  let url := imageUrl bitmap in
  let first := drawElement acceptsAll bitmap (Some 0%nat) initial in
  issued first = prologue bitmap
  /\ imageCache (cache first) !! url = Some (mkEntry url Loading (Some 0%nat))
  /\ drawElement acceptsAll bitmap None (onload url (cache first))
     = mkDrawn (prologue bitmap ++ [DrawImage url 0 0 (10 - 0) (10 - 0)])
               (onload url (cache first)) None.
Proof.
  destruct (drawElement_raster_lifecycle acceptsAll bitmap (mkBounds 0 0 10 10)
              (Some 0%nat) None initial)
    as (H1 & _ & H3 & (_ & H4) & _).
  - reflexivity.
  - discriminate.
  - reflexivity.
  - apply lookup_empty.
  - cbv zeta. split; [exact H1|]. split; [exact H3|exact H4].
Defined.

End DrawElementFacts.

(** ** Undo history *)

Module HistoryFacts.

Import History.

Section HookFacts.

Context {S : Type}.
Variable undefined : S.

Local Abbreviation set := (setState undefined).
Local Abbreviation current := (currentState undefined).

Lemma inRange_apply op (st : State S) : inRange st -> inRange (apply undefined op st).
Proof.
  unfold inRange. intros H. destruct op as [action overwrite| |]; cbn [apply].
  - unfold setState. destruct overwrite; cbn [history index].
    + unfold assign. rewrite (proj2 (Nat.ltb_lt _ _) H). now rewrite length_insert.
    + rewrite length_app. cbn [length]. lia.
  - unfold undo. destruct (Nat.ltb_spec 0 (index st)); cbn [history index]; lia.
  - unfold redo.
    destruct (Nat.ltb_spec (index st) (length (history st) - 1));
      cbn [history index]; lia.
Qed.

(** X25.  From its initial value and through any sequence of updates,
    undos and redos, the index of the hook points at an entry of the
    history: the current state is always one that was put there. *)
Theorem history_index_in_range (initialState : S) (ops : list (Op S)) :
  let st := run undefined ops (useHistoryState initialState) in
  (index st < length (history st))%nat
  /\ exists s, history st !! index st = Some s /\ current st = s.
Proof.
  cbv zeta.
  assert (Hgen : forall st0 : State S,
             inRange st0 -> inRange (run undefined ops st0)).
  { induction ops as [|op ops IH]; intros st0 H0; [exact H0|].
    unfold run. cbn [fold_left]. apply IH. now apply inRange_apply. }
  assert (Hin : inRange (run undefined ops (useHistoryState initialState))).
  { apply Hgen. unfold inRange. cbn. lia. }
  split; [exact Hin|].
  destruct (lookup_lt_is_Some_2 _ _ Hin) as [s Hs].
  exists s. split; [exact Hs|]. unfold currentState. now apply nth_lookup_Some.
Qed.

Lemma firstn_snoc_nth (l : list S) (i : nat) (x : S) :
  (i < length l)%nat -> nth i (firstn (i + 1) l ++ [x]) undefined = nth i l undefined.
Proof.
  intros Hi. rewrite app_nth1 by (rewrite length_firstn; lia).
  revert i Hi. induction l as [|a l IH]; intros i Hi; [cbn in Hi; lia|].
  destruct i as [|i]; [reflexivity|]. cbn [Nat.add firstn nth]. apply IH.
  cbn in Hi. lia.
Qed.

(** A committing update and its undo, on the current state. *)
Lemma commit_undo_redo_current (action : SetStateAction S) (st : State S) :
  inRange st ->
  current (set action false st)
  = match action with Updater f => f (current st) | Value s => s end
  /\ current (undo (set action false st)) = current st.
Proof.
  unfold inRange. intros Hin.
  assert (Hlen : length (firstn (index st + 1) (history st)) = (index st + 1)%nat)
    by (rewrite length_firstn; lia).
  split.
  - unfold currentState, setState. cbn [history index].
    rewrite length_app, Hlen. cbn [length].
    replace (index st + 1 + 1 - 1)%nat with (length (firstn (index st + 1) (history st)))
      by lia.
    rewrite nth_middle. reflexivity.
  - unfold undo, setState. cbn [history index]. rewrite length_app, Hlen.
    cbn [length]. rewrite (proj2 (Nat.ltb_lt 0 (index st + 1 + 1 - 1))) by lia.
    unfold currentState. cbn [history index].
    replace (index st + 1 + 1 - 1 - 1)%nat with (index st) by lia.
    now apply firstn_snoc_nth.
Qed.

(** X26.  A committing update can be undone and redone.  On a state whose
    index is in range, a committing update makes the new state current,
    keeps the entries up to the previous one, drops every entry that could
    have been redone, and can be undone; undoing it brings the previous
    state back, and redoing it after that restores the update as a whole.
    In general a redo cancels an undo that moved, and an undo cancels a redo
    that moved. *)
Theorem commit_undo_redo (action : SetStateAction S) (st : State S) :
  inRange st ->
  let committed := set action false st in
  current committed
  = match action with Updater f => f (current st) | Value s => s end
  /\ history committed = firstn (index st + 1) (history st) ++ [current committed]
  /\ canRedo committed = false
  /\ canUndo committed = true
  /\ current (undo committed) = current st
  /\ redo (undo committed) = committed
  /\ (canUndo st = true -> redo (undo st) = st)
  /\ (canRedo st = true -> undo (redo st) = st).
Proof.
  unfold inRange. intros Hin. cbv zeta.
  assert (Hlen : length (firstn (index st + 1) (history st)) = (index st + 1)%nat)
    by (rewrite length_firstn; lia).
  assert (Hcur : current (set action false st)
                 = match action with Updater f => f (current st) | Value s => s end).
  { unfold currentState, setState. cbn [history index].
    rewrite length_app, Hlen. cbn [length].
    replace (index st + 1 + 1 - 1)%nat with (length (firstn (index st + 1) (history st)))
      by lia.
    rewrite nth_middle. reflexivity. }
  split; [exact Hcur|]. split.
  { rewrite Hcur. reflexivity. }
  assert (Hidx : index (set action false st) = (index st + 1)%nat).
  { unfold setState. cbn [index]. rewrite length_app, Hlen. cbn [length]. lia. }
  assert (Hhl : length (history (set action false st)) = (index st + 2)%nat).
  { unfold setState. cbn [history]. rewrite length_app, Hlen. cbn [length]. lia. }
  split.
  { unfold canRedo. rewrite Hidx, Hhl. apply Nat.ltb_ge. lia. }
  split.
  { unfold canUndo. rewrite Hidx. apply Nat.ltb_lt. lia. }
  assert (Hundo : undo (set action false st)
                  = mkState (history (set action false st)) (index st)).
  { unfold undo. rewrite Hidx. rewrite (proj2 (Nat.ltb_lt 0 (index st + 1))) by lia.
    f_equal. lia. }
  split.
  { rewrite Hundo. unfold currentState. cbn [history index]. unfold setState.
    cbn [history]. now apply firstn_snoc_nth. }
  split.
  { rewrite Hundo. unfold redo. cbn [history index]. rewrite Hhl.
    rewrite (proj2 (Nat.ltb_lt (index st) (index st + 2 - 1))) by lia.
    rewrite <- Hidx. destruct (set action false st). reflexivity. }
  split.
  - unfold canUndo, undo, redo. intros H. rewrite H. cbn [history index].
    apply Nat.ltb_lt in H.
    rewrite (proj2 (Nat.ltb_lt (index st - 1) (length (history st) - 1))) by lia.
    destruct st as [h i]. cbn [history index] in *. f_equal. lia.
  - unfold canRedo, undo, redo. intros H. rewrite H. cbn [history index].
    rewrite (proj2 (Nat.ltb_lt 0 (index st + 1))) by lia.
    destruct st as [h i]. cbn [history index] in *. f_equal. lia.
Qed.

(** X27.  An overwriting update rewrites the current entry in place.  On a
    state whose index is in range it makes the new state current and leaves
    the index, the length of the history and every other entry as they
    were, so it can neither be undone nor redone on its own.  Hence, when a
    run of overwriting updates is followed by a committing one, undoing the
    commit brings back the state as the last overwrite left it, not the
    state from before the overwrites. *)
Theorem overwrite_in_place (f g : S -> S) (st : State S) :
  inRange st ->
  let overwritten := set (Updater f) true st in
  current overwritten = f (current st)
  /\ index overwritten = index st
  /\ length (history overwritten) = length (history st)
  /\ (forall i, i <> index st -> history overwritten !! i = history st !! i)
  /\ current (undo (set (Updater g) false overwritten)) = f (current st).
Proof.
  unfold inRange. intros Hin. cbv zeta.
  assert (Hset : set (Updater f) true st
                 = mkState (<[index st := f (current st)]> (history st)) (index st)).
  { unfold setState, assign. now rewrite (proj2 (Nat.ltb_lt _ _) Hin). }
  assert (Hcur : current (set (Updater f) true st) = f (current st)).
  { rewrite Hset. unfold currentState at 1. cbn [history index].
    apply nth_lookup_Some. now apply list_lookup_insert_eq. }
  split; [exact Hcur|]. rewrite Hset. cbn [history index].
  split; [reflexivity|]. split; [apply length_insert|]. split.
  - intros i Hi. apply list_lookup_insert_ne. congruence.
  - rewrite <- Hset.
    assert (Hin' : inRange (set (Updater f) true st)).
    { rewrite Hset. unfold inRange. cbn [history index]. now rewrite length_insert. }
    destruct (commit_undo_redo_current (Updater g) (set (Updater f) true st) Hin')
      as [_ ->].
    exact Hcur.
Qed.

End HookFacts.

Lemma sample_inRange : inRange sample.
Proof. unfold inRange, sample. cbn. lia. Qed.

Lemma commit_undo_redo_witness :
  let committed := setState 0%Z (Value 99%Z) false sample in
  history committed = [10%Z; 20%Z; 99%Z]
  /\ canRedo committed = false
  /\ currentState 0%Z (undo committed) = 20%Z
  /\ redo (undo committed) = committed.
Proof.
  destruct (commit_undo_redo 0%Z (Value 99%Z) sample sample_inRange)
    as (_ & H2 & H3 & _ & H5 & H6 & _).
  cbv zeta. split; [exact H2|]. split; [exact H3|]. split; [exact H5|exact H6].
Defined.

Lemma overwrite_in_place_witness :
  let overwritten := setState 0%Z (Updater (Z.add 1)) true sample in
  history overwritten = [10%Z; 21%Z; 30%Z]
  /\ index overwritten = 1%nat
  /\ currentState 0%Z
       (undo (setState 0%Z (Updater (fun s => s)) false overwritten)) = 21%Z.
Proof.
  destruct (overwrite_in_place 0%Z (Z.add 1) (fun s => s) sample sample_inRange)
    as (_ & H2 & _ & _ & H5).
  cbv zeta. split; [reflexivity|]. split; [exact H2|exact H5].
Defined.

End HistoryFacts.

(** ** Path data: relative commands, incomplete pairs *)

Module PathLawsFacts.

Import PathData PathDataFacts PathLaws.

Local Open Scope Z_scope.

(** *** Relative commands *)

Lemma segments_letters s m : In m (snd (segments s)) -> In (fst m) s.
Proof.
  revert m. induction s as [|c s IH]; intros m; cbn [segments]; [intros []|].
  destruct (segments s) as [text matches]. cbn [snd] in IH.
  destruct (isLetter c); cbn [snd]; intros Hin.
  - destruct Hin as [<-|Hin]; [now left|right; now apply IH].
  - right. now apply IH.
Qed.

Section Relative.

Variables sx sy : dec.
Variables t t' : dec * dec.

Lemma pairLoop_relative args :
  pairLoop sx sy t true args = pairLoop sx sy t' true args.
Proof.
  assert (H : forall n args, (length args <= n)%nat ->
                             pairLoop sx sy t true args = pairLoop sx sy t' true args).
  { induction n as [|n IH]; intros [|x [|y rest]] Hlen; cbn [length] in Hlen;
      try reflexivity; try lia.
    cbn [pairLoop]. rewrite (IH rest) by lia. reflexivity. }
  now apply (H (length args)).
Qed.

Lemma arcLoop_relative fuel args :
  arcLoop sx sy t fuel true args = arcLoop sx sy t' fuel true args.
Proof.
  revert args. induction fuel as [|fuel IH]; intros args; [reflexivity|].
  destruct args as [|a args]; [reflexivity|].
  cbn [arcLoop]. rewrite IH. reflexivity.
Qed.

Lemma replacement_relative m :
  isUpper (fst m) = false \/ fst m = "Z"%char ->
  replacement sx sy t m = replacement sx sy t' m.
Proof.
  destruct m as [c argsStr]. cbn [fst]. intros Hc. unfold replacement, newArgsOf.
  destruct Hc as [Hc| ->].
  - assert (Hrel : Ascii.eqb (toLowerCase c) c = true).
    { unfold toLowerCase. rewrite Hc. apply Ascii.eqb_refl. }
    rewrite Hrel.
    destruct ((length (parseArgs argsStr) =? 0)%nat
              && negb (Ascii.eqb (toUpperCase c) "Z")); [reflexivity|].
    destruct (Ascii.eqb (toUpperCase c) "Z"); [reflexivity|].
    destruct (Ascii.eqb (toUpperCase c) "H"); [reflexivity|].
    destruct (Ascii.eqb (toUpperCase c) "V"); [reflexivity|].
    destruct (Ascii.eqb (toUpperCase c) "A").
    + now rewrite arcLoop_relative.
    + now rewrite pairLoop_relative.
  - change (Ascii.eqb (toUpperCase "Z") "Z") with true. cbn [negb].
    rewrite andb_false_r. reflexivity.
Qed.

(** X29.  The translation never reaches a relative command.  For path
    data whose command letters are all lower-case (or the closepath), the
    result is the same text whatever translation is passed: translating
    such a path, as a drag does, only rewrites its numbers in place. *)
Theorem transformPathData_relative_ignores_translation (p : string) :
  relativeOnly p ->
  transformPathData sx sy t p = transformPathData sx sy t' p.
Proof.
  unfold relativeOnly. intros Hrel.
  assert (Hchars : transformChars sx sy t (list_ascii_of_string p)
                   = transformChars sx sy t' (list_ascii_of_string p)).
  { unfold transformChars.
    pose proof (segments_letters (list_ascii_of_string p)) as Hin.
    destruct (segments (list_ascii_of_string p)) as [text matches].
    cbn [snd] in Hin. f_equal. f_equal. apply map_ext_in. intros m Hm.
    apply replacement_relative. rewrite List.Forall_forall in Hrel.
    apply Hrel. now apply Hin. }
  unfold transformPathData. destruct p; [reflexivity|]. now rewrite Hchars.
Qed.

End Relative.

Lemma transformPathData_relative_ignores_translation_witness :
  transformPathData (ofZ 1) (ofZ 1) (ofZ 30, ofZ 40) relativePath
  = transformPathData (ofZ 1) (ofZ 1) (ofZ 0, ofZ 0) relativePath.
Proof.
  apply (transformPathData_relative_ignores_translation (ofZ 1) (ofZ 1)
           (ofZ 30, ofZ 40) (ofZ 0, ofZ 0) relativePath).
  unfold relativeOnly, relativePath. cbn [list_ascii_of_string].
  repeat (constructor; [left; reflexivity|]). constructor.
Defined.

(** *** Incomplete pairs *)

Section Incomplete.

Variables sx sy : dec.
Variable t : dec * dec.

Lemma pairLoop_odd rel k args :
  length args = (2 * k + 1)%nat ->
  exists vals,
    pairLoop sx sy t rel args = map Num vals ++ [NaN]
    /\ length vals = length args.
Proof.
  revert args. induction k as [|k IH]; intros args Hlen.
  - destruct args as [|x [|y rest]]; cbn [length] in Hlen; try lia.
    exists [aff rel sx (fst t) x]. split; reflexivity.
  - destruct args as [|x [|y rest]]; cbn [length] in Hlen; try lia.
    destruct (IH rest) as (vals & Hvals & Hl); [lia|].
    exists (aff rel sx (fst t) x :: aff rel sy (snd t) y :: vals).
    cbn [pairLoop map app length]. rewrite Hvals. split; [reflexivity|lia].
Qed.

(** X30.  A command that takes coordinate pairs and is given an odd
    number of arguments gets its last pair completed: the callback computes
    one value more than there are arguments, numbers for the arguments and
    [NaN] for the missing one, which is written into the result as the
    text [NaN]. *)
Theorem replacement_odd_count (command : ascii) (argsStr : list ascii) :
  takesPairs command ->
  Nat.odd (length (parseArgs argsStr)) = true ->
  exists vals,
    newArgsOf sx sy t command (parseArgs argsStr) = Some (map Num vals ++ [NaN])
    /\ length vals = length (parseArgs argsStr)
    /\ replacement sx sy t (command, argsStr)
       = command :: " "%char :: join (map toString vals ++ [["N"; "a"; "N"]%char]).
Proof.
  intros (Hz & Hh & Hv & Ha) Hodd.
  assert (Hk : exists k, length (parseArgs argsStr) = (2 * k + 1)%nat).
  { apply Nat.odd_spec in Hodd. destruct Hodd as [k Hk]. exists k. lia. }
  destruct Hk as [k Hk].
  destruct (pairLoop_odd (Ascii.eqb (toLowerCase command) command) k
              (parseArgs argsStr) Hk) as (vals & Hvals & Hl).
  exists vals.
  assert (Hnew : newArgsOf sx sy t command (parseArgs argsStr)
                 = Some (map Num vals ++ [NaN])).
  { unfold newArgsOf. rewrite Hz, Hh, Hv, Ha, Hk.
    replace (2 * k + 1 =? 0)%nat with false by (symmetry; apply Nat.eqb_neq; lia).
    cbn [andb]. now rewrite Hvals. }
  split; [exact Hnew|]. split; [exact Hl|].
  unfold replacement. rewrite Hnew. rewrite map_app, map_map. reflexivity.
Qed.

End Incomplete.

Lemma replacement_odd_count_witness :
  exists vals,
    newArgsOf (ofZ 1) (ofZ 1) (ofZ 0, ofZ 0) "L"%char (parseArgs [" "; "5"]%char)
    = Some (map Num vals ++ [NaN])
    /\ length vals = length (parseArgs [" "; "5"]%char)
    /\ replacement (ofZ 1) (ofZ 1) (ofZ 0, ofZ 0) ("L"%char, [" "; "5"]%char)
       = "L"%char :: " "%char :: join (map toString vals ++ [["N"; "a"; "N"]%char]).
Proof.
  apply (replacement_odd_count (ofZ 1) (ofZ 1) (ofZ 0, ofZ 0) "L"%char
           [" "; "5"]%char).
  - repeat split.
  - reflexivity.
Defined.

(** X33.  Path data without any command letter is returned as it is,
    whatever the factors and the translation: only commands are
    rewritten, and the text before the first command is kept. *)
Theorem transformPathData_without_commands (sx sy : dec) (t : dec * dec) (p : string) :
  letterFree (list_ascii_of_string p) ->
  transformPathData sx sy t p = p.
Proof.
  intros Hfree.
  assert (Hchars : transformChars sx sy t (list_ascii_of_string p)
                   = list_ascii_of_string p).
  { unfold transformChars. rewrite (segments_letterFree _ Hfree).
    cbn [map concat]. apply app_nil_r. }
  unfold transformPathData. destruct p; [reflexivity|].
  rewrite Hchars. apply string_of_list_ascii_of_string.
Qed.

Lemma transformPathData_without_commands_witness :
  transformPathData (ofZ 2) (ofZ 3) (ofZ 10, ofZ 10) bareNumbers = bareNumbers.
Proof.
  apply (transformPathData_without_commands (ofZ 2) (ofZ 3) (ofZ 10, ofZ 10)
           bareNumbers).
  unfold letterFree, bareNumbers. cbn [list_ascii_of_string].
  repeat (constructor; [reflexivity|]). constructor.
Defined.

End PathLawsFacts.

